(** * libyang data core: XML data parser and JSON data printer

    A shallow embedding of [src/parser_xml.c] and of the data part of
    [src/printer_json.c], with the properties of the natural-language
    specification stated and proved (or refuted) over it, followed by
    the traversal macro of [src/tree_schema.h] and the namespace
    declarations of [src/printer_xml.c] and by further properties of
    all of these.

    Conventions of the embedding:
    - a C [int] or enum used as a bit set is a [Z], tested with [Z.land];
    - a [const char *] that the code compares by address (interned
      dictionary strings) is a [cstr]: an address and the characters;
      the other strings are plain [string]s, a NULL pointer is [None];
    - the schema tree and the XML element tree are read-only inputs:
      they are inductive values that keep the [child]/[next] shape of
      the C structures;
    - the data tree the parser builds lives in a store (a [gmap] from
      addresses to nodes) with its [next]/[prev]/[parent]/[child]
      pointers; a loop that follows pointers of the store is bounded by
      the size of the store and yields [None] if it cannot finish;
    - functions of the library that are not part of these sources are
      fields of the class [Externals]. *)

From Stdlib Require Import ZArith Ascii String List Bool Lia.
From stdpp Require Import base option list gmap strings fin_maps.
Import ListNotations.
Set Warnings "-register-all".
Open Scope Z_scope.
Open Scope string_scope.

(** ** Interned strings *)

Record cstr := CStr { c_addr : N; c_chars : string }.

(** [a == b] on two [const char *] that are never NULL. *)
Definition ptr_eqb (a b : cstr) : bool := N.eqb (c_addr a) (c_addr b).

(** [a == b] on two [const char *] that may be NULL. *)
Definition ptr_eqb_opt (a b : option cstr) : bool :=
  match a, b with
  | Some x, Some y => ptr_eqb x y
  | None, None => true
  | _, _ => false
  end.

(** [!strcmp(a, b)] *)
Definition streq (a b : string) : bool := String.eqb a b.

(** ** Schema tree ([tree_schema.h]) *)

(** [LYS_NODE] *)
Definition LYS_UNKNOWN : Z := 0x0000.
Definition LYS_AUGMENT : Z := 0x0001.
Definition LYS_CONTAINER : Z := 0x0002.
Definition LYS_CHOICE : Z := 0x0004.
Definition LYS_LEAF : Z := 0x0008.
Definition LYS_LEAFLIST : Z := 0x0010.
Definition LYS_LIST : Z := 0x0020.
Definition LYS_ANYXML : Z := 0x0040.
Definition LYS_GROUPING : Z := 0x0080.
Definition LYS_CASE : Z := 0x0100.
Definition LYS_INPUT : Z := 0x0200.
Definition LYS_OUTPUT : Z := 0x0400.
Definition LYS_NOTIF : Z := 0x0800.
Definition LYS_RPC : Z := 0x1000.
Definition LYS_USES : Z := 0x2000.

(** schema node flags *)
Definition LYS_USERORDERED : Z := 0x80.

(** [LY_DATA_TYPE] *)
Definition LY_TYPE_DER : Z := 0.
Definition LY_TYPE_BINARY : Z := 1.
Definition LY_TYPE_BITS : Z := 2.
Definition LY_TYPE_BOOL : Z := 3.
Definition LY_TYPE_DEC64 : Z := 4.
Definition LY_TYPE_EMPTY : Z := 5.
Definition LY_TYPE_ENUM : Z := 6.
Definition LY_TYPE_IDENT : Z := 7.
Definition LY_TYPE_INST : Z := 8.
Definition LY_TYPE_LEAFREF : Z := 9.
Definition LY_TYPE_STRING : Z := 10.
Definition LY_TYPE_UNION : Z := 11.
Definition LY_TYPE_INT8 : Z := 12.
Definition LY_TYPE_UINT8 : Z := 13.
Definition LY_TYPE_INT16 : Z := 14.
Definition LY_TYPE_UINT16 : Z := 15.
Definition LY_TYPE_INT32 : Z := 16.
Definition LY_TYPE_UINT32 : Z := 17.
Definition LY_TYPE_INT64 : Z := 18.
Definition LY_TYPE_UINT64 : Z := 19.
Definition LY_DATA_TYPE_MASK : Z := 0x3f.
(** the two bits of [value_type] above [LY_DATA_TYPE_MASK]: the flags
    of an unresolved leafref and of an unresolved instance-identifier
    ([tree_schema.h]) *)
Definition LY_TYPE_LEAFREF_UNRES : Z := 0x40.
Definition LY_TYPE_INST_UNRES : Z := 0x80.

(** [struct lys_module] and [struct lys_submodule]: [m_type] is the bit
    that tells them apart, [m_ns] is the namespace of a module and
    [m_belongsto] the parent module of a submodule.  [m_addr] is the
    address of the structure, for the comparisons of module pointers.
    The [data] list of a module is kept beside it in the context (see
    [ly_ctx]) so that schema nodes can point back to their module. *)
Inductive lys_module : Type :=
  Lys_module (m_addr : N) (m_name : cstr) (m_type : bool)
             (m_ns : option cstr) (m_belongsto : option lys_module).

Definition m_addr (m : lys_module) : N := let (a, _, _, _, _) := m in a.
Definition m_name (m : lys_module) : cstr := let (_, n, _, _, _) := m in n.
Definition m_type (m : lys_module) : bool := let (_, _, t, _, _) := m in t.
Definition m_ns (m : lys_module) : option cstr := let (_, _, _, n, _) := m in n.
Definition m_belongsto (m : lys_module) : option lys_module :=
  let (_, _, _, _, b) := m in b.

(** [struct lys_type]: the base and, for a union, the array
    [info.uni.types] of its subtypes. *)
Inductive lys_type : Type :=
  Lys_type (base : Z) (uni_types : list lys_type).

Definition base (t : lys_type) : Z := let (b, _) := t in b.
Definition uni_types (t : lys_type) : list lys_type := let (_, l) := t in l.

(** [struct lys_node] (with the [type] member of [struct lys_node_leaf]).
    [s_addr] is the address of the node: the printer compares schema
    pointers. *)
Inductive lys_node : Type :=
  Lys_node (s_addr : N) (s_name : cstr) (s_flags : Z) (s_module : lys_module)
           (s_nodetype : Z) (s_type : lys_type)
           (s_child : option lys_node) (s_next : option lys_node).

Definition s_addr (n : lys_node) : N := let (a, _, _, _, _, _, _, _) := n in a.
Definition s_name (n : lys_node) : cstr := let (_, a, _, _, _, _, _, _) := n in a.
Definition s_flags (n : lys_node) : Z := let (_, _, a, _, _, _, _, _) := n in a.
Definition s_module (n : lys_node) : lys_module :=
  let (_, _, _, a, _, _, _, _) := n in a.
Definition s_nodetype (n : lys_node) : Z := let (_, _, _, _, a, _, _, _) := n in a.
Definition s_type (n : lys_node) : lys_type := let (_, _, _, _, _, a, _, _) := n in a.
Definition s_child (n : lys_node) : option lys_node :=
  let (_, _, _, _, _, _, a, _) := n in a.
Definition s_next (n : lys_node) : option lys_node :=
  let (_, _, _, _, _, _, _, a) := n in a.

(** [struct ly_ctx]: [models.list], each module with its [data]. *)
Record ly_ctx := Ly_ctx { models : list (lys_module * option lys_node) }.

(** ** XML element tree ([xml_internal.h], consumed) *)

Inductive LYXML_ATTR_TYPE := LYXML_ATTR_STD | LYXML_ATTR_NS.

Record lyxml_ns := Lyxml_ns { ns_prefix : option string; ns_value : option cstr }.

Record lyxml_attr := Lyxml_attr {
  a_type : LYXML_ATTR_TYPE;
  a_name : string;
  a_value : string;
  a_ns : option lyxml_ns }.

Inductive lyxml_elem : Type :=
  Lyxml_elem (x_name : cstr) (x_ns : option lyxml_ns) (x_content : option string)
             (x_attr : list lyxml_attr)
             (x_child : option lyxml_elem) (x_next : option lyxml_elem).

Definition x_name (e : lyxml_elem) : cstr := let (a, _, _, _, _, _) := e in a.
Definition x_ns (e : lyxml_elem) : option lyxml_ns := let (_, a, _, _, _, _) := e in a.
Definition x_content (e : lyxml_elem) : option string :=
  let (_, _, a, _, _, _) := e in a.
Definition x_attr (e : lyxml_elem) : list lyxml_attr :=
  let (_, _, _, a, _, _) := e in a.
Definition x_child (e : lyxml_elem) : option lyxml_elem :=
  let (_, _, _, _, a, _) := e in a.
Definition x_next (e : lyxml_elem) : option lyxml_elem :=
  let (_, _, _, _, _, a) := e in a.

(** [xml->ns->value] where [xml->ns] may be NULL *)
Definition x_ns_value (e : lyxml_elem) : option cstr :=
  match x_ns e with Some ns => ns_value ns | None => None end.

(** ** The schema resolver *)

Definition nodetype_in (n : lys_node) (mask : Z) : bool :=
  negb (Z.eqb (Z.land (s_nodetype n) mask) 0).

Definition LYS_TRANSPARENT : Z :=
  Z.lor LYS_CHOICE (Z.lor LYS_CASE (Z.lor LYS_USES (Z.lor LYS_INPUT LYS_OUTPUT))).

(** The body of [xml_data_search_schemanode] from a non-NULL [result]
    on: one turn of [LY_TREE_FOR (start, result)] and the turns after
    it. The element is always called with a namespace (the caller
    checks [xml->ns] and [xml->ns->value] first). *)
Fixpoint xml_data_search_schemanode_from (xml : lyxml_elem) (result : lys_node)
  {struct result} : option lys_node :=
  if Z.eqb (s_nodetype result) LYS_GROUPING then
    (* skip groupings *)
    match s_next result with
    | Some nx => xml_data_search_schemanode_from xml nx
    | None => None
    end
  else if nodetype_in result LYS_TRANSPARENT then
    (* go into cases, choices, uses and in RPCs into input and output *)
    match match s_child result with
          | Some c => xml_data_search_schemanode_from xml c
          | None => None
          end with
    | Some aux => Some aux
    | None =>
        match s_next result with
        | Some nx => xml_data_search_schemanode_from xml nx
        | None => None
        end
    end
  else if ptr_eqb (s_name result) (x_name xml)
          && ptr_eqb_opt (m_ns (s_module result)) (x_ns_value xml) then
    Some result
  else
    match s_next result with
    | Some nx => xml_data_search_schemanode_from xml nx
    | None => None
    end.

Definition xml_data_search_schemanode (xml : lyxml_elem) (start : option lys_node)
  : option lys_node :=
  match start with
  | Some s => xml_data_search_schemanode_from xml s
  | None => None
  end.

(** The resolver as the specification words it: the schema nodes a
    sibling list offers to data, in order (groupings dropped, the
    children of a transparent node in its place), and the test a
    concrete node has to pass. *)
Fixpoint data_candidates_from (n : lys_node) {struct n} : list lys_node :=
  let rest := match s_next n with
              | Some nx => data_candidates_from nx
              | None => []
              end in
  if Z.eqb (s_nodetype n) LYS_GROUPING then rest
  else if nodetype_in n LYS_TRANSPARENT then
    match s_child n with
    | Some c => data_candidates_from c
    | None => []
    end ++ rest
  else n :: rest.

Definition data_candidates (start : option lys_node) : list lys_node :=
  match start with
  | Some s => data_candidates_from s
  | None => []
  end.

Definition schema_accepts (xml : lyxml_elem) (n : lys_node) : bool :=
  N.eqb (c_addr (s_name n)) (c_addr (x_name xml))
  && match m_ns (s_module n), x_ns_value xml with
     | Some a, Some b => N.eqb (c_addr a) (c_addr b)
     | None, None => true
     | _, _ => false
     end.

(** ** The data tree under construction ([tree_data.h]) *)

Abbreviation ptr := positive.

(** [struct lyd_attr] (the [next] member is the tail of the list) *)
Record lyd_attr := Lyd_attr {
  da_module : lys_module;
  da_name : string;
  da_value : string }.

(** [lyd_val]: the members the decoders fill, by kind *)
Inductive lyd_val :=
| Val_unset
| Val_string (s : string)
| Val_number (z : Z)
| Val_sptr (a : N)
| Val_dptr (p : ptr).

(** [struct lyd_node], [struct lyd_node_leaf_list] and
    [struct lyd_node_anyxml] in one record: the first five members are
    common, [child] belongs to the inner nodes, [value_str], [value] and
    [value_type] to leaves and leaf-lists, [any_value] to anyxml. *)
Record lyd_node := Lyd_node {
  schema : option lys_node;
  attr : list lyd_attr;
  next : option ptr;
  prev : option ptr;
  parent : option ptr;
  child : option ptr;
  value_str : option string;
  value : lyd_val;
  value_type : Z;
  any_value : option lyxml_elem }.

(** what [calloc] returns *)
Definition zero_node : lyd_node :=
  Lyd_node None [] None None None None None Val_unset 0 None.

Definition set_schema (v : option lys_node) (n : lyd_node) : lyd_node :=
  Lyd_node v (attr n) (next n) (prev n) (parent n) (child n)
           (value_str n) (value n) (value_type n) (any_value n).
Definition set_attr (v : list lyd_attr) (n : lyd_node) : lyd_node :=
  Lyd_node (schema n) v (next n) (prev n) (parent n) (child n)
           (value_str n) (value n) (value_type n) (any_value n).
Definition set_next (v : option ptr) (n : lyd_node) : lyd_node :=
  Lyd_node (schema n) (attr n) v (prev n) (parent n) (child n)
           (value_str n) (value n) (value_type n) (any_value n).
Definition set_prev (v : option ptr) (n : lyd_node) : lyd_node :=
  Lyd_node (schema n) (attr n) (next n) v (parent n) (child n)
           (value_str n) (value n) (value_type n) (any_value n).
Definition set_parent (v : option ptr) (n : lyd_node) : lyd_node :=
  Lyd_node (schema n) (attr n) (next n) (prev n) v (child n)
           (value_str n) (value n) (value_type n) (any_value n).
Definition set_child (v : option ptr) (n : lyd_node) : lyd_node :=
  Lyd_node (schema n) (attr n) (next n) (prev n) (parent n) v
           (value_str n) (value n) (value_type n) (any_value n).
Definition set_value_str (v : option string) (n : lyd_node) : lyd_node :=
  Lyd_node (schema n) (attr n) (next n) (prev n) (parent n) (child n)
           v (value n) (value_type n) (any_value n).
Definition set_value_type (v : Z) (n : lyd_node) : lyd_node :=
  Lyd_node (schema n) (attr n) (next n) (prev n) (parent n) (child n)
           (value_str n) (value n) v (any_value n).
Definition set_any_value (v : option lyxml_elem) (n : lyd_node) : lyd_node :=
  Lyd_node (schema n) (attr n) (next n) (prev n) (parent n) (child n)
           (value_str n) (value n) (value_type n) v.

(** Modelled from the spec: the type of [ly_errno] is declared in
    [libyang.h], which is not among the sources; the constructors are
    the codes the sources use ([LY_EMEM], [LY_EINVAL], [LY_EINT],
    [LY_EVALID]) and [LY_SUCCESS] is the value of the reset
    [ly_errno = 0]. *)
Inductive LY_ERR := LY_SUCCESS | LY_EMEM | LY_EINVAL | LY_EINT | LY_EVALID.

(** The codes of [enum LY_ERR] in [common.h] that the parser passes to
    [LOGVAL]. *)
Inductive LYE :=
| LYE_XML_MISS | LYE_INARG | LYE_TOOMANY | LYE_INELEM | LYE_INVAL
| LYE_INATTR | LYE_MISSATTR.

(** Modelled from the spec: [struct unres_data] is declared in a
    header that is not among the sources; a deferral record holds the
    owning leaf, the resolution kind and the source line. *)
Record unres_item := Unres_item { u_node : ptr; u_type : Z; u_line : Z }.

(** The state a parse runs in: the store of data nodes, the error slot,
    the codes given to [ly_vlog] (newest first) and the deferrals. *)
Record pstate := Pstate {
  heap : gmap positive lyd_node;
  ly_errno : LY_ERR;
  vlog : list LYE;
  unres : list unres_item }.

Definition set_heap (h : gmap positive lyd_node) (st : pstate) : pstate :=
  Pstate h (ly_errno st) (vlog st) (unres st).
Definition set_errno (e : LY_ERR) (st : pstate) : pstate :=
  Pstate (heap st) e (vlog st) (unres st).

(** [LOGERR (errno, ...)] *)
Definition LOGERR (e : LY_ERR) (st : pstate) : pstate := set_errno e st.

(** Modelled from the spec: [LOGVAL (code, ...)] is [ly_vlog], which
    is not among the sources; every failure sets the error code, here
    [LY_EVALID], and logs. *)
Definition LOGVAL (code : LYE) (st : pstate) : pstate :=
  Pstate (heap st) LY_EVALID (code :: vlog st) (unres st).

(** [LOGINT] *)
Definition LOGINT (st : pstate) : pstate := LOGERR LY_EINT st.

(** [node->field = v] on the store; [None] if [node] is not allocated *)
Definition store (node : ptr) (f : lyd_node -> lyd_node) (st : pstate)
  : option pstate :=
  match heap st !! node with
  | Some n => Some (set_heap (<[node := f n]> (heap st)) st)
  | None => None
  end.

Definition EXIT_SUCCESS : Z := 0.
Definition EXIT_FAILURE : Z := 1.
Definition UINT_MAX : Z := 4294967295.

(** ** What the parser takes from the rest of the library

    The option bits and the YANG namespace are macros of [libyang.h]
    and [parser.h]; the functions live in [context.c], [common.c],
    [parser.c], [validation.c], [tree_data.c] and [resolve.c]. *)
Class Externals := {
  LYD_OPT_STRICT : Z;
  LYD_OPT_DESTRUCT : Z;
  LYD_OPT_FILTER : Z;
  LYD_OPT_EDIT : Z;
  LYD_OPT_GET : Z;
  LYD_OPT_GETCONFIG : Z;
  LY_NSYANG : string;
  (** [ly_ctx_get_module_by_ns (ctx, ns, NULL)] *)
  ly_ctx_get_module_by_ns : ly_ctx -> option cstr -> option lys_module;
  (** [transform_xml2json (ctx, expr, xml, log)] *)
  transform_xml2json : ly_ctx -> option string -> lyxml_elem -> Z -> option string;
  (** [lyp_parse_value (leaf, type, resolve, unres, line)] *)
  lyp_parse_value : ptr -> lys_type -> Z -> Z -> pstate -> Z * pstate;
  (** [lyv_data_context (node, options, line, unres)] *)
  lyv_data_context : ptr -> Z -> pstate -> Z * pstate;
  (** [lyv_data_content (node, options, line, unres)] *)
  lyv_data_content : ptr -> Z -> pstate -> Z * pstate;
  (** [lyd_free (node)] *)
  lyd_free : ptr -> pstate -> pstate;
  (** [resolve_unres_data (unres)] *)
  resolve_unres_data : pstate -> Z * pstate }.

Definition has_flag (v flag : Z) : bool := negb (Z.eqb (Z.land v flag) 0).

Definition is_path_base (b : Z) : bool :=
  Z.eqb b LY_TYPE_IDENT || Z.eqb b LY_TYPE_INST.

Section Parser.
Context {E : Externals}.

(** *** [xml_get_value] *)

(** Modelled from the spec: [lyp_get_next_union_type] is not among the
    sources; the subtypes of a union are tried in declaration order,
    which is read as the order of the array [info.uni.types]. The types
    the iterator yields, first to last. *)
Definition lyp_union_types (stype : lys_type) : list lys_type := uni_types stype.

(** The [while (type)] loop of the union branch, over the subtypes that
    are still to be tried. [xml->content] is NULL at the head of every
    turn; inside a turn it holds the text in XML form, here [saved].
    The result is the type the loop stopped at, NULL ([None]) if it ran
    off the end. *)
Fixpoint xml_get_value_union (ctx : ly_ctx) (node : ptr) (xml : lyxml_elem)
  (resolve : Z) (types : list lys_type) (st : pstate) {struct types}
  : option (option lys_type * pstate) :=
  match types with
  | [] => Some (None, st)
  | type :: rest =>
      match heap st !! node with
      | None => None
      | Some leaf =>
          (* leaf->value_type = type->base; *)
          let st1 := set_heap (<[node := set_value_type (base type) leaf]> (heap st)) st in
          if is_path_base (base type) then
            (* in these cases we use JSON format *)
            let saved := value_str leaf in
            match transform_xml2json ctx saved xml 0 with
            | None =>
                (* leaf->value_str = xml->content; next subtype *)
                xml_get_value_union ctx node xml resolve rest st1
            | Some json =>
                let st2 :=
                  set_heap (<[node := set_value_str (Some json)
                                        (set_value_type (base type) leaf)]> (heap st)) st in
                let '(r, st3) := lyp_parse_value node type resolve UINT_MAX st2 in
                if Z.eqb r 0 then Some (Some type, st3)
                else
                  (* lydict_remove; leaf->value_str = xml->content; *)
                  match store node (set_value_str saved) st3 with
                  | None => None
                  | Some st4 => xml_get_value_union ctx node xml resolve rest st4
                  end
            end
          else
            let '(r, st3) := lyp_parse_value node type resolve UINT_MAX st1 in
            if Z.eqb r 0 then Some (Some type, st3)
            else xml_get_value_union ctx node xml resolve rest st3
      end
  end.

(** the value given to [resolve] *)
Definition xml_resolve (options : Z) : Z :=
  if has_flag options
       (Z.lor LYD_OPT_FILTER (Z.lor LYD_OPT_EDIT (Z.lor LYD_OPT_GET LYD_OPT_GETCONFIG)))
  then 0 else 1.

(** [ctx] stands for [leaf->schema->module->ctx]. *)
Definition xml_get_value (ctx : ly_ctx) (node : ptr) (xml : lyxml_elem)
  (options : Z) (st : pstate) : option (Z * pstate) :=
  match heap st !! node with
  | None => None
  | Some leaf0 =>
      match schema leaf0 with
      | None => None
      | Some sch =>
          let stype := s_type sch in
          (* leaf->value_str = xml->content; leaf->value_type = stype->base; *)
          let leaf := set_value_type (base stype) (set_value_str (x_content xml) leaf0) in
          let st1 := set_heap (<[node := leaf]> (heap st)) st in
          if has_flag options LYD_OPT_FILTER && negb (bool_decide (is_Some (value_str leaf)))
          then
            (* no value in filter (selection) node -> nothing more is needed *)
            Some (EXIT_SUCCESS, st1)
          else
            let resolve := xml_resolve options in
            if is_path_base (base stype) then
              (* convert the path from the XML form using XML namespaces into
                 the JSON format using module names as namespaces *)
              match transform_xml2json ctx (value_str leaf) xml 1 with
              | None =>
                  Some (EXIT_FAILURE,
                        set_heap (<[node := set_value_str None leaf]> (heap st)) st)
              | Some json =>
                  let st2 :=
                    set_heap (<[node := set_value_str (Some json) leaf]> (heap st)) st in
                  (* LOGLINE (xml) is 0 in a build with NDEBUG *)
                  let '(r, st3) := lyp_parse_value node stype resolve 0 st2 in
                  if Z.eqb r 0 then Some (EXIT_SUCCESS, st3)
                  else Some (EXIT_FAILURE, st3)
              end
            else if Z.eqb (base stype) LY_TYPE_UNION then
              match xml_get_value_union ctx node xml resolve (lyp_union_types stype) st1
              with
              | None => None
              | Some (None, st3) => Some (EXIT_FAILURE, LOGVAL LYE_INVAL st3)
              | Some (Some _, st3) => Some (EXIT_SUCCESS, st3)
              end
            else
              let '(r, st3) := lyp_parse_value node stype resolve 0 st1 in
              if Z.eqb r 0 then Some (EXIT_SUCCESS, st3)
              else Some (EXIT_FAILURE, st3)
      end
  end.

(** *** [xml_parse_data]: finding the schema node (lines 184-204) *)

(** [LY_TREE_FOR (module->data, schema) if (schema->name == xml->name) break;] *)
Fixpoint xml_root_schemanode_from (xml : lyxml_elem) (sch : lys_node) {struct sch}
  : option lys_node :=
  if ptr_eqb (s_name sch) (x_name xml) then Some sch
  else match s_next sch with
       | Some nx => xml_root_schemanode_from xml nx
       | None => None
       end.

(** the [for] over [ctx->models.list]: the first module with the
    namespace of the element decides *)
Fixpoint xml_root_schemanode (xml : lyxml_elem)
  (list : list (lys_module * option lys_node)) : option lys_node :=
  match list with
  | [] => None
  | (m, data) :: rest =>
      if ptr_eqb_opt (m_ns m) (x_ns_value xml) then
        match data with
        | Some d => xml_root_schemanode_from xml d
        | None => None
        end
      else xml_root_schemanode xml rest
  end.

(** [None] if [parent] or its schema cannot be read *)
Definition xml_find_schema (ctx : ly_ctx) (xml : lyxml_elem)
  (schema_parent : option lys_node) (parent : option ptr) (st : pstate)
  : option (option lys_node) :=
  match schema_parent, parent with
  | Some sp, _ => Some (xml_data_search_schemanode xml (s_child sp))
  | None, None => Some (xml_root_schemanode xml (models ctx))
  | None, Some p =>
      (* parsing some internal node, we start with parent's schema pointer *)
      match heap st !! p with
      | Some pn =>
          match schema pn with
          | Some ps => Some (xml_data_search_schemanode xml (s_child ps))
          | None => None
          end
      | None => None
      end
  end.

(** *** [xml_parse_data]: the insert and value attributes (lines 214-267) *)

(** the negation of the [continue] test of both loops, for the
    attribute called [name] *)
Definition is_yang_attr (name : string) (attr : lyxml_attr) : bool :=
  match a_type attr, a_ns attr with
  | LYXML_ATTR_STD, Some ns =>
      streq (a_name attr) name
      && match ns_value ns with
         | Some v => streq (c_chars v) LY_NSYANG
         | None => false
         end
  | _, _ => false
  end.

(** the first loop; [i] is the C variable, the result is its value
    after the loop or the code of the error that ends the parse *)
Fixpoint xml_check_insert (sch : lys_node) (attrs : list lyxml_attr) (i : Z)
  : LYE + Z :=
  match attrs with
  | [] => inr i
  | attr :: rest =>
      if negb (is_yang_attr "insert" attr) then xml_check_insert sch rest i
      else if negb (has_flag (s_flags sch) LYS_USERORDERED) then inl LYE_INATTR
      else if negb (Z.eqb i 0) then inl LYE_TOOMANY
      else if streq (a_value attr) "first" || streq (a_value attr) "last"
      then xml_check_insert sch rest 1
      else if streq (a_value attr) "before" || streq (a_value attr) "after"
      then xml_check_insert sch rest 2
      else inl LYE_INARG
  end.

(** the second loop *)
Fixpoint xml_check_value (attrs : list lyxml_attr) (i : Z) : LYE + Z :=
  match attrs with
  | [] => inr i
  | attr :: rest =>
      if negb (is_yang_attr "value" attr) then xml_check_value rest i
      else if Z.ltb i 2 then inl LYE_INATTR
      else xml_check_value rest (i + 1)
  end.

(** the whole check: the code given to [LOGVAL] before [return -1], or
    [None] when the element passes *)
Definition xml_check_edit_attrs (sch : lys_node) (xml : lyxml_elem) : option LYE :=
  match xml_check_insert sch (x_attr xml) 0 with
  | inl e => Some e
  | inr i =>
      match xml_check_value (x_attr xml) i with
      | inl e => Some e
      | inr i' =>
          if Z.eqb i' 2 then Some LYE_MISSATTR
          else if Z.gtb i' 3 then Some LYE_TOOMANY
          else None
      end
  end.

(** *** [xml_parse_data]: allocation and link-in (lines 269-304) *)

(** the [switch]: the new node and [havechildren], or [None] for the
    [default] branch *)
Definition xml_alloc_node (sch : lys_node) (st : pstate)
  : option (ptr * bool * pstate) :=
  let p := fresh (dom (heap st)) in
  let st' := set_heap (<[p := zero_node]> (heap st)) st in
  let t := s_nodetype sch in
  if Z.eqb t LYS_CONTAINER || Z.eqb t LYS_LIST || Z.eqb t LYS_NOTIF || Z.eqb t LYS_RPC
  then Some (p, true, st')
  else if Z.eqb t LYS_LEAF || Z.eqb t LYS_LEAFLIST then Some (p, false, st')
  else if Z.eqb t LYS_ANYXML then Some (p, false, st')
  else None.

(** [for (diter = prev; diter->prev != prev; diter = diter->prev);]
    The value of [diter] after the loop; [None] if a pointer on the
    way cannot be followed or the loop does not end within [fuel]
    turns. *)
Fixpoint first_sibling (fuel : nat) (h : gmap positive lyd_node) (prv diter : ptr)
  {struct fuel} : option ptr :=
  match fuel with
  | O => None
  | S fuel' =>
      match h !! diter with
      | None => None
      | Some n =>
          match prev n with
          | None => None
          | Some dp =>
              if Pos.eqb dp prv then Some diter
              else first_sibling fuel' h prv dp
          end
      end
  end.

Definition heap_store (node : ptr) (f : lyd_node -> lyd_node)
  (h : gmap positive lyd_node) : option (gmap positive lyd_node) :=
  match h !! node with
  | Some n => Some (<[node := f n]> h)
  | None => None
  end.

(** lines 290-293; [result] is the new node, the [*result] of the
    source *)
Definition link_parent (parent : option ptr) (result : ptr)
  (h : gmap positive lyd_node) : option (gmap positive lyd_node) :=
  (* result->parent = parent; *)
  h1 ← heap_store result (set_parent parent) h;
  (* if (parent && !parent->child) parent->child = result; *)
  match parent with
  | Some p =>
      pn ← h1 !! p;
      match child pn with
      | None => Some (<[p := set_child (Some result) pn]> h1)
      | Some _ => Some h1
      end
  | None => Some h1
  end.

(** lines 294-303 *)
Definition link_sibling (prv : option ptr) (result : ptr)
  (h : gmap positive lyd_node) : option (gmap positive lyd_node) :=
  match prv with
  | Some pv =>
      (* result->prev = prev; prev->next = result; *)
      h3 ← heap_store result (set_prev (Some pv)) h;
      h4 ← heap_store pv (set_next (Some result)) h3;
      (* fix the "last" pointer *)
      diter ← first_sibling (size h4) h4 pv pv;
      heap_store diter (set_prev (Some result)) h4
  | None =>
      (* result->prev = result; *)
      heap_store result (set_prev (Some result)) h
  end.

(** lines 290-303, on the store *)
Definition link_in (parent prv : option ptr) (result : ptr)
  (h : gmap positive lyd_node) : option (gmap positive lyd_node) :=
  h2 ← link_parent parent result h;
  link_sibling prv result h2.

(** *** [xml_parse_data]: the attributes (lines 338-366) *)

Fixpoint xml_copy_attrs (ctx : ly_ctx) (attrs : list lyxml_attr)
  (acc : list lyd_attr) : list lyd_attr :=
  match attrs with
  | [] => acc
  | a :: rest =>
      match a_type a, a_ns a with
      | LYXML_ATTR_STD, Some ns =>
          match ly_ctx_get_module_by_ns ctx (ns_value ns) with
          | Some m => xml_copy_attrs ctx rest (acc ++ [Lyd_attr m (a_name a) (a_value a)])
          | None => xml_copy_attrs ctx rest acc
          end
      | _, _ => xml_copy_attrs ctx rest acc
      end
  end.

(** *** [xml_parse_data]

    The result is the returned [int], the node left in [*result] and the
    state; [None] when the run cannot go on (a pointer that cannot be
    followed). The XML tree is read only: [lyxml_free] under
    [LYD_OPT_DESTRUCT] and the moves of string ownership are not part of
    the model. *)

(** Modelled from the spec: [lyxml_unlink_elem] is not among the
    sources. The element it unlinks is left without siblings: its
    [next] is NULL when the call returns, so the step
    [child = child->next] of [LY_TREE_FOR (xml->child, child)] ends the
    loop after its first turn, and [first_child] is the first child
    alone, a sibling list of one element. The namespace definitions
    the call copies into the element are not part of the model. *)
Definition xml_anyxml_payload (xml : lyxml_elem) : option lyxml_elem :=
  match x_child xml with
  | Some child =>
      Some (Lyxml_elem (x_name child) (x_ns child) (x_content child) (x_attr child)
                       (x_child child) None)
  | None => None
  end.

(** the labels [error] and [clear] *)
Definition xml_parse_data_error (result : ptr) (st : pstate)
  : option (Z * option ptr * pstate) :=
  Some (-1, None, lyd_free result st).

Definition xml_parse_data_clear (result : ptr) (st : pstate)
  : option (Z * option ptr * pstate) :=
  Some (0, None, lyd_free result st).

Fixpoint xml_parse_data (ctx : ly_ctx) (xml : lyxml_elem)
  (schema_parent : option lys_node) (parent prv : option ptr) (options : Z)
  (st : pstate) {struct xml} : option (Z * option ptr * pstate) :=
  if negb (bool_decide (is_Some (x_ns_value xml))) then
    Some (-1, None, LOGVAL LYE_XML_MISS st)
  else
    (* find schema node *)
    found ← xml_find_schema ctx xml schema_parent parent st;
    match found with
    | None =>
        if has_flag options LYD_OPT_STRICT
           || bool_decide (is_Some (ly_ctx_get_module_by_ns ctx (x_ns_value xml)))
        then Some (-1, None, LOGVAL LYE_INELEM st)
        else Some (0, None, st)
    | Some sch =>
        (* check insert attribute and its values *)
        match (if has_flag options LYD_OPT_EDIT then xml_check_edit_attrs sch xml
               else None) with
        | Some code => Some (-1, None, LOGVAL code st)
        | None =>
            match xml_alloc_node sch st with
            | None => Some (-1, None, LOGINT st)
            | Some (result, havechildren, st1) =>
                h ← link_in parent prv result (heap st1);
                st2 ← store result (set_schema (Some sch)) (set_heap h st1);
                let '(rc, st3) := lyv_data_context result options st2 in
                if negb (Z.eqb rc 0) then xml_parse_data_error result st3
                else
                  (* type specific processing *)
                  typed ←
                    (if nodetype_in sch (Z.lor LYS_LEAF LYS_LEAFLIST) then
                       xml_get_value ctx result xml options st3
                     else if Z.eqb (s_nodetype sch) LYS_ANYXML
                             && negb (has_flag options LYD_OPT_FILTER) then
                       st' ← store result (set_any_value (xml_anyxml_payload xml)) st3;
                       Some (EXIT_SUCCESS, st')
                     else Some (EXIT_SUCCESS, st3));
                  let '(rv, st4) := typed in
                  if negb (Z.eqb rv 0) then xml_parse_data_error result st4
                  else
                    st5 ← store result
                            (fun n => set_attr (xml_copy_attrs ctx (x_attr xml) (attr n)) n)
                            st4;
                    (* process children *)
                    kids ←
                      match x_child xml with
                      | Some c =>
                          if havechildren then
                            (* LY_TREE_FOR_SAFE (xml->child, next, child): the
                               result is r of the call that stopped the loop,
                               0 at its end *)
                            (fix xml_parse_children (child : lyxml_elem)
                               (dlast : option ptr) (st : pstate) {struct child}
                               : option (Z * pstate) :=
                               res ← xml_parse_data ctx child None (Some result) dlast
                                       (if nodetype_in sch (Z.lor LYS_RPC LYS_NOTIF)
                                        then 0 else options) st;
                               let '(r, diter, st') := res in
                               if negb (Z.eqb r 0) then Some (r, st')
                               else
                                 let dlast' :=
                                   match diter with Some d => Some d | None => dlast end in
                                 match x_next child with
                                 | Some nx => xml_parse_children nx dlast' st'
                                 | None => Some (0, st')
                                 end) c None st5
                          else Some (0, st5)
                      | None => Some (0, st5)
                      end;
                    let '(r, st6) := kids in
                    if negb (Z.eqb r 0) then xml_parse_data_error result st6
                    else
                      (* various validation checks *)
                      let '(rc', st7) :=
                        lyv_data_content result options (set_errno LY_SUCCESS st6) in
                      if negb (Z.eqb rc' 0) then
                        match ly_errno st7 with
                        | LY_SUCCESS => xml_parse_data_clear result st7
                        | _ => xml_parse_data_error result st7
                        end
                      else Some (0, Some result, st7)
            end
        end
    end.

(** *** [lyd_parse_xml_] *)

(** [LY_TREE_FOR_SAFE (result, next, iter) lyd_free (iter);] *)
Fixpoint lyd_free_siblings (fuel : nat) (iter : option ptr) (st : pstate)
  {struct fuel} : option pstate :=
  match iter with
  | None => Some st
  | Some p =>
      match fuel with
      | O => None
      | S fuel' =>
          match heap st !! p with
          | None => None
          | Some n => lyd_free_siblings fuel' (next n) (lyd_free p st)
          end
      end
  end.

(** the loop over [root->child], from [xmlelem] on: [r], [result] and
    the state when it stops *)
Fixpoint lyd_parse_xml_loop (ctx : ly_ctx) (parent : option lys_node)
  (xmlelem : lyxml_elem) (options : Z) (result last : option ptr) (st : pstate)
  {struct xmlelem} : option (Z * option ptr * pstate) :=
  res ← xml_parse_data ctx xmlelem parent None last options st;
  let '(r, iter, st') := res in
  if negb (Z.eqb r 0) then Some (r, result, st')
  else
    let last' := match iter with Some i => Some i | None => last end in
    let result' := match result with Some r0 => Some r0 | None => iter end in
    match x_next xmlelem with
    | Some nx => lyd_parse_xml_loop ctx parent nx options result' last' st'
    | None => Some (0, result', st')
    end.

(** the label [cleanup]: the deferrals are freed *)
Definition lyd_parse_cleanup (st : pstate) : pstate :=
  Pstate (heap st) (ly_errno st) (vlog st) [].

Definition lyd_parse_xml_ (ctx : option ly_ctx) (parent : option lys_node)
  (root : option lyxml_elem) (options : Z) (st : pstate)
  : option (option ptr * pstate) :=
  match ctx, root with
  | Some c, Some rt =>
      (* unres = calloc (1, sizeof *unres); *)
      let st0 := Pstate (heap st) (ly_errno st) (vlog st) [] in
      looped ← match x_child rt with
               | Some first => lyd_parse_xml_loop c parent first options None None st0
               | None => Some (0, None, st0)
               end;
      let '(r, result, st1) := looped in
      if negb (Z.eqb r 0) then
        st2 ← lyd_free_siblings (S (size (heap st1))) result st1;
        Some (None, lyd_parse_cleanup st2)
      else
        match result with
        | None => Some (None, lyd_parse_cleanup (LOGERR LY_EVALID st1))
        | Some res =>
            (* check leafrefs and/or instids if any *)
            let '(rr, st2) := resolve_unres_data st1 in
            if negb (Z.eqb rr 0) then
              (* leafref & instid checking failed *)
              st3 ← lyd_free_siblings (S (size (heap st2))) (Some res) st2;
              Some (None, lyd_parse_cleanup st3)
            else Some (Some res, lyd_parse_cleanup st2)
        end
  | _, _ => Some (None, LOGERR LY_EINVAL st)
  end.

Definition lyd_parse_xml (ctx : option ly_ctx) (root : option lyxml_elem)
  (options : Z) (st : pstate) : option (option ptr * pstate) :=
  lyd_parse_xml_ ctx None root options st.

(** [ctx] stands for [rpc->module->ctx]. *)
Definition lyd_parse_output_xml (ctx : ly_ctx) (rpc : option lys_node)
  (root : option lyxml_elem) (options : Z) (st : pstate)
  : option (option ptr * pstate) :=
  match rpc with
  | Some r =>
      if negb (Z.eqb (s_nodetype r) LYS_RPC) then Some (None, LOGERR LY_EINVAL st)
      else lyd_parse_xml_ (Some ctx) (Some r) root options st
  | None => Some (None, LOGERR LY_EINVAL st)
  end.

End Parser.

(** ** The JSON printer ([printer_json.c])

    The printer reads a finished data tree and changes nothing, so its
    input is an inductive value: a [lyd_tree] is a data node together
    with what its [next] and [child] pointers lead to. [prev] and
    [parent] lead backwards; the walk hands them down: [parent] is the
    node above and [before] the siblings in front of the node, nearest
    first. Every sibling list is a ring (the first node's [prev] is the
    last node, whose [next] is NULL), and the walk starts at the first
    sibling. The text given to [ly_print] is the result. *)

Inductive lyd_tree : Type :=
  Lyd_tree (t_schema : lys_node) (t_attr : list lyd_attr)
           (t_next : option lyd_tree) (t_child : option lyd_tree)
           (t_value_str : option string) (t_leafref : option lyd_tree)
           (t_value_type : Z).

Definition t_schema (n : lyd_tree) : lys_node := let (a, _, _, _, _, _, _) := n in a.
Definition t_attr (n : lyd_tree) : list lyd_attr := let (_, a, _, _, _, _, _) := n in a.
Definition t_next (n : lyd_tree) : option lyd_tree :=
  let (_, _, a, _, _, _, _) := n in a.
Definition t_child (n : lyd_tree) : option lyd_tree :=
  let (_, _, _, a, _, _, _) := n in a.
Definition t_value_str (n : lyd_tree) : option string :=
  let (_, _, _, _, a, _, _) := n in a.
Definition t_leafref (n : lyd_tree) : option lyd_tree :=
  let (_, _, _, _, _, a, _) := n in a.
Definition t_value_type (n : lyd_tree) : Z := let (_, _, _, _, _, _, a) := n in a.

(** the characters the format strings escape *)
Definition dq : string := String "034"%char EmptyString.
Definition nl : string := String "010"%char EmptyString.

Fixpoint spaces (n : nat) : string :=
  match n with
  | O => EmptyString
  | S n' => String " "%char (spaces n')
  end.

(** ["%*s"] with [LEVEL, INDENT] *)
Definition INDENT (level : nat) : string := spaces (level * 2).

(** [a->schema == b->schema] *)
Definition same_schema (a b : lyd_tree) : bool :=
  N.eqb (s_addr (t_schema a)) (s_addr (t_schema b)).

(** the module a submodule belongs to, the module itself otherwise *)
Definition main_module (m : lys_module) : lys_module :=
  if m_type m then match m_belongsto m with Some b => b | None => m end else m.

(** Modelled from the spec: [nscmp (node1, node2)] is not among the
    sources; two nodes share a namespace iff their schema modules are
    identical, a submodule standing for the module it belongs to. The
    result is true when the namespaces differ. *)
Definition nscmp (n1 n2 : lyd_tree) : bool :=
  negb (N.eqb (m_addr (main_module (s_module (t_schema n1))))
              (m_addr (main_module (s_module (t_schema n2))))).

(** [!node->parent || nscmp (node, node->parent)] and the name the
    branch assigns to [schema] *)
Definition json_print_ns (parent : option lyd_tree) (node : lyd_tree)
  : option string :=
  if match parent with None => true | Some p => nscmp node p end
  then Some (c_chars (m_name (main_module (s_module (t_schema node)))))
  else None.

Definition node_name (node : lyd_tree) : string := c_chars (s_name (t_schema node)).

(** the member name: ["%s:%s"] or ["%s"], in quotes *)
Definition json_member (sch : option string) (node : lyd_tree) : string :=
  match sch with
  | Some m => dq ++ m ++ ":" ++ node_name node ++ dq
  | None => dq ++ node_name node ++ dq
  end.

(** the same with ["@"] in front *)
Definition json_attr_member (sch : option string) (node : lyd_tree) : string :=
  match sch with
  | Some m => dq ++ "@" ++ m ++ ":" ++ node_name node ++ dq
  | None => dq ++ "@" ++ node_name node ++ dq
  end.

Fixpoint json_print_attrs_from (level : nat) (node : lyd_tree)
  (attrs : list lyd_attr) : string :=
  match attrs with
  | [] => EmptyString
  | a :: rest =>
      INDENT level
      ++ (if negb (N.eqb (m_addr (da_module a)) (m_addr (s_module (t_schema node))))
          then dq ++ c_chars (m_name (da_module a)) ++ ":" ++ da_name a ++ dq
          else dq ++ da_name a ++ dq)
      ++ ":" ++ dq ++ da_value a ++ dq
      ++ (match rest with [] => nl | _ => "," ++ nl end)
      ++ json_print_attrs_from level node rest
  end.

Definition json_print_attrs (level : nat) (node : lyd_tree) : string :=
  json_print_attrs_from level node (t_attr node).

Definition has_attr (node : lyd_tree) : bool :=
  match t_attr node with [] => false | _ => true end.

Definition type_in (v : Z) (l : list Z) : bool := existsb (Z.eqb v) l.

(** the [switch] of [json_print_leaf]; a leafref prints the leaf it
    points to ([value.leafref], which resolution has set) *)
Fixpoint json_print_value (leaf : lyd_tree) {struct leaf} : string :=
  let t := Z.land (t_value_type leaf) LY_DATA_TYPE_MASK in
  if type_in t [LY_TYPE_BINARY; LY_TYPE_STRING; LY_TYPE_BITS; LY_TYPE_ENUM;
                LY_TYPE_IDENT; LY_TYPE_INST]
  then dq ++ match t_value_str leaf with Some s => s | None => EmptyString end ++ dq
  else if type_in t [LY_TYPE_BOOL; LY_TYPE_DEC64; LY_TYPE_INT8; LY_TYPE_INT16;
                     LY_TYPE_INT32; LY_TYPE_INT64; LY_TYPE_UINT8; LY_TYPE_UINT16;
                     LY_TYPE_UINT32; LY_TYPE_UINT64]
  then match t_value_str leaf with Some s => s | None => "null" end
  else if Z.eqb t LY_TYPE_LEAFREF
  then match t_leafref leaf with
       | Some target => json_print_value target
       | None => EmptyString
       end
  else if Z.eqb t LY_TYPE_EMPTY then "[null]"
  else dq ++ "(!error!)" ++ dq.

Definition json_print_leaf (level : nat) (parent : option lyd_tree)
  (node : lyd_tree) (onlyvalue : bool) : string :=
  let sch := json_print_ns parent node in
  (if onlyvalue then EmptyString
   else INDENT level ++ json_member sch node ++ ": ")
  ++ json_print_value node
  ++ (* print attributes as sibling leaf *)
     (if negb onlyvalue && has_attr node then
        "," ++ nl ++ INDENT level ++ json_attr_member sch node ++ ": {" ++ nl
        ++ json_print_attrs (level + 1) node
        ++ INDENT level ++ "}"
      else EmptyString).

Definition json_print_anyxml (level : nat) (parent : option lyd_tree)
  (node : lyd_tree) : string :=
  let sch := json_print_ns parent node in
  INDENT level ++ json_member sch node ++ ": [null]"
  ++ (if has_attr node then
        "," ++ nl ++ INDENT level ++ json_attr_member sch node ++ ": {" ++ nl
        ++ json_print_attrs (level + 1) node
        ++ INDENT level ++ "}"
      else EmptyString).

Section JsonNodes.
(** the forward declaration of [json_print_nodes]; the parent node
    comes with [root] *)
Variable json_print_nodes : nat -> option lyd_tree -> option lyd_tree -> string.

Definition json_print_container (level : nat) (parent : option lyd_tree)
  (node : lyd_tree) : string :=
  INDENT level ++ json_member (json_print_ns parent node) node ++ ": {" ++ nl
  ++ (if has_attr node then
        INDENT (level + 1) ++ dq ++ "@" ++ dq ++ ": {" ++ nl
        ++ json_print_attrs (level + 2) node
        ++ INDENT (level + 1) ++ "}"
        ++ (match t_child node with Some _ => "," ++ nl | None => EmptyString end)
      else EmptyString)
  ++ json_print_nodes (level + 1) (Some node) (t_child node)
  ++ INDENT level ++ "}".

(** one turn of [while (list)], without the comma: the instance [list]
    of the array that started at [node] *)
Definition json_print_instance (level : nat) (parent : option lyd_tree)
  (node : lyd_tree) (is_list : bool) (list : lyd_tree) : string :=
  if is_list then
    (* list print *)
    INDENT (level + 1) ++ "{" ++ nl
    ++ (if has_attr list then
          INDENT (level + 2) ++ dq ++ "@" ++ dq ++ ": {" ++ nl
          ++ json_print_attrs (level + 3) node
          ++ INDENT (level + 2) ++ "}"
          ++ (match t_child list with Some _ => "," ++ nl | None => EmptyString end)
        else EmptyString)
    ++ json_print_nodes (level + 2) (Some list) (t_child list)
    ++ INDENT (level + 1) ++ "}"
  else
    (* leaf-list print *)
    INDENT (level + 1) ++ json_print_leaf (level + 1) parent list true.

(** The turns of [while (list)] after the one for [node], from the
    sibling [list] on: the inner [for] passes the siblings of another
    schema; a sibling of the schema of [node] gets [",\n"] (printed at
    the end of the turn before) and its own turn. *)
Fixpoint json_print_instances (level : nat) (parent : option lyd_tree)
  (node : lyd_tree) (is_list : bool) (list : lyd_tree) {struct list} : string :=
  (if same_schema list node
   then "," ++ nl ++ json_print_instance level parent node is_list list
   else EmptyString)
  ++ match t_next list with
     | Some nx => json_print_instances level parent node is_list nx
     | None => EmptyString
     end.

(** [flag_attrs] after the first loop, from the sibling [list] on *)
Fixpoint json_flag_attrs (node : lyd_tree) (list : lyd_tree) {struct list} : bool :=
  (same_schema list node && has_attr list)
  || match t_next list with
     | Some nx => json_flag_attrs node nx
     | None => false
     end.

(** one turn of the loop over the attributes, without the comma *)
Definition json_print_instance_attrs (level : nat) (list : lyd_tree) : string :=
  if has_attr list then
    INDENT (level + 1) ++ "{ " ++ json_print_attrs 0 list ++ INDENT (level + 1) ++ "}"
  else INDENT (level + 1) ++ "null".

(** the turns of that loop after the one for [node] *)
Fixpoint json_print_instances_attrs (level : nat) (node : lyd_tree)
  (list : lyd_tree) {struct list} : string :=
  (if same_schema list node
   then "," ++ nl ++ json_print_instance_attrs level list
   else EmptyString)
  ++ match t_next list with
     | Some nx => json_print_instances_attrs level node nx
     | None => EmptyString
     end.

(** [!list->child]: the member that follows [parent] in the structure,
    which is [child] for a list and [value_str] for a leaf-list *)
Definition json_flag_empty (node : lyd_tree) (is_list : bool) : bool :=
  if is_list then negb (bool_decide (is_Some (t_child node)))
  else negb (bool_decide (is_Some (t_value_str node))).

Definition json_print_leaf_list (level : nat) (parent : option lyd_tree)
  (node : lyd_tree) (is_list : bool) : string :=
  let sch := json_print_ns parent node in
  INDENT level ++ json_member sch node ++ ":"
  ++ (if json_flag_empty node is_list then
        (* empty, e.g. in case of filter *)
        " null"
      else
        " [" ++ nl
        ++ json_print_instance level parent node is_list node
        ++ match t_next node with
           | Some nx => json_print_instances level parent node is_list nx
           | None => EmptyString
           end
        ++ nl ++ INDENT level ++ "]"
        ++ (* attributes *)
           (if negb is_list
               && ((has_attr node)
                   || match t_next node with
                      | Some nx => json_flag_attrs node nx
                      | None => false
                      end)
            then
              "," ++ nl ++ INDENT level ++ json_attr_member sch node ++ ": [" ++ nl
              ++ json_print_instance_attrs level node
              ++ match t_next node with
                 | Some nx => json_print_instances_attrs level node nx
                 | None => EmptyString
                 end
              ++ nl ++ INDENT level ++ "]"
            else EmptyString)).

(** The loop [for (iter = node->prev; iter->next; iter = iter->prev)]
    of the list and leaf-list case: [iter] runs over the siblings in
    front of [node], nearest first, each of which has a [next] and none
    of which is [node]; from the first sibling it steps to the last,
    whose [next] is NULL, and the loop ends. The result is [iter->next]
    after the loop: true when an earlier instance made it [break]. *)
Fixpoint json_list_printed (node : lyd_tree) (before : list lyd_tree) : bool :=
  match before with
  | [] => false
  | iter :: before' =>
      if same_schema iter node then true
      else json_list_printed node before'
  end.

(** [node->prev->next]: only the first sibling's [prev] has no [next] *)
Definition json_prev_has_next (before : list lyd_tree) : bool :=
  match before with [] => false | _ => true end.

(** what one turn of [LY_TREE_FOR (root, node)] prints *)
Definition json_print_node (level : nat) (parent : option lyd_tree)
  (before : list lyd_tree) (node : lyd_tree) : string :=
  let t := s_nodetype (t_schema node) in
  let comma := if json_prev_has_next before then "," ++ nl else EmptyString in
  if Z.eqb t LYS_RPC || Z.eqb t LYS_NOTIF || Z.eqb t LYS_CONTAINER then
    comma ++ json_print_container level parent node
  else if Z.eqb t LYS_LEAF then
    comma ++ json_print_leaf level parent node false
  else if Z.eqb t LYS_LEAFLIST || Z.eqb t LYS_LIST then
    (* is it already printed? *)
    if json_list_printed node before then EmptyString
    else comma ++ json_print_leaf_list level parent node (Z.eqb t LYS_LIST)
  else if Z.eqb t LYS_ANYXML then
    comma ++ json_print_anyxml level parent node
  else EmptyString.

End JsonNodes.

(** [json_print_nodes] from the non-NULL sibling [node] on *)
Fixpoint json_print_nodes_from (level : nat) (parent : option lyd_tree)
  (before : list lyd_tree) (node : lyd_tree) {struct node} : string :=
  json_print_node
    (fun lvl par root =>
       match root with
       | Some r => json_print_nodes_from lvl par [] r
       | None => nl
       end)
    level parent before node
  ++ match t_next node with
     | Some nx => json_print_nodes_from level parent (node :: before) nx
     | None => nl
     end.

Definition json_print_nodes (level : nat) (parent : option lyd_tree)
  (root : option lyd_tree) : string :=
  match root with
  | Some r => json_print_nodes_from level parent [] r
  | None => nl
  end.

Definition json_print_data (root : option lyd_tree) : string :=
  "{" ++ nl ++ json_print_nodes 1 None root ++ "}" ++ nl.

(** *** The array of a list or leaf-list, as the specification states it *)

(** the siblings from a node on, and after it *)
Fixpoint lyd_siblings_from (n : lyd_tree) {struct n} : list lyd_tree :=
  n :: match t_next n with
       | Some nx => lyd_siblings_from nx
       | None => []
       end.

Definition lyd_siblings_after (n : lyd_tree) : list lyd_tree :=
  match t_next n with
  | Some nx => lyd_siblings_from nx
  | None => []
  end.

(** the instances of the schema of [node]: [node] and every later
    sibling of that schema *)
Definition json_array_instances (node : lyd_tree) : list lyd_tree :=
  node :: List.filter (fun s => same_schema s node) (lyd_siblings_after node).

(** the array of the instances, one element per instance in order *)
Definition json_instance_array (nodes : nat -> option lyd_tree -> option lyd_tree -> string)
  (level : nat) (parent : option lyd_tree) (node : lyd_tree) (is_list : bool) : string :=
  " [" ++ nl
  ++ String.concat ("," ++ nl)
       (List.map (json_print_instance nodes level parent node is_list)
          (json_array_instances node))
  ++ nl ++ INDENT level ++ "]".

(** the parallel array of the attributes: for each instance in order
    an object of its own attributes, or null *)
Definition json_attrs_array (level : nat) (parent : option lyd_tree)
  (node : lyd_tree) : string :=
  "," ++ nl ++ INDENT level ++ json_attr_member (json_print_ns parent node) node
  ++ ": [" ++ nl
  ++ String.concat ("," ++ nl)
       (List.map (json_print_instance_attrs level) (json_array_instances node))
  ++ nl ++ INDENT level ++ "]".

(** the member name and colon in front of the array *)
Definition json_array_head (level : nat) (parent : option lyd_tree)
  (node : lyd_tree) : string :=
  INDENT level ++ json_member (json_print_ns parent node) node ++ ":".

(** list or leaf-list *)
Definition is_list_like (node : lyd_tree) : bool :=
  Z.eqb (s_nodetype (t_schema node)) LYS_LEAFLIST
  || Z.eqb (s_nodetype (t_schema node)) LYS_LIST.

(** ** An instance of the externals and small inputs

    Stand-ins for the functions that are not among the sources, small
    enough to run the parser on concrete documents. *)

(** the position of the first [":"] of a token: prefix and local name *)
Fixpoint split_prefix (s : string) : option (string * string) :=
  match s with
  | EmptyString => None
  | String c rest =>
      if Ascii.eqb c ":"%char then Some (EmptyString, rest)
      else match split_prefix rest with
           | Some (p, l) => Some (String c p, l)
           | None => None
           end
  end.

(** a module of the context by the characters of its namespace *)
Definition find_module_by_ns (ctx : ly_ctx) (ns : string) : option lys_module :=
  fst <$> List.find
            (fun md : lys_module * option lys_node =>
               match m_ns (fst md) with
               | Some n => streq (c_chars n) ns
               | None => false
               end)
            (models ctx).

(** Modelled from the spec: [transform_xml2json] is not among the
    sources; for a token [prefix:local] the prefix is looked up among
    the namespace declarations in scope at the element, the module with
    that namespace URI is found and [module_name:local] is emitted; an
    unknown prefix or a token without prefix fails. The declarations in
    scope are the attributes of type [LYXML_ATTR_NS] of the element. *)
Definition xml2json_token (ctx : ly_ctx) (expr : option string) (xml : lyxml_elem)
  (log : Z) : option string :=
  match expr with
  | None => None
  | Some e =>
      match split_prefix e with
      | None => None
      | Some (pfx, local) =>
          match List.find
                  (fun a => match a_type a with
                            | LYXML_ATTR_NS => streq (a_name a) pfx
                            | LYXML_ATTR_STD => false
                            end)
                  (x_attr xml) with
          | None => None
          | Some decl =>
              match find_module_by_ns ctx (a_value decl) with
              | Some m => Some (c_chars (m_name m) ++ ":" ++ local)
              | None => None
              end
          end
      end
  end.

(** the texts a base accepts, for a few bases *)
Definition base_accepts (text : option string) (type : lys_type) : bool :=
  match text with
  | None => false
  | Some s =>
      if Z.eqb (base type) LY_TYPE_STRING then true
      else if Z.eqb (base type) LY_TYPE_BOOL then streq s "true" || streq s "false"
      else if Z.eqb (base type) LY_TYPE_IDENT then bool_decide (is_Some (split_prefix s))
      else false
  end.

(** a decoder: it stores the text as the value when the base accepts it *)
Definition parse_value_by_base (node : ptr) (type : lys_type) (resolve line : Z)
  (st : pstate) : Z * pstate :=
  match heap st !! node with
  | None => (1, st)
  | Some leaf =>
      if base_accepts (value_str leaf) type then
        (0, set_heap (<[node := Lyd_node (schema leaf) (attr leaf) (next leaf)
                                 (prev leaf) (parent leaf) (child leaf) (value_str leaf)
                                 (Val_string (default EmptyString (value_str leaf)))
                                 (value_type leaf) (any_value leaf)]> (heap st)) st)
      else (1, st)
  end.

(** whether the [parent] pointers lead from [q] up to [p] in one to
    [fuel] steps *)
Fixpoint lyd_below (fuel : nat) (h : gmap positive lyd_node) (p q : ptr) {struct fuel}
  : bool :=
  match fuel with
  | O => false
  | S fuel' =>
      match h !! q with
      | Some n =>
          match parent n with
          | Some up => Pos.eqb up p || lyd_below fuel' h p up
          | None => false
          end
      | None => false
      end
  end.

(** unlinking a node from its siblings and releasing it, with all the
    nodes below it *)
Definition unlink_and_release (p : ptr) (st : pstate) : pstate :=
  let h2 :=
    match heap st !! p with
    | None => heap st
    | Some n =>
        let h1 := match prev n with
                  | Some q =>
                      match heap st !! q with
                      | Some qn =>
                          if bool_decide (next qn = Some p)
                          then <[q := set_next (next n) qn]> (heap st)
                          else heap st
                      | None => heap st
                      end
                  | None => heap st
                  end in
        match next n with
        | Some q =>
            match h1 !! q with
            | Some qn => <[q := set_prev (prev n) qn]> h1
            | None => h1
            end
        | None => h1
        end
    end in
  set_heap (filter (fun kv => lyd_below (size (heap st)) (heap st) p kv.1 = false)
              (delete p h2)) st.

(** the externals with a given outcome of the resolution pass *)
Definition externals_with (resolve : pstate -> Z * pstate) : Externals :=
  {| LYD_OPT_STRICT := 0x01;
     LYD_OPT_DESTRUCT := 0x02;
     LYD_OPT_FILTER := 0x04;
     LYD_OPT_EDIT := 0x08;
     LYD_OPT_GET := 0x10;
     LYD_OPT_GETCONFIG := 0x20;
     LY_NSYANG := "urn:ietf:params:xml:ns:yang:1";
     ly_ctx_get_module_by_ns :=
       fun ctx ns => match ns with
                     | Some v => find_module_by_ns ctx (c_chars v)
                     | None => None
                     end;
     transform_xml2json := xml2json_token;
     lyp_parse_value := parse_value_by_base;
     lyv_data_context := fun _ _ st => (0, st);
     lyv_data_content := fun _ _ st => (0, st);
     lyd_free := unlink_and_release;
     resolve_unres_data := resolve |}.

Definition resolution_ok : Externals := externals_with (fun st => (0, st)).

(** the texts a decoder that leaves instance-identifiers unresolved
    accepts: with [resolve] at 0 any text for an instance-identifier *)
Definition unresolved_accepts (text : option string) (type : lys_type) (resolve : Z)
  : bool :=
  if Z.eqb (base type) LY_TYPE_INST && Z.eqb resolve 0
  then bool_decide (is_Some text)
  else base_accepts text type.

(** a decoder that, with [resolve] at 0, takes the path of an
    instance-identifier as it is and flags the leaf as unresolved, and
    else does what [parse_value_by_base] does *)
Definition parse_value_unresolved (node : ptr) (type : lys_type) (resolve line : Z)
  (st : pstate) : Z * pstate :=
  match heap st !! node with
  | None => (1, st)
  | Some leaf =>
      if Z.eqb (base type) LY_TYPE_INST && Z.eqb resolve 0 then
        if bool_decide (is_Some (value_str leaf)) then
          (0, set_heap (<[node := set_value_type
                                    (Z.lor (value_type leaf) LY_TYPE_INST_UNRES) leaf]>
                          (heap st)) st)
        else (1, st)
      else parse_value_by_base node type resolve line st
  end.

(** the externals with that decoder *)
Definition externals_unresolved : Externals :=
  {| LYD_OPT_STRICT := 0x01;
     LYD_OPT_DESTRUCT := 0x02;
     LYD_OPT_FILTER := 0x04;
     LYD_OPT_EDIT := 0x08;
     LYD_OPT_GET := 0x10;
     LYD_OPT_GETCONFIG := 0x20;
     LY_NSYANG := "urn:ietf:params:xml:ns:yang:1";
     ly_ctx_get_module_by_ns :=
       fun ctx ns => match ns with
                     | Some v => find_module_by_ns ctx (c_chars v)
                     | None => None
                     end;
     transform_xml2json := xml2json_token;
     lyp_parse_value := parse_value_unresolved;
     lyv_data_context := fun _ _ st => (0, st);
     lyv_data_content := fun _ _ st => (0, st);
     lyd_free := unlink_and_release;
     resolve_unres_data := fun st => (0, st) |}.
Definition resolution_fails : Externals := externals_with (fun st => (1, st)).

Definition empty_state : pstate := Pstate ∅ LY_SUCCESS [] [].

(** module [m] with namespace [urn:m] *)
Definition ns_m : cstr := CStr 100 "urn:m".
Definition mod_m : lys_module := Lys_module 1 (CStr 101 "m") false (Some ns_m) None.
Definition no_type : lys_type := Lys_type LY_TYPE_DER [].
Definition string_type : lys_type := Lys_type LY_TYPE_STRING [].
Definition ident_type : lys_type := Lys_type LY_TYPE_IDENT [].
Definition union_ident_string : lys_type :=
  Lys_type LY_TYPE_UNION [ident_type; string_type].

Definition name_v : cstr := CStr 110 "v".
Definition name_x : cstr := CStr 111 "x".
Definition name_l : cstr := CStr 112 "l".
Definition name_k : cstr := CStr 113 "k".
Definition name_c : cstr := CStr 114 "c".

(** [leaf v { type union { type identityref; type string; } }] *)
Definition leaf_v : lys_node :=
  Lys_node 10 name_v 0 mod_m LYS_LEAF union_ident_string None None.
(** [leaf-list x { ordered-by user; type string; }], followed by [v] *)
Definition leaflist_x : lys_node :=
  Lys_node 11 name_x LYS_USERORDERED mod_m LYS_LEAFLIST string_type None (Some leaf_v).
(** [leaf k { type string; }] *)
Definition leaf_k : lys_node :=
  Lys_node 12 name_k 0 mod_m LYS_LEAF string_type None None.
(** [list l { leaf k; }] *)
Definition list_l : lys_node :=
  Lys_node 13 name_l 0 mod_m LYS_LIST no_type (Some leaf_k) None.
(** [grouping g { leaf v; }] then [choice c { leaf-list x; leaf v; }] *)
Definition choice_c : lys_node :=
  Lys_node 14 name_c 0 mod_m LYS_CHOICE no_type (Some leaflist_x) None.
Definition grouping_g : lys_node :=
  Lys_node 15 (CStr 115 "g") 0 mod_m LYS_GROUPING no_type (Some leaf_v) (Some choice_c).

Definition ctx_m : ly_ctx := Ly_ctx [(mod_m, Some leaflist_x)].

Definition xmlns_m : lyxml_ns := Lyxml_ns None (Some ns_m).
Definition xmlns_unknown : lyxml_ns := Lyxml_ns None (Some (CStr 121 "urn:unknown")).

(** [<v xmlns:p="urn:m">p:id1</v>] *)
Definition xml_v_prefixed : lyxml_elem :=
  Lyxml_elem name_v (Some xmlns_m) (Some "p:id1")
             [Lyxml_attr LYXML_ATTR_NS "p" "urn:m" None] None None.
(** [<v>p:id1</v>], no such prefix in scope *)
Definition xml_v_plain : lyxml_elem :=
  Lyxml_elem name_v (Some xmlns_m) (Some "p:id1") [] None None.
(** [<x>a</x>] followed by [<x>b</x>] *)
Definition xml_x_b : lyxml_elem :=
  Lyxml_elem name_x (Some xmlns_m) (Some "b") [] None None.
Definition xml_x_a : lyxml_elem :=
  Lyxml_elem name_x (Some xmlns_m) (Some "a") [] None (Some xml_x_b).
(** an element of a namespace no module has, inside a root element of
    that namespace *)
Definition xml_unknown : lyxml_elem :=
  Lyxml_elem (CStr 122 "u") (Some xmlns_unknown) (Some "1") [] None None.
Definition xml_root_unknown : lyxml_elem :=
  Lyxml_elem (CStr 123 "data") (Some xmlns_unknown) None [] (Some xml_unknown) None.
(** a root element with the two [x] elements *)
Definition xml_root_xs : lyxml_elem :=
  Lyxml_elem (CStr 123 "data") (Some xmlns_m) None [] (Some xml_x_a) None.

(** a store with one node that is its own sibling ring, and a store
    with a new node for the leaf [v] *)
Definition state_one_sibling : pstate :=
  Pstate {[1%positive := set_prev (Some 1%positive) zero_node]} LY_SUCCESS [] [].
Definition state_leaf_v : pstate :=
  Pstate {[1%positive := set_schema (Some leaf_v) zero_node]} LY_SUCCESS [] [].

(** [leaf t { type union { type instance-identifier; type string; } }]
    with the element [<t xmlns:p="urn:m">p:id1</t>], and a store with
    a new node for the leaf *)
Definition inst_type : lys_type := Lys_type LY_TYPE_INST [].
Definition name_t : cstr := CStr 119 "t".
Definition leaf_t : lys_node :=
  Lys_node 20 name_t 0 mod_m LYS_LEAF (Lys_type LY_TYPE_UNION [inst_type; string_type])
           None None.
Definition xml_t_prefixed : lyxml_elem :=
  Lyxml_elem name_t (Some xmlns_m) (Some "p:id1")
             [Lyxml_attr LYXML_ATTR_NS "p" "urn:m" None] None None.
Definition state_leaf_t : pstate :=
  Pstate {[1%positive := set_schema (Some leaf_t) zero_node]} LY_SUCCESS [] [].

(** [<v/>], an element for the leaf [v] without text *)
Definition xml_v_empty : lyxml_elem :=
  Lyxml_elem name_v (Some xmlns_m) None [] None None.
(** [leaf i { type identityref; }], the elements
    [<i xmlns:p="urn:m">p:id1</i>] and [<i/>], and a store with a new
    node for the leaf *)
Definition name_i : cstr := CStr 116 "i".
Definition leaf_i : lys_node :=
  Lys_node 17 name_i 0 mod_m LYS_LEAF ident_type None None.
Definition xml_i_prefixed : lyxml_elem :=
  Lyxml_elem name_i (Some xmlns_m) (Some "p:id1")
             [Lyxml_attr LYXML_ATTR_NS "p" "urn:m" None] None None.
Definition xml_i_empty : lyxml_elem :=
  Lyxml_elem name_i (Some xmlns_m) None [] None None.
Definition state_leaf_i : pstate :=
  Pstate {[1%positive := set_schema (Some leaf_i) zero_node]} LY_SUCCESS [] [].

(** what a run of [xml_get_value] leaves: the returned value, and the
    [value_type] and [value_str] of the leaf *)
Definition leaf_outcome (node : ptr) (run : option (Z * pstate))
  : option (Z * option (Z * option string)) :=
  (fun r : Z * pstate =>
     (r.1, (fun n => (value_type n, value_str n)) <$> heap r.2 !! node)) <$> run.

(** data trees for the printer: two instances of list [l], the first
    without children, the second with the leaf [k]; an instance of [l]
    with an attribute; two instances of leaf-list [x], the second with
    an attribute *)
Definition attr_a : lyd_attr := Lyd_attr mod_m "a" "1".
Definition tree_k : lyd_tree :=
  Lyd_tree leaf_k [] None None (Some "1") None LY_TYPE_STRING.
Definition tree_l_second : lyd_tree :=
  Lyd_tree list_l [] None (Some tree_k) None None 0.
Definition tree_l_empty_first : lyd_tree :=
  Lyd_tree list_l [] (Some tree_l_second) None None None 0.
Definition tree_l_with_attr : lyd_tree :=
  Lyd_tree list_l [attr_a] None (Some tree_k) None None 0.
Definition tree_x_b : lyd_tree :=
  Lyd_tree leaflist_x [attr_a] None None (Some "b") None LY_TYPE_STRING.
Definition tree_x_a : lyd_tree :=
  Lyd_tree leaflist_x [] (Some tree_x_b) None (Some "a") None LY_TYPE_STRING.

(** ** The edit-attribute grammar, as the specification states it *)

Section SpecWords.
Context {E : Externals}.




(** the namespace of the element is present and no module of the
    context has it *)
Definition unknown_namespace (ctx : ly_ctx) (xml : lyxml_elem) : Prop :=
  is_Some (x_ns_value xml)
  /\ (forall md, In md (models ctx) ->
        ptr_eqb_opt (m_ns (fst md)) (x_ns_value xml) = false)
  /\ ly_ctx_get_module_by_ns ctx (x_ns_value xml) = None.

(** What the union rule takes from the decoder [lyp_parse_value]:
    whether it accepts is decided by the schema node of the leaf, the
    text in [value_str], the type and [resolve] (the test [accepts]);
    it leaves the leaf in place with its schema node and its text. An
    accepting call may write [value_type]: above [LY_DATA_TYPE_MASK] it
    may set the flags of an unresolved leafref or instance-identifier
    ([tree_schema.h]), and for a leafref the bits under the mask become
    the type of the target node; for every other type the bits under
    the mask stay as the caller set them. *)
Definition decoder_contract
  (accepts : option lys_node -> option string -> lys_type -> Z -> bool) : Prop :=
  forall (node : ptr) (type : lys_type) (resolve line : Z) (st : pstate)
         (leaf : lyd_node),
    heap st !! node = Some leaf ->
    exists leaf',
      heap (lyp_parse_value node type resolve line st).2 !! node = Some leaf'
      /\ schema leaf' = schema leaf
      /\ value_str leaf' = value_str leaf
      /\ ((lyp_parse_value node type resolve line st).1 = 0
          <-> accepts (schema leaf) (value_str leaf) type resolve = true)
      /\ ((lyp_parse_value node type resolve line st).1 = 0 ->
          base type <> LY_TYPE_LEAFREF ->
          Z.land (value_type leaf') LY_DATA_TYPE_MASK
          = Z.land (value_type leaf) LY_DATA_TYPE_MASK).

(** the leaf [leaf'] at [node] in [st'] is what an accepting call of
    the decoder for [type] left: the call was made on the leaf with
    [value_type] set to the base of [type] and with the text that is
    now in [value_str], it returned 0, and unless [type] is a leafref
    the bits of [value_type] under the mask are still that base *)
Definition accepted_by (node : ptr) (type : lys_type) (resolve line : Z)
  (st' : pstate) (leaf' : lyd_node) : Prop :=
  (exists st_pre leaf_pre,
      heap st_pre !! node = Some leaf_pre
      /\ value_type leaf_pre = base type
      /\ value_str leaf_pre = value_str leaf'
      /\ lyp_parse_value node type resolve line st_pre = (0, st'))
  /\ (base type <> LY_TYPE_LEAFREF ->
      Z.land (value_type leaf') LY_DATA_TYPE_MASK
      = Z.land (base type) LY_DATA_TYPE_MASK).

(** The text a subtype of a union is tried on: for IDENTITYREF and
    INSTANCE-IDENTIFIER the text translated to the JSON form in silent
    mode, for the other bases the text as it is; [None] when the
    translation fails. *)
Definition subtype_text (ctx : ly_ctx) (xml : lyxml_elem) (text : option string)
  (type : lys_type) : option (option string) :=
  if is_path_base (base type) then
    match transform_xml2json ctx text xml 0 with
    | Some json => Some (Some json)
    | None => None
    end
  else Some text.

(** a subtype accepts the text when the translation, if it needs one,
    succeeds and the decoder accepts the result *)
Definition subtype_accepts
  (accepts : option lys_node -> option string -> lys_type -> Z -> bool)
  (ctx : ly_ctx) (xml : lyxml_elem) (sch : option lys_node) (text : option string)
  (resolve : Z) (type : lys_type) : bool :=
  match subtype_text ctx xml text type with
  | Some t => accepts sch t type resolve
  | None => false
  end.

(** the early return of [xml_get_value]: a filter node without text *)
Definition filter_selection (options : Z) (xml : lyxml_elem) : bool :=
  has_flag options LYD_OPT_FILTER && negb (bool_decide (is_Some (x_content xml))).

(** What [tree_data.h] says of [lyd_free]: "Free (and unlink) the
    specified data (sub)tree". The node is released, and so is every
    node below it, that is every node from which the [parent] pointers
    lead to it; nothing is allocated; every other node stays allocated
    and keeps its [parent], and its [next] unless that was the freed
    node. *)
Definition lyd_free_contract : Prop :=
  forall (p : ptr) (st : pstate),
    heap (lyd_free p st) !! p = None
    /\ (forall q, heap st !! q = None -> heap (lyd_free p st) !! q = None)
    /\ (forall q, lyd_below (size (heap st)) (heap st) p q = true ->
          heap (lyd_free p st) !! q = None)
    /\ (forall q n, q <> p -> lyd_below (size (heap st)) (heap st) p q = false ->
          heap st !! q = Some n ->
          exists n', heap (lyd_free p st) !! q = Some n'
                     /\ parent n' = parent n
                     /\ (next n <> Some p -> next n' = next n)).

End SpecWords.

(** ** Sibling rings in the store *)

(** the [next] and [prev] pointers of the node at [p] *)
Definition links (h : gmap positive lyd_node) (p : ptr) : option (option ptr * option ptr) :=
  (fun n => (next n, prev n)) <$> h !! p.

(** [l] lists a sibling list of the store from its first node to its
    last: the nodes are distinct, [next] leads from each node to the
    one after it and is NULL in the last, [prev] leads to the node in
    front and from the first node to the last. *)
Definition sibling_ring (h : gmap positive lyd_node) (l : list ptr) : Prop :=
  NoDup l
  /\ forall (i : nat) (p : ptr),
       l !! i = Some p ->
       links h p = Some (l !! S i, match i with O => last l | S j => l !! j end).

(** the elements of an XML sibling list, from [e] on *)
Fixpoint xml_siblings_from (e : lyxml_elem) {struct e} : list lyxml_elem :=
  e :: match x_next e with
       | Some nx => xml_siblings_from nx
       | None => []
       end.

(** the elements the parser reads at the top level: the children of
    the element given as [root] *)
Definition xml_top_level (root : lyxml_elem) : list lyxml_elem :=
  match x_child root with
  | Some c => xml_siblings_from c
  | None => []
  end.

(** the [next] chain of the store from [first] on *)
Fixpoint next_chain (h : gmap positive lyd_node) (first : option ptr) (l : list ptr)
  {struct l} : Prop :=
  match l with
  | [] => first = None
  | p :: l' =>
      first = Some p
      /\ exists n, h !! p = Some n /\ parent n = None /\ next_chain h (next n) l'
  end.

(** [c] lists a node, then its parent, the parent of that and so on *)
Fixpoint parent_chain (h : gmap positive lyd_node) (c : list ptr) {struct c} : Prop :=
  match c with
  | q :: c' =>
      match c' with
      | up :: _ => (exists n, h !! q = Some n /\ parent n = Some up) /\ parent_chain h c'
      | [] => True
      end
  | [] => True
  end.

(** [q] is a node of the subtree of [p]: it is [p], or the [parent]
    pointers lead from it to [p] *)
Definition in_subtree (h : gmap positive lyd_node) (p q : ptr) : Prop :=
  exists c, head c = Some q /\ last c = Some p /\ parent_chain h c.

(** ** The parser, in the words of its properties *)

(** the schema nodes of a sibling list, from [n] on *)
Fixpoint lys_siblings_from (n : lys_node) {struct n} : list lys_node :=
  n :: match s_next n with
       | Some nx => lys_siblings_from nx
       | None => []
       end.

(** the node types the [switch] of [xml_parse_data] allocates a data
    node for *)
Definition xml_instantiable (sch : lys_node) : bool :=
  type_in (s_nodetype sch)
    [LYS_CONTAINER; LYS_LIST; LYS_NOTIF; LYS_RPC; LYS_LEAF; LYS_LEAFLIST; LYS_ANYXML].

(** the members of a data node that the link-in leaves alone *)
Definition same_payload (n n' : lyd_node) : Prop :=
  schema n' = schema n /\ attr n' = attr n /\ value_str n' = value_str n
  /\ value n' = value n /\ value_type n' = value_type n
  /\ any_value n' = any_value n.

(** two stores that differ in pointers only: the same nodes are
    allocated, each with the same payload *)
Definition same_payloads (h h' : gmap positive lyd_node) : Prop :=
  dom h' = dom h
  /\ forall q n, h !! q = Some n -> exists n', h' !! q = Some n' /\ same_payload n n'.

(** the pointers up and down of a data node *)
Definition same_family (n n' : lyd_node) : Prop :=
  parent n' = parent n /\ child n' = child n.

(** a store with a container instance and a new node *)
Definition heap_parent_and_new : gmap positive lyd_node :=
  <[2%positive := zero_node]> {[1%positive := set_prev (Some 1%positive) zero_node]}.

Section ParserWords.
Context {E : Externals}.

(** what the loop over the attributes (lines 338-366) makes of one XML
    attribute: a data attribute for a standard attribute with a
    namespace that a module of the context has, nothing otherwise *)
Definition xml_data_attr (ctx : ly_ctx) (a : lyxml_attr) : option lyd_attr :=
  match a_type a, a_ns a with
  | LYXML_ATTR_STD, Some ns =>
      (fun m => Lyd_attr m (a_name a) (a_value a))
        <$> ly_ctx_get_module_by_ns ctx (ns_value ns)
  | _, _ => None
  end.

End ParserWords.

(** a context whose module has the choice [c] at the top level, and
    the element [<c xmlns="urn:m"/>] *)
Definition ctx_choice : ly_ctx := Ly_ctx [(mod_m, Some choice_c)].
Definition xml_c : lyxml_elem := Lyxml_elem name_c (Some xmlns_m) None [] None None.
(** an element without a namespace *)
Definition xml_no_ns : lyxml_elem := Lyxml_elem name_v None (Some "1") [] None None.
(** an element of the namespace of [m] that [m] does not define *)
Definition xml_undefined : lyxml_elem :=
  Lyxml_elem (CStr 124 "w") (Some xmlns_m) None [] None None.
(** a root element without children *)
Definition xml_root_empty : lyxml_elem :=
  Lyxml_elem (CStr 123 "data") (Some xmlns_m) None [] None None.
(** a store with a first sibling and a new node *)
Definition heap_two_nodes : gmap positive lyd_node :=
  <[2%positive := zero_node]> (heap state_one_sibling).
(** a store with an instance of the list [l] *)
Definition state_list_l : pstate :=
  Pstate {[1%positive := set_schema (Some list_l) zero_node]} LY_SUCCESS [] [].
(** a root element over the element without a namespace *)
Definition xml_root_no_ns : lyxml_elem :=
  Lyxml_elem (CStr 123 "data") (Some xmlns_m) None [] (Some xml_no_ns) None.
(** a context whose module has the list [l] at the top level, and a
    root element over [<l><k>1</k></l><l><k>2</k></l>] *)
Definition ctx_l : ly_ctx := Ly_ctx [(mod_m, Some list_l)].
Definition xml_k_1 : lyxml_elem :=
  Lyxml_elem name_k (Some xmlns_m) (Some "1") [] None None.
Definition xml_k_2 : lyxml_elem :=
  Lyxml_elem name_k (Some xmlns_m) (Some "2") [] None None.
Definition xml_l_2 : lyxml_elem :=
  Lyxml_elem name_l (Some xmlns_m) None [] (Some xml_k_2) None.
Definition xml_l_1 : lyxml_elem :=
  Lyxml_elem name_l (Some xmlns_m) None [] (Some xml_k_1) (Some xml_l_2).
Definition xml_root_ls : lyxml_elem :=
  Lyxml_elem (CStr 123 "data") (Some xmlns_m) None [] (Some xml_l_1) None.

(** ** The JSON printer, in the words of its properties *)

(** the node types [json_print_nodes] has a case for *)
Definition json_printable (node : lyd_tree) : bool :=
  type_in (s_nodetype (t_schema node))
    [LYS_RPC; LYS_NOTIF; LYS_CONTAINER; LYS_LEAF; LYS_LEAFLIST; LYS_LIST; LYS_ANYXML].

(** the member of the enclosing object that a node stands for, by its
    node type *)
Definition json_print_member
  (nodes : nat -> option lyd_tree -> option lyd_tree -> string)
  (level : nat) (parent : option lyd_tree) (node : lyd_tree) : string :=
  let t := s_nodetype (t_schema node) in
  if Z.eqb t LYS_RPC || Z.eqb t LYS_NOTIF || Z.eqb t LYS_CONTAINER then
    json_print_container nodes level parent node
  else if Z.eqb t LYS_LEAF then json_print_leaf level parent node false
  else if Z.eqb t LYS_LEAFLIST || Z.eqb t LYS_LIST then
    json_print_leaf_list nodes level parent node (Z.eqb t LYS_LIST)
  else json_print_anyxml level parent node.

(** the siblings of [l] that start a member: every node but the list
    and leaf-list instances whose schema occurred before, [before]
    being the siblings in front of [l], nearest first *)
Fixpoint json_first_instances (before l : list lyd_tree) : list lyd_tree :=
  match l with
  | [] => []
  | n :: l' =>
      (if is_list_like n && json_list_printed n before then [] else [n])
      ++ json_first_instances (n :: before) l'
  end.

(** one attribute as a member, without separator *)
Definition json_attr_text (level : nat) (node : lyd_tree) (a : lyd_attr) : string :=
  INDENT level
  ++ (if negb (N.eqb (m_addr (da_module a)) (m_addr (s_module (t_schema node))))
      then dq ++ c_chars (m_name (da_module a)) ++ ":" ++ da_name a ++ dq
      else dq ++ da_name a ++ dq)
  ++ ":" ++ dq ++ da_value a ++ dq.

(** a leaf with the text of an unresolved leafref to a string *)
Definition tree_unresolved : lyd_tree :=
  Lyd_tree leaf_k [] None None (Some "1") None
           (Z.lor LY_TYPE_STRING LY_TYPE_LEAFREF_UNRES).
(** the leaf [k] followed by the two instances of [x] *)
Definition tree_k_then_xs : lyd_tree :=
  Lyd_tree leaf_k [] (Some tree_x_a) None (Some "1") None LY_TYPE_STRING.

(** ** The traversal [LY_TREE_DFS] ([tree_schema.h]) and the namespace
       declarations of the XML printer ([printer_xml.c])

    The macro is used on data nodes, where the test on
    [sizeof (struct lyd_node)] selects the child exception and leaves
    out the augment cases of schema nodes. It climbs through [parent]
    pointers; on a [lyd_tree] the parents of the current element are
    handed down: [above] holds those below the level of [START],
    nearest first, so that [(ELEM)->parent == (START)->parent] exactly
    when [above] is empty. *)

(** [(NEXT) = (ELEM)->child] and the child exception for leafs,
    leaf-lists and anyxml *)
Definition LY_TREE_DFS_child (elem : lyd_tree) : option lyd_tree :=
  if nodetype_in (t_schema elem) (Z.lor LYS_LEAF (Z.lor LYS_LEAFLIST LYS_ANYXML))
  then None else t_child elem.

(** the loop [while (!(NEXT))]: no siblings, go back through parents;
    [None] is the [break] *)
Fixpoint LY_TREE_DFS_parents (above : list lyd_tree)
  : option (lyd_tree * list lyd_tree) :=
  match above with
  | [] => None
  | p :: above' =>
      match t_next p with
      | Some nx => Some (nx, above')
      | None => LY_TREE_DFS_parents above'
      end
  end.

(** [LY_TREE_DFS_END]: the element of the next run with its parents,
    [None] when the loop ends *)
Definition LY_TREE_DFS_END (elem : lyd_tree) (above : list lyd_tree)
  : option (lyd_tree * list lyd_tree) :=
  match LY_TREE_DFS_child elem with
  | Some c => Some (c, elem :: above)
  | None =>
      match t_next elem with
      | Some nx => Some (nx, above)
      | None => LY_TREE_DFS_parents above
      end
  end.

(** the loop from [elem] on, with the block [body] run on an
    accumulator; [None] if it does not end within [fuel] runs *)
Fixpoint LY_TREE_DFS {A : Type} (fuel : nat) (body : A -> lyd_tree -> A)
  (elem : lyd_tree) (above : list lyd_tree) (acc : A) {struct fuel} : option A :=
  match fuel with
  | O => None
  | S fuel' =>
      match LY_TREE_DFS_END elem above with
      | Some (nx, above') => LY_TREE_DFS fuel' body nx above' (body acc elem)
      | None => Some (body acc elem)
      end
  end.

(** the number of nodes that [child] and [next] lead to from [n] on *)
Fixpoint lyd_nodes (n : lyd_tree) {struct n} : nat :=
  S (match t_child n with Some c => lyd_nodes c | None => O end
     + match t_next n with Some nx => lyd_nodes nx | None => O end).

(** one turn of the loops over the attributes in [xml_print_ns]: the
    module of the attribute is put in front of [mlist] unless the list
    has it *)
Definition xml_print_ns_attr (mlist : list lys_module) (a : lyd_attr)
  : list lys_module :=
  if existsb (fun m => N.eqb (m_addr (da_module a)) (m_addr m)) mlist
  then mlist else da_module a :: mlist.

Definition xml_print_ns_attrs (mlist : list lys_module) (node : lyd_tree)
  : list lys_module :=
  fold_left xml_print_ns_attr (t_attr node) mlist.

(** [mlist] of [xml_print_ns] when the printing starts. The [child]
    member that the function reads in an anyxml node is the [value] of
    the node, an XML element; a run that would walk it as data nodes is
    not part of the model ([None]). *)
Definition xml_print_ns_mlist (node : lyd_tree) : option (list lys_module) :=
  let mlist := xml_print_ns_attrs [] node in
  if nodetype_in (t_schema node) (Z.lor LYS_LEAF LYS_LEAFLIST) then Some mlist
  else
    match t_child node with
    | None => Some mlist
    | Some c =>
        if Z.eqb (s_nodetype (t_schema node)) LYS_ANYXML then None
        else LY_TREE_DFS (lyd_nodes c) xml_print_ns_attrs c [] mlist
    end.

Section XmlPrintNs.
(** the text of [" xmlns:%s=\"%s\""] for [module->prefix] and
    [module->ns]; the prefix is a member of [struct lys_module] that
    the record [lys_module] does not carry *)
Variable xmlns_text : lys_module -> string.

Definition xml_print_ns (node : lyd_tree) : option string :=
  (fun mlist => String.concat "" (List.map xmlns_text mlist))
    <$> xml_print_ns_mlist node.

End XmlPrintNs.

(** the nodes the traversal is to visit from [n] on, in its order: the
    node, what is below it, then the siblings after it with what is
    below them *)
Fixpoint lyd_preorder (n : lyd_tree) {struct n} : list lyd_tree :=
  n :: (if nodetype_in (t_schema n) (Z.lor LYS_LEAF (Z.lor LYS_LEAFLIST LYS_ANYXML))
        then []
        else match t_child n with
             | Some c => lyd_preorder c
             | None => []
             end)
    ++ match t_next n with
       | Some nx => lyd_preorder nx
       | None => []
       end.

(** what is left to visit once the element and its later siblings
    are done: for each parent in [above], the siblings after it with
    what is below them *)
Fixpoint lyd_preorder_above (above : list lyd_tree) : list lyd_tree :=
  match above with
  | [] => []
  | p :: above' =>
      match t_next p with
      | Some nx => lyd_preorder nx
      | None => []
      end ++ lyd_preorder_above above'
  end.

(** the nodes whose attributes [xml_print_ns] looks at: the node and,
    unless it is a leaf or a leaf-list, all nodes below it *)
Definition xml_print_ns_scope (node : lyd_tree) : list lyd_tree :=
  node :: (if nodetype_in (t_schema node) (Z.lor LYS_LEAF LYS_LEAFLIST) then []
           else match t_child node with
                | Some c => lyd_preorder c
                | None => []
                end).

(** the node is not an anyxml node with a value *)
Definition xml_print_ns_modelled (node : lyd_tree) : bool :=
  negb (Z.eqb (s_nodetype (t_schema node)) LYS_ANYXML
        && bool_decide (is_Some (t_child node))).

(** a second module, and a container with an attribute of it over the
    two instances of [x] *)
Definition mod_n : lys_module :=
  Lys_module 2 (CStr 130 "n") false (Some (CStr 131 "urn:n")) None.
Definition container_top : lys_node :=
  Lys_node 16 (CStr 132 "top") 0 mod_m LYS_CONTAINER no_type (Some leaflist_x) None.
Definition tree_top : lyd_tree :=
  Lyd_tree container_top [Lyd_attr mod_n "b" "2"] None (Some tree_x_a) None None 0.

(** ** The name column of the schema tree printer ([printer/tree.c],
       the second part of [printer_json.c]) *)

Section TreeNames.
(** [strlen (module->prefix)]; the prefix is a member of
    [struct lys_module] that the record [lys_module] does not carry *)
Variable prefix_len : lys_module -> Z.

(** the value given to [name_len], an [unsigned int] *)
Definition tree_name_len (module : lys_module) (sub : lys_node) : Z :=
  (Z.of_nat (String.length (c_chars (s_name sub)))
   + (if N.eqb (m_addr module) (m_addr (s_module sub)) then 0
      else prefix_len (s_module sub) + 1))
  mod (UINT_MAX + 1).

(** the loop [LY_TREE_FOR (node, sub)] of [get_max_name_len] from the
    non-NULL [sub] on, with the value of [max_name_len] so far *)
Fixpoint get_max_name_len_from (module : lys_module) (sub : lys_node)
  (max_name_len : Z) {struct sub} : Z :=
  let max' :=
    if Z.eqb (s_nodetype sub) LYS_USES then
      let uses_max_name_len :=
        match s_child sub with
        | Some c => get_max_name_len_from module c 0
        | None => 0
        end in
      if Z.gtb uses_max_name_len max_name_len then uses_max_name_len
      else max_name_len
    else if nodetype_in sub
              (Z.lor LYS_CHOICE (Z.lor LYS_CONTAINER (Z.lor LYS_LEAF
                 (Z.lor LYS_LEAFLIST (Z.lor LYS_LIST (Z.lor LYS_ANYXML LYS_CASE))))))
    then
      let name_len := tree_name_len module sub in
      if Z.gtb name_len max_name_len then name_len else max_name_len
    else max_name_len in
  match s_next sub with
  | Some nx => get_max_name_len_from module nx max'
  | None => max'
  end.

Definition get_max_name_len (module : lys_module) (node : option lys_node) : Z :=
  match node with
  | Some n => get_max_name_len_from module n 0
  | None => 0
  end.

End TreeNames.

(** the nodes of a sibling list whose names stand in the column: the
    choices, containers, leafs, leaf-lists, lists, anyxml nodes and
    cases of the list, and for a uses those below it *)
Fixpoint tree_column_from (n : lys_node) {struct n} : list lys_node :=
  (if Z.eqb (s_nodetype n) LYS_USES then
     match s_child n with
     | Some c => tree_column_from c
     | None => []
     end
   else if nodetype_in n
             (Z.lor LYS_CHOICE (Z.lor LYS_CONTAINER (Z.lor LYS_LEAF
                (Z.lor LYS_LEAFLIST (Z.lor LYS_LIST (Z.lor LYS_ANYXML LYS_CASE))))))
   then [n] else [])
  ++ match s_next n with
     | Some nx => tree_column_from nx
     | None => []
     end.

Definition tree_column (node : option lys_node) : list lys_node :=
  match node with
  | Some n => tree_column_from n
  | None => []
  end.

(** ** Sibling rings over a whole parse *)

Section XmlParseChildren.
(** the call that [xml_parse_data] makes for a child behind [dlast] *)
Variable parse : lyxml_elem -> option ptr -> pstate -> option (Z * option ptr * pstate).

(** the loop over the children in [xml_parse_data], from [child] on *)
Fixpoint xml_parse_children (child : lyxml_elem) (dlast : option ptr) (st : pstate)
  {struct child} : option (Z * pstate) :=
  res ← parse child dlast st;
  let '(r, diter, st') := res in
  if negb (Z.eqb r 0) then Some (r, st')
  else
    let dlast' := match diter with Some d => Some d | None => dlast end in
    match x_next child with
    | Some nx => xml_parse_children nx dlast' st'
    | None => Some (0, st')
    end.

End XmlParseChildren.

(** [l] is the sibling list that ends in [prv]; there is no list when
    [prv] is NULL *)
Definition ring_behind (h : gmap positive lyd_node) (prv : option ptr)
  (l : list ptr) : Prop :=
  match prv with
  | Some pv => sibling_ring h l /\ last l = Some pv
  | None => l = []
  end.

(** What a call that ends with 0 does to the rings, from the store [h]
    before it to the store [h'] after it: every node stays allocated;
    outside the sibling list [l] of the call the nodes keep their
    [next] and [prev]; a node [p] left in the result is a new one, and
    the list with [p] at its end is a valid ring; with no node in the
    result no link has changed. *)
Definition ring_step (h : gmap positive lyd_node) (l : list ptr)
  (res : option ptr) (h' : gmap positive lyd_node) : Prop :=
  (forall q, is_Some (h !! q) -> is_Some (h' !! q))
  /\ (forall q, is_Some (h !! q) -> q ∉ l -> links h' q = links h q)
  /\ match res with
     | Some p => h !! p = None /\ sibling_ring h' (l ++ [p])
     | None => forall q, links h' q = links h q
     end.

Section RingWords.
Context {E : Externals}.

(** What the ring theorems take from the rest of the library: the
    decoder, the two validators and the resolution pass leave the
    [next] and [prev] pointers of every node as they are, and with
    them the set of allocated nodes; and the content validation does
    not ask for a node to be dropped silently (a non-zero result with
    [ly_errno] 0, the label [clear]). *)
Definition externals_keep_links : Prop :=
  (forall node type resolve line st q,
      links (heap (lyp_parse_value node type resolve line st).2) q = links (heap st) q)
  /\ (forall node options st q,
        links (heap (lyv_data_context node options st).2) q = links (heap st) q)
  /\ (forall node options st q,
        links (heap (lyv_data_content node options st).2) q = links (heap st) q)
  /\ (forall st q, links (heap (resolve_unres_data st).2) q = links (heap st) q)
  /\ (forall node options st,
        (lyv_data_content node options st).1 <> 0 ->
        ly_errno (lyv_data_content node options st).2 <> LY_SUCCESS).

End RingWords.

(** * Properties *)

(** ** The schema resolver *)

(** induction along the [child] and [next] pointers of a schema node *)
Lemma lys_node_chain_ind (P : lys_node -> Prop) :
  (forall n,
      (forall c, s_child n = Some c -> P c) ->
      (forall m, s_next n = Some m -> P m) -> P n) ->
  forall n, P n.
Proof.
  intros step. fix IH 1.
  intros [a nm fl md nt ty ch nx]. apply step; simpl.
  - intros c Hc. destruct ch as [c'|]; [|discriminate].
    injection Hc as <-. apply IH.
  - intros m Hm. destruct nx as [m'|]; [|discriminate].
    injection Hm as <-. apply IH.
Qed.

Lemma find_app_first {A} (f : A -> bool) (l1 l2 : list A) :
  List.find f (l1 ++ l2)
  = match List.find f l1 with Some x => Some x | None => List.find f l2 end.
Proof.
  induction l1 as [|x l1 IH]; simpl; [reflexivity|].
  destruct (f x); [reflexivity|apply IH].
Qed.

Lemma schema_accepts_test xml n :
  ptr_eqb (s_name n) (x_name xml) && ptr_eqb_opt (m_ns (s_module n)) (x_ns_value xml)
  = schema_accepts xml n.
Proof.
  unfold schema_accepts, ptr_eqb_opt, ptr_eqb.
  destruct (m_ns (s_module n)), (x_ns_value xml); reflexivity.
Qed.

Lemma search_from_is_find xml n :
  xml_data_search_schemanode_from xml n
  = List.find (schema_accepts xml) (data_candidates_from n).
Proof.
  induction n as [n IHc IHn] using lys_node_chain_ind.
  destruct n as [a nm fl md nt ty ch nx]; simpl in *.
  assert (Hnext : match nx with
                  | Some m => xml_data_search_schemanode_from xml m
                  | None => None
                  end
                  = List.find (schema_accepts xml)
                      match nx with
                      | Some m => data_candidates_from m
                      | None => []
                      end).
  { destruct nx as [m|]; [apply IHn; reflexivity|reflexivity]. }
  destruct (Z.eqb nt LYS_GROUPING); [exact Hnext|].
  destruct (nodetype_in _ LYS_TRANSPARENT).
  - rewrite find_app_first.
    destruct ch as [c|]; simpl.
    + rewrite <- (IHc c eq_refl).
      destruct (xml_data_search_schemanode_from xml c); [reflexivity|exact Hnext].
    + exact Hnext.
  - pose proof (schema_accepts_test xml (Lys_node a nm fl md nt ty ch nx)) as Ht.
    cbn [s_name s_module] in Ht. rewrite Ht. cbn [List.find].
    destruct (schema_accepts xml _); [reflexivity|exact Hnext].
Qed.


(** ** The insert and value attributes *)

Section EditAttrs.
Context {E : Externals}.








End EditAttrs.

(** ** Argument checks of the entry points *)

Section EntryPoints.
Context {E : Externals}.

(** C10. [lyd_parse_output_xml] returns NULL with [ly_errno] set to
    [LY_EINVAL] when the schema node is NULL or is not an RPC, and
    [lyd_parse_xml] does so when the context or the root element is
    NULL; in both cases the store of data nodes is left as it was. *)
Theorem parse_entry_points_validate_arguments
  (ctx0 : ly_ctx) (ctx : option ly_ctx) (rpc : option lys_node)
  (root : option lyxml_elem) (options : Z) (st : pstate) :
  ((rpc = None \/ exists r, rpc = Some r /\ s_nodetype r <> LYS_RPC) ->
     exists st',
       lyd_parse_output_xml ctx0 rpc root options st = Some (None, st')
       /\ ly_errno st' = LY_EINVAL /\ heap st' = heap st)
  /\ ((ctx = None \/ root = None) ->
      exists st',
        lyd_parse_xml ctx root options st = Some (None, st')
        /\ ly_errno st' = LY_EINVAL /\ heap st' = heap st).
Proof.
  split.
  - intros [->|(r & -> & Hr)]; exists (LOGERR LY_EINVAL st); simpl.
    + repeat split.
    + destruct (Z.eqb_spec (s_nodetype r) LYS_RPC); [contradiction|].
      repeat split.
  - intros [->| ->]; exists (LOGERR LY_EINVAL st);
      unfold lyd_parse_xml, lyd_parse_xml_.
    + repeat split.
    + destruct ctx; repeat split.
Qed.

End EntryPoints.

(** ** Elements of an unknown namespace *)

(** induction along the [next] pointer of an XML element *)
Lemma lyxml_next_ind (P : lyxml_elem -> Prop) :
  (forall e, (forall nx, x_next e = Some nx -> P nx) -> P e) ->
  forall e, P e.
Proof.
  intros step. fix IH 1.
  intros [nm ns ct at' ch nx]. apply step; simpl.
  intros m Hm. destruct nx as [m'|]; [|discriminate].
  injection Hm as <-. apply IH.
Qed.

Section UnknownNamespace.
Context {E : Externals}.

Lemma xml_root_schemanode_no_module xml list :
  (forall md, In md list -> ptr_eqb_opt (m_ns (fst md)) (x_ns_value xml) = false) ->
  xml_root_schemanode xml list = None.
Proof.
  induction list as [|[m data] rest IH]; intros Hall; simpl; [reflexivity|].
  pose proof (Hall (m, data) (or_introl eq_refl)) as Hm. simpl in Hm.
  rewrite Hm. apply IH. intros md Hin. apply Hall. right. exact Hin.
Qed.

(** in lax mode such an element is skipped: no node, no error *)
Lemma xml_parse_data_skips_unknown ctx xml prv st :
  unknown_namespace ctx xml ->
  xml_parse_data ctx xml None None prv 0 st = Some (0, None, st).
Proof.
  intros (Hns & Hmods & Hget).
  destruct xml as [nm ns ct at' ch nx]. simpl.
  rewrite (bool_decide_eq_true_2 _ Hns). simpl.
  rewrite (xml_root_schemanode_no_module _ _ Hmods). simpl.
  rewrite Hget. reflexivity.
Qed.

Lemma lyd_parse_xml_loop_skips_unknown ctx xmlelem result last st :
  (forall e, In e (xml_siblings_from xmlelem) -> unknown_namespace ctx e) ->
  lyd_parse_xml_loop ctx None xmlelem 0 result last st = Some (0, result, st).
Proof.
  revert result last st.
  induction xmlelem as [e IH] using lyxml_next_ind. intros result last st Hall.
  assert (He : unknown_namespace ctx e).
  { apply Hall. destruct e; simpl. left. reflexivity. }
  assert (Hrest : forall nx, x_next e = Some nx ->
            forall x, In x (xml_siblings_from nx) -> unknown_namespace ctx x).
  { intros nx Hnx x Hx. apply Hall. destruct e as [nm ns ct at' ch nx'].
    simpl in *. subst nx'. right. exact Hx. }
  pose proof (xml_parse_data_skips_unknown ctx e last st He) as Hskip.
  destruct e as [nm ns ct at' ch nx]. simpl in *.
  rewrite Hskip. simpl.
  destruct nx as [nx|].
  - rewrite (IH nx eq_refl) by (apply Hrest; reflexivity).
    destruct result; reflexivity.
  - destruct result; reflexivity.
Qed.

(** C4 (amended). With options = 0, on a document whose top-level
    elements (the children of the element given as root, the only
    elements the function reads) all have a namespace that no loaded
    module has, every element is skipped without a validation error and
    without a node, and [lyd_parse_xml] returns NULL; as no node was
    built it sets [ly_errno] to [LY_EVALID]. *)
Theorem lax_unknown_namespace_returns_null_with_error
  (ctx : ly_ctx) (root : lyxml_elem) (st : pstate) :
  (forall e, In e (xml_top_level root) -> unknown_namespace ctx e) ->
  exists st',
    lyd_parse_xml (Some ctx) (Some root) 0 st = Some (None, st')
    /\ ly_errno st' = LY_EVALID
    /\ vlog st' = vlog st
    /\ heap st' = heap st.
Proof.
  intros Hall. unfold lyd_parse_xml, lyd_parse_xml_, xml_top_level in *.
  destruct (x_child root) as [first|].
  - rewrite lyd_parse_xml_loop_skips_unknown by exact Hall. simpl.
    eexists. repeat split.
  - simpl. eexists. repeat split.
Qed.

End UnknownNamespace.

(** C4, as stated, fails: with options = 0 and a document of a
    namespace that no module has, NULL is returned but the error flag
    is set. *)
Lemma lax_unknown_namespace_sets_error_flag :
  ~ (exists st',
        lyd_parse_xml (E := resolution_ok) (Some ctx_m) (Some xml_root_unknown) 0
          empty_state = Some (None, st')
        /\ ly_errno st' = ly_errno empty_state).
Proof.
  intros (st' & Hrun & Herr). vm_compute in Hrun.
  injection Hrun as <-. discriminate Herr.
Qed.

Lemma lax_unknown_namespace_returns_null_with_error_witness :
  (forall e, In e (xml_top_level xml_root_unknown) ->
     unknown_namespace (E := resolution_ok) ctx_m e)
  /\ exists st',
       lyd_parse_xml (E := resolution_ok) (Some ctx_m) (Some xml_root_unknown) 0
         empty_state = Some (None, st')
       /\ ly_errno st' = LY_EVALID
       /\ vlog st' = vlog empty_state
       /\ heap st' = heap empty_state.
Proof.
  assert (H : forall e, In e (xml_top_level xml_root_unknown) ->
                unknown_namespace (E := resolution_ok) ctx_m e).
  { intros e [<-|[]]. split; [eexists; reflexivity|].
    split; [|reflexivity].
    intros md [<-|[]]. reflexivity. }
  split; [exact H|].
  exact (lax_unknown_namespace_returns_null_with_error
           (E := resolution_ok) ctx_m xml_root_unknown empty_state H).
Defined.

(** ** Sibling rings *)

Lemma length_le_size (h : gmap positive lyd_node) (l : list ptr) :
  NoDup l -> (forall p, p ∈ l -> is_Some (h !! p)) -> (length l <= size h)%nat.
Proof.
  intros Hnd Hall.
  rewrite <- (size_list_to_set (C := gset positive) l Hnd), <- size_dom.
  apply subseteq_size. intros p Hp. apply elem_of_dom, Hall.
  apply elem_of_list_to_set in Hp. exact Hp.
Qed.

Lemma links_insert_same (h : gmap positive lyd_node) p n n' q :
  h !! p = Some n -> next n' = next n -> prev n' = prev n ->
  links (<[p := n']> h) q = links h q.
Proof.
  intros Hp Hn Hv. unfold links.
  destruct (decide (p = q)) as [->|Hne].
  - rewrite lookup_insert_eq, Hp. simpl. congruence.
  - rewrite lookup_insert_ne by exact Hne. reflexivity.
Qed.

Lemma links_insert_ne (h : gmap positive lyd_node) p n q :
  p <> q -> links (<[p := n]> h) q = links h q.
Proof. intros Hne. unfold links. rewrite lookup_insert_ne by exact Hne. reflexivity. Qed.

Lemma links_insert_eq (h : gmap positive lyd_node) p n :
  links (<[p := n]> h) p = Some (next n, prev n).
Proof. unfold links. rewrite lookup_insert_eq. reflexivity. Qed.

Lemma links_is_Some (h : gmap positive lyd_node) p x :
  links h p = Some x -> exists n, h !! p = Some n /\ next n = x.1 /\ prev n = x.2.
Proof.
  unfold links. destruct (h !! p) as [n|]; simpl; [|discriminate].
  intros [= <-]. exists n. repeat split.
Qed.

(** a ring only speaks of the links *)
Lemma sibling_ring_links (h h' : gmap positive lyd_node) l :
  (forall p, p ∈ l -> links h' p = links h p) ->
  sibling_ring h l -> sibling_ring h' l.
Proof.
  intros Hsame [Hnd Hring]. split; [exact Hnd|].
  intros i p Hi. rewrite Hsame by (eapply list_elem_of_lookup_2; exact Hi).
  apply Hring. exact Hi.
Qed.

Lemma sibling_ring_allocated (h : gmap positive lyd_node) l p :
  sibling_ring h l -> p ∈ l -> is_Some (h !! p).
Proof.
  intros [_ Hring] Hp. apply list_elem_of_lookup in Hp as [i Hi].
  apply Hring, links_is_Some in Hi as (n & Hn & _). eauto.
Qed.

(** a ring, in the words of the specification *)
Lemma sibling_ring_spec (h : gmap positive lyd_node) l :
  sibling_ring h l ->
  (forall first, head l = Some first ->
     exists n, h !! first = Some n /\ prev n = last l)
  /\ (forall p, l = [p] -> exists n, h !! p = Some n /\ prev n = Some p)
  /\ (forall p n q, p ∈ l -> h !! p = Some n -> next n = Some q ->
        exists m, h !! q = Some m /\ prev m = Some p).
Proof.
  intros [Hnd Hring]. split; [|split].
  - intros first Hf. rewrite head_lookup in Hf.
    apply Hring, links_is_Some in Hf as (n & Hn & _ & Hp). eauto.
  - intros p ->. pose proof (Hring 0%nat p eq_refl) as H0.
    apply links_is_Some in H0 as (n & Hn & _ & Hp). eauto.
  - intros p n q Hp Hn Hq. apply list_elem_of_lookup in Hp as [i Hi].
    pose proof (Hring i p Hi) as H0.
    apply links_is_Some in H0 as (n' & Hn' & Hnx & _).
    simpl in Hnx. assert (n' = n) as -> by congruence.
    rewrite Hq in Hnx. symmetry in Hnx.
    pose proof (Hring (S i) q Hnx) as H1.
    apply links_is_Some in H1 as (m & Hm & _ & Hpv).
    simpl in Hpv. exists m. split; [exact Hm|congruence].
Qed.

(** the walk back from a node of a ring finds the first node *)
Lemma first_sibling_ring (h : gmap positive lyd_node) l pv :
  NoDup l -> last l = Some pv ->
  (forall (i : nat) p, l !! i = Some p ->
     exists n, h !! p = Some n
               /\ prev n = match i with O => last l | S j => l !! j end) ->
  forall (i : nat) p fuel,
    l !! i = Some p -> (i < fuel)%nat -> first_sibling fuel h pv p = head l.
Proof.
  intros Hnd Hlast Hprev. induction i as [|j IH]; intros p fuel Hi Hfuel.
  - destruct fuel as [|fuel]; [lia|]. simpl.
    destruct (Hprev 0%nat p Hi) as (n & -> & ->). rewrite Hlast, Pos.eqb_refl.
    rewrite head_lookup. symmetry. exact Hi.
  - destruct fuel as [|fuel]; [lia|]. simpl.
    destruct (Hprev (S j) p Hi) as (n & -> & ->).
    destruct (lookup_lt_is_Some_2 l j) as [q Hq].
    { apply lookup_lt_Some in Hi. lia. }
    rewrite Hq. destruct (Pos.eqb_spec q pv) as [->|_].
    + rewrite last_lookup in Hlast.
      pose proof (NoDup_lookup _ _ _ _ Hnd Hq Hlast) as Heq.
      apply lookup_lt_Some in Hi. lia.
    + apply IH; [exact Hq|lia].
Qed.

Lemma link_parent_spec (h : gmap positive lyd_node) parent result nr :
  h !! result = Some nr ->
  match parent with Some p => p <> result /\ is_Some (h !! p) | None => True end ->
  exists h2, link_parent parent result h = Some h2
             /\ (forall q, links h2 q = links h q)
             /\ (forall q, is_Some (h2 !! q) <-> is_Some (h !! q)).
Proof.
  intros Hr Hpar. unfold link_parent, heap_store. rewrite Hr. simpl.
  assert (L1 : forall q, links (<[result := set_parent parent nr]> h) q = links h q).
  { intros q. apply (links_insert_same _ result nr); [exact Hr|reflexivity|reflexivity]. }
  assert (A1 : forall q, is_Some (<[result := set_parent parent nr]> h !! q)
                         <-> is_Some (h !! q)).
  { intros q. rewrite lookup_insert_is_Some. split.
    - intros [<-|[_ H]]; [eauto|exact H].
    - destruct (decide (result = q)); [left|right]; tauto. }
  destruct parent as [p|]; [|eauto].
  destruct Hpar as [Hne [pn Hpn]].
  rewrite lookup_insert_ne by congruence. rewrite Hpn. simpl.
  destruct (child pn); [eauto|].
  eexists. split; [reflexivity|]. split.
  - intros q. rewrite <- L1.
    apply (links_insert_same _ p pn); [|reflexivity|reflexivity].
    rewrite lookup_insert_ne by congruence. exact Hpn.
  - intros q. rewrite <- A1, lookup_insert_is_Some. split.
    + intros [<-|[_ H]]; [|exact H]. rewrite lookup_insert_ne by congruence. eauto.
    + destruct (decide (p = q)); [left|right]; tauto.
Qed.

Lemma link_sibling_first (h : gmap positive lyd_node) result :
  links h result = Some (None, None) ->
  exists h', link_sibling None result h = Some h'
             /\ sibling_ring h' [result]
             /\ (forall q, q <> result -> links h' q = links h q).
Proof.
  intros Hr. apply links_is_Some in Hr as (nr & Hnr & Hnx & _). simpl in Hnx.
  unfold link_sibling, heap_store. rewrite Hnr. eexists. split; [reflexivity|].
  split.
  - split; [apply NoDup_singleton|].
    intros [|i] p Hi; simpl in Hi; [|discriminate].
    injection Hi as <-. rewrite links_insert_eq. simpl. rewrite Hnx. reflexivity.
  - intros q Hq. apply links_insert_ne. congruence.
Qed.

Lemma link_sibling_last (h : gmap positive lyd_node) l pv result :
  sibling_ring h l -> last l = Some pv ->
  links h result = Some (None, None) -> result ∉ l ->
  exists h', link_sibling (Some pv) result h = Some h'
             /\ sibling_ring h' (l ++ [result])
             /\ (forall q, q ∉ l -> q <> result -> links h' q = links h q).
Proof.
  intros [Hnd Hring] Hlast Hr Hnotin.
  apply links_is_Some in Hr as (nr & Hnr & Hnx & _). simpl in Hnx.
  assert (Hk : (0 < length l)%nat).
  { destruct l; [discriminate|simpl; lia]. }
  assert (Hpvi : l !! pred (length l) = Some pv) by (rewrite <- last_lookup; exact Hlast).
  assert (Hpvl : pv ∈ l) by (eapply list_elem_of_lookup_2; exact Hpvi).
  assert (Hpvr : pv <> result) by (intros ->; contradiction).
  pose proof (Hring _ _ Hpvi) as Hpv.
  apply links_is_Some in Hpv as (npv & Hnpv & Hpvn & Hpvp). simpl in Hpvn, Hpvp.
  destruct (lookup_lt_is_Some_2 l 0%nat Hk) as [first Hfirst].
  unfold link_sibling, heap_store. rewrite Hnr. simpl.
  rewrite lookup_insert_ne by congruence. rewrite Hnpv. simpl.
  set (h3 := <[result := set_prev (Some pv) nr]> h).
  set (h4 := <[pv := set_next (Some result) npv]> h3).
  assert (Hh4 : forall p, p ∈ l ->
            h4 !! p = if decide (p = pv) then Some (set_next (Some result) npv)
                      else h !! p).
  { intros p Hp. unfold h4, h3. destruct (decide (p = pv)) as [->|Hne].
    - apply lookup_insert_eq.
    - rewrite lookup_insert_ne by congruence.
      rewrite lookup_insert_ne by (intros ->; contradiction). reflexivity. }
  assert (Hwalk : first_sibling (size h4) h4 pv pv = Some first).
  { rewrite <- Hfirst, <- head_lookup.
    apply (first_sibling_ring h4 l pv Hnd Hlast) with (i := pred (length l));
      [|exact Hpvi|].
    - intros i p Hi.
      destruct (links_is_Some _ _ _ (Hring i p Hi)) as (n & Hn & _ & Hp).
      rewrite Hh4 by (eapply list_elem_of_lookup_2; exact Hi).
      destruct (decide (p = pv)) as [->|_].
      + exists (set_next (Some result) npv). split; [reflexivity|].
        simpl. assert (n = npv) as -> by congruence. exact Hp.
      + exists n. split; [exact Hn|exact Hp].
    - assert (Hlen : (length (l ++ [result])%list <= size h4)%nat).
      { apply length_le_size.
        - apply NoDup_app. split; [exact Hnd|]. split; [|apply NoDup_singleton].
          intros x Hx ->%list_elem_of_singleton. contradiction.
        - intros p [Hp| ->%list_elem_of_singleton]%elem_of_app.
          + rewrite Hh4 by exact Hp. destruct (decide (p = pv)); [eauto|].
            eapply sibling_ring_allocated; [split; eassumption|exact Hp].
          + unfold h4, h3. rewrite lookup_insert_ne by congruence.
            rewrite lookup_insert_eq. eauto. }
      rewrite length_app in Hlen. simpl in Hlen. lia. }
  rewrite Hwalk. simpl.
  assert (Hfl : first ∈ l) by (eapply list_elem_of_lookup_2; exact Hfirst).
  rewrite (Hh4 first Hfl).
  pose proof (Hring _ _ Hfirst) as Hf.
  apply links_is_Some in Hf as (nf & Hnf & Hfn & Hfp). simpl in Hfn, Hfp.
  set (nf4 := if decide (first = pv) then set_next (Some result) npv else nf).
  assert (Hnf4 : (if decide (first = pv) then Some (set_next (Some result) npv)
                  else h !! first) = Some nf4).
  { unfold nf4. destruct (decide (first = pv)); [reflexivity|exact Hnf]. }
  rewrite Hnf4. eexists. split; [reflexivity|]. split.
  - split.
    + apply NoDup_app. split; [exact Hnd|]. split; [|apply NoDup_singleton].
      intros x Hx ->%list_elem_of_singleton. contradiction.
    + intros i p Hi. rewrite last_snoc.
      destruct (decide (i < length l)%nat) as [Hlt|Hge].
      * rewrite lookup_app_l in Hi by exact Hlt.
        assert (Hpl : p ∈ l) by (eapply list_elem_of_lookup_2; exact Hi).
        pose proof (Hring i p Hi) as Hp.
        apply links_is_Some in Hp as (n & Hn & Hpn & Hpp). simpl in Hpn, Hpp.
        assert (Hnext : (l ++ [result])%list !! S i
                        = if decide (p = pv) then Some result else l !! S i).
        { destruct (decide (p = pv)) as [->|Hne].
          - pose proof (NoDup_lookup _ _ _ _ Hnd Hi Hpvi) as ->.
            rewrite lookup_app_r by lia.
            replace (S (pred (length l)) - length l)%nat with 0%nat by lia.
            reflexivity.
          - apply lookup_app_l. destruct (decide (S i < length l)%nat); [assumption|].
            exfalso. apply Hne. assert (i = pred (length l)) as -> by lia.
            congruence. }
        assert (Hprev : match i with O => Some result | S j => (l ++ [result])%list !! j end
                        = if decide (p = first) then Some result
                          else match i with O => last l | S j => l !! j end).
        { destruct i as [|j].
          - assert (p = first) as -> by congruence.
            rewrite decide_True by reflexivity. reflexivity.
          - rewrite decide_False.
            + apply lookup_app_l. lia.
            + intros ->. pose proof (NoDup_lookup _ _ _ _ Hnd Hi Hfirst). lia. }
        rewrite Hnext, Hprev. unfold links.
        destruct (decide (p = first)) as [->|Hnf'].
        -- rewrite lookup_insert_eq. simpl. unfold nf4.
           assert (n = nf) as -> by congruence.
           destruct (decide (first = pv)); simpl; [reflexivity|].
           rewrite Hpn. reflexivity.
        -- rewrite lookup_insert_ne by congruence. rewrite (Hh4 p Hpl).
           destruct (decide (p = pv)) as [->|Hnp]; simpl.
           ++ assert (n = npv) as -> by congruence. rewrite Hpp. reflexivity.
           ++ rewrite Hn. simpl. rewrite Hpn, Hpp. reflexivity.
      * rewrite lookup_app_r in Hi by lia.
        destruct (i - length l)%nat as [|?] eqn:Hd; simpl in Hi; [|discriminate].
        injection Hi as <-. assert (i = length l) as -> by lia.
        rewrite lookup_ge_None_2 by (rewrite length_app; simpl; lia).
        destruct (length l) as [|k] eqn:Hl; [lia|].
        rewrite lookup_app_l by lia. simpl in Hpvi. rewrite Hpvi.
        unfold links. rewrite lookup_insert_ne by (intros ->; contradiction).
        unfold h4, h3. rewrite lookup_insert_ne by congruence.
        rewrite lookup_insert_eq. simpl. rewrite Hnx. reflexivity.
  - intros q Hq Hqr. unfold links.
    rewrite lookup_insert_ne by (intros ->; contradiction).
    unfold h4, h3. rewrite lookup_insert_ne by (intros ->; contradiction).
    rewrite lookup_insert_ne by congruence. reflexivity.
Qed.

Section LinkIn.
Context {E : Externals}.

Lemma xml_alloc_node_fresh sch st result havechildren st1 :
  xml_alloc_node sch st = Some (result, havechildren, st1) ->
  heap st !! result = None /\ heap st1 = <[result := zero_node]> (heap st).
Proof.
  unfold xml_alloc_node. intros H.
  assert (Hf : heap st !! fresh (dom (heap st)) = None).
  { apply not_elem_of_dom, is_fresh. }
  repeat match type of H with
         | (if ?b then _ else _) = _ => destruct b
         end; try discriminate; injection H as <- <- <-; split; auto.
Qed.

(** C7. After the link-in of a newly allocated node behind [prev], the
    last node of a valid sibling ring (or with no [prev], as the only
    sibling), the sibling list with the new node at its end is a valid
    ring, and every other valid ring of the store is still one. In the
    new ring the first sibling's [prev] is the last sibling (the new
    node), a node without siblings has itself as [prev], and for every
    node n with a non-NULL [next], the [prev] of that next node is n. *)
Theorem link_in_keeps_sibling_rings
  (sch : lys_node) (st st1 : pstate) (havechildren : bool)
  (parent prv : option ptr) (result : ptr) (l : list ptr) :
  xml_alloc_node sch st = Some (result, havechildren, st1) ->
  match parent with Some p => is_Some (heap st !! p) | None => True end ->
  match prv with
  | Some pv => sibling_ring (heap st) l /\ last l = Some pv
  | None => l = []
  end ->
  exists h',
    link_in parent prv result (heap st1) = Some h'
    /\ sibling_ring h' (l ++ [result])
    /\ (forall l', sibling_ring (heap st) l' -> (forall p, p ∈ l' -> p ∉ l) ->
          sibling_ring h' l')
    /\ (forall first, head (l ++ [result])%list = Some first ->
          exists n, h' !! first = Some n /\ prev n = Some result)
    /\ (l = [] -> exists n, h' !! result = Some n /\ prev n = Some result)
    /\ (forall p n q, p ∈ (l ++ [result])%list -> h' !! p = Some n ->
          next n = Some q ->
          exists m, h' !! q = Some m /\ prev m = Some p).
Proof.
  intros Halloc Hpar Hprv.
  apply xml_alloc_node_fresh in Halloc as [Hfresh ->].
  set (h := heap st) in *. set (h0 := <[result := zero_node]> h).
  assert (L0 : forall q, q <> result -> links h0 q = links h q).
  { intros q Hq. apply links_insert_ne. congruence. }
  assert (Hnotin : forall l', sibling_ring h l' -> result ∉ l').
  { intros l' Hl' Hin. apply (sibling_ring_allocated _ _ _ Hl') in Hin as [n Hn].
    congruence. }
  destruct (link_parent_spec h0 parent result zero_node) as (h2 & Hh2 & L2 & _).
  { apply lookup_insert_eq. }
  { destruct parent as [p|]; [|exact I]. destruct Hpar as [pn Hpn]. split.
    - intros ->. congruence.
    - unfold h0. rewrite lookup_insert_ne by congruence. eauto. }
  assert (Hr2 : links h2 result = Some (None, None)).
  { rewrite L2. unfold h0. rewrite links_insert_eq. reflexivity. }
  assert (Hrings : exists h',
             link_sibling prv result h2 = Some h'
             /\ sibling_ring h' (l ++ [result])
             /\ (forall q, q ∉ l -> q <> result -> links h' q = links h2 q)).
  { destruct prv as [pv|].
    - destruct Hprv as [Hring Hlast].
      apply link_sibling_last; [|exact Hlast|exact Hr2|apply Hnotin, Hring].
      apply (sibling_ring_links h); [|exact Hring].
      intros p Hp. rewrite L2. apply L0. intros ->.
      exact (Hnotin l Hring Hp).
    - subst l. destruct (link_sibling_first h2 result Hr2) as (h' & H1 & H2 & H3).
      exists h'. split; [exact H1|]. split; [exact H2|].
      intros q _ Hq. apply H3, Hq. }
  destruct Hrings as (h' & Hls & Hnew & Hframe).
  exists h'. unfold link_in. rewrite Hh2. simpl.
  split; [exact Hls|]. split; [exact Hnew|].
  destruct (sibling_ring_spec h' _ Hnew) as (S1 & S2 & S3).
  split; [|split; [|split]].
  - intros l' Hl' Hdisj. apply (sibling_ring_links h); [|exact Hl'].
    intros p Hp.
    assert (Hpr : p <> result) by (intros ->; exact (Hnotin l' Hl' Hp)).
    rewrite Hframe by (auto using Hdisj). rewrite L2. apply L0, Hpr.
  - intros first Hf. destruct (S1 first Hf) as (n & Hn & Hp).
    exists n. split; [exact Hn|]. rewrite Hp. apply last_snoc.
  - intros ->. apply S2. reflexivity.
  - exact S3.
Qed.

End LinkIn.

Lemma link_in_keeps_sibling_rings_witness :
  xml_alloc_node leaflist_x state_one_sibling
  = Some (2%positive, false,
          set_heap (<[2%positive := zero_node]> (heap state_one_sibling))
            state_one_sibling)
  /\ (sibling_ring (heap state_one_sibling) [1%positive]
      /\ last [1%positive] = Some 1%positive)
  /\ exists h',
       link_in None (Some 1%positive) 2%positive
         (<[2%positive := zero_node]> (heap state_one_sibling)) = Some h'
       /\ sibling_ring h' [1%positive; 2%positive].
Proof.
  set (st := state_one_sibling).
  assert (Ha : xml_alloc_node leaflist_x st
               = Some (2%positive, false,
                       set_heap (<[2%positive := zero_node]> (heap st)) st)).
  { vm_compute. reflexivity. }
  assert (Hr : sibling_ring (heap st) [1%positive] /\ last [1%positive] = Some 1%positive).
  { split; [|reflexivity]. split; [apply NoDup_singleton|].
    intros [|i] p Hi; [|discriminate]. injection Hi as <-. reflexivity. }
  split; [exact Ha|]. split; [exact Hr|].
  destruct (link_in_keeps_sibling_rings leaflist_x st _ false
              None (Some 1%positive) 2%positive [1%positive] Ha I Hr)
    as (h' & Hl & Hring & _).
  exists h'. split; [exact Hl|exact Hring].
Defined.

(** ** Failures discard the whole tree *)

(** a node without a parent is below no node *)
Lemma lyd_below_parentless (h : gmap positive lyd_node) fuel p q n :
  h !! q = Some n -> parent n = None -> lyd_below fuel h p q = false.
Proof. intros Hq Hpar. destruct fuel; simpl; [reflexivity|]. rewrite Hq, Hpar. reflexivity. Qed.

Lemma parent_chain_tail (h : gmap positive lyd_node) q c :
  parent_chain h (q :: c) -> parent_chain h c.
Proof. destruct c as [|up c]; simpl; [auto|]. intros [_ H]. exact H. Qed.

Lemma parent_chain_suffix (h : gmap positive lyd_node) a c :
  parent_chain h (a ++ c) -> parent_chain h c.
Proof.
  induction a as [|x a IH]; [auto|]. intros H. apply IH.
  exact (parent_chain_tail h x _ H).
Qed.

(** the chain from a node up to a node without a parent is unique *)
Lemma parent_chain_unique (h : gmap positive lyd_node) c1 :
  forall q c2 p1 p2 n1 n2,
    parent_chain h (q :: c1) -> parent_chain h (q :: c2) ->
    last (q :: c1) = Some p1 -> last (q :: c2) = Some p2 ->
    h !! p1 = Some n1 -> parent n1 = None ->
    h !! p2 = Some n2 -> parent n2 = None ->
    c1 = c2.
Proof.
  induction c1 as [|y1 c1 IH]; intros q [|y2 c2] p1 p2 n1 n2 H1 H2 L1 L2 Hp1 Hn1 Hp2 Hn2.
  - reflexivity.
  - exfalso. injection L1 as <-. destruct H2 as [(n & Hn & Hpar) _]. congruence.
  - exfalso. injection L2 as <-. destruct H1 as [(n & Hn & Hpar) _]. congruence.
  - destruct H1 as [(m1 & Hm1 & Hpar1) H1], H2 as [(m2 & Hm2 & Hpar2) H2].
    assert (y1 = y2) as -> by congruence.
    f_equal. exact (IH y2 c2 p1 p2 n1 n2 H1 H2 L1 L2 Hp1 Hn1 Hp2 Hn2).
Qed.

(** so a chain that ends in a node without a parent passes through no
    node twice *)
Lemma parent_chain_NoDup (h : gmap positive lyd_node) c p n :
  parent_chain h c -> last c = Some p -> h !! p = Some n -> parent n = None ->
  NoDup c.
Proof.
  intros Hc Hl Hp Hn. induction c as [|q c IH]; [constructor|].
  apply NoDup_cons. split.
  - intros Hq. apply list_elem_of_split in Hq as (a & b & Hab).
    assert (Hsuf : parent_chain h (q :: b)).
    { apply (parent_chain_suffix h (q :: a)). simpl. rewrite <- Hab. exact Hc. }
    assert (Hlast : last (q :: b) = Some p).
    { rewrite <- Hl, Hab.
      change (q :: a ++ q :: b)%list with ((q :: a) ++ q :: b)%list.
      rewrite last_app_cons. reflexivity. }
    pose proof (parent_chain_unique h c q b p p n n Hc Hsuf Hl Hlast Hp Hn Hp Hn) as Heq.
    apply (f_equal length) in Hab. rewrite Heq in Hab at 1.
    rewrite length_app in Hab. simpl in Hab. lia.
  - destruct c as [|up c]; [constructor|].
    apply IH; [exact (parent_chain_tail h q _ Hc)|exact Hl].
Qed.

Lemma parent_chain_allocated (h : gmap positive lyd_node) c p n :
  parent_chain h c -> last c = Some p -> h !! p = Some n ->
  forall r, r ∈ c -> is_Some (h !! r).
Proof.
  intros Hc Hl Hp. induction c as [|q c IH]; intros r Hr.
  - apply elem_of_nil in Hr. contradiction.
  - destruct c as [|up c].
    + apply list_elem_of_singleton in Hr as ->. injection Hl as ->. eauto.
    + apply elem_of_cons in Hr as [->|Hr].
      * destruct Hc as [(m & Hm & _) _]. eauto.
      * apply IH; [exact (parent_chain_tail h q _ Hc)|exact Hl|exact Hr].
Qed.

(** a node with a chain of at most [fuel] steps up to [p] is below [p] *)
Lemma parent_chain_below (h : gmap positive lyd_node) p c :
  forall q fuel,
    c <> [] -> parent_chain h (q :: c) -> last (q :: c) = Some p ->
    (length c <= fuel)%nat ->
    lyd_below fuel h p q = true.
Proof.
  induction c as [|up c IH]; intros q fuel Hne Hc Hl Hfuel; [contradiction|].
  destruct fuel as [|fuel]; [simpl in Hfuel; lia|].
  destruct Hc as [(n & Hn & Hpar) Hc]. simpl. rewrite Hn, Hpar.
  destruct c as [|up' c].
  - injection Hl as ->. rewrite Pos.eqb_refl. reflexivity.
  - rewrite (IH up fuel); [apply orb_true_r|discriminate|exact Hc|exact Hl|].
    simpl in Hfuel |- *. lia.
Qed.

(** every node of the subtree of a node without a parent is that node
    or below it *)
Lemma in_subtree_below (h : gmap positive lyd_node) p q n :
  h !! p = Some n -> parent n = None -> in_subtree h p q ->
  q = p \/ lyd_below (size h) h p q = true.
Proof.
  intros Hp Hn (c & Hh & Hl & Hc).
  destruct c as [|q' c]; [discriminate|]. injection Hh as ->.
  destruct c as [|up c]; [left; injection Hl as ->; reflexivity|right].
  apply (parent_chain_below h p (up :: c)); [discriminate|exact Hc|exact Hl|].
  pose proof (parent_chain_NoDup h _ p n Hc Hl Hp Hn) as Hnd.
  pose proof (length_le_size h _ Hnd (parent_chain_allocated h _ p n Hc Hl Hp)) as Hlen.
  simpl in Hlen |- *. lia.
Qed.

(** the chain up to a node without a parent meets no other such node
    and no node below one *)
Lemma parent_chain_apart (h : gmap positive lyd_node) c p n p' n' :
  parent_chain h c -> last c = Some p -> h !! p = Some n -> parent n = None ->
  h !! p' = Some n' -> parent n' = None -> p' <> p ->
  forall r, r ∈ c -> r <> p' /\ forall fuel, lyd_below fuel h p' r = false.
Proof.
  intros Hc Hl Hp Hn Hp' Hn' Hne. induction c as [|q c IH]; intros r Hr.
  - apply elem_of_nil in Hr. contradiction.
  - destruct c as [|up c].
    + apply list_elem_of_singleton in Hr as ->. injection Hl as ->.
      split; [congruence|]. intros fuel. exact (lyd_below_parentless h fuel p' p n Hp Hn).
    + specialize (IH (parent_chain_tail h q _ Hc) Hl).
      apply elem_of_cons in Hr as [->|Hr]; [|exact (IH r Hr)].
      destruct Hc as [(m & Hm & Hpar) _]. split; [congruence|].
      intros [|fuel]; [reflexivity|]. simpl. rewrite Hm, Hpar.
      destruct (IH up) as [Hup Hbelow]; [left|].
      rewrite Hbelow, orb_false_r. apply Pos.eqb_neq. exact Hup.
Qed.

Section Discard.
Context {E : Externals}.

Lemma next_chain_allocated (h : gmap positive lyd_node) l first p :
  next_chain h first l -> p ∈ l -> exists n, h !! p = Some n /\ parent n = None.
Proof.
  revert first. induction l as [|a l IH]; intros first Hc Hp.
  - apply elem_of_nil in Hp. contradiction.
  - destruct Hc as (_ & n & Hn & Hpar & Hrest).
    apply elem_of_cons in Hp as [->|Hp]; [eauto|]. exact (IH _ Hrest Hp).
Qed.

Lemma next_chain_head (h : gmap positive lyd_node) l first :
  next_chain h first l -> first = head l.
Proof. destruct l; simpl; [tauto|]. intros [-> _]. reflexivity. Qed.

(** freeing a node leaves a chain of other top-level nodes in place *)
Lemma next_chain_after_free p st l first :
  lyd_free_contract -> p ∉ l -> next_chain (heap st) first l ->
  next_chain (heap (lyd_free p st)) first l.
Proof.
  intros Hfree. revert first. induction l as [|q l IH]; intros first Hp Hc.
  - exact Hc.
  - destruct Hc as (-> & n & Hn & Hpar & Hrest). split; [reflexivity|].
    apply not_elem_of_cons in Hp as [Hpq Hpl].
    destruct (Hfree p st) as (_ & _ & _ & Hkeep).
    destruct (Hkeep q n) as (n' & Hn' & Hpar' & Hnext'); auto.
    { exact (lyd_below_parentless _ _ p q n Hn Hpar). }
    exists n'. split; [exact Hn'|]. split; [congruence|].
    rewrite Hnext'; [apply IH; assumption|].
    rewrite (next_chain_head _ _ _ Hrest). destruct l as [|q' l']; [discriminate|].
    simpl. intros [= ->]. apply Hpl. left.
Qed.

(** freeing a top-level node leaves the subtree of another one in
    place *)
Lemma in_subtree_after_free p st np p' np' q :
  lyd_free_contract ->
  heap st !! p = Some np -> parent np = None ->
  heap st !! p' = Some np' -> parent np' = None -> p <> p' ->
  in_subtree (heap st) p' q -> in_subtree (heap (lyd_free p st)) p' q.
Proof.
  intros Hfree Hp Hnp Hp' Hnp' Hne (c & Hh & Hl & Hc).
  exists c. split; [exact Hh|]. split; [exact Hl|].
  pose proof (parent_chain_apart (heap st) c p' np' p np Hc Hl Hp' Hnp' Hp Hnp Hne)
    as Hapart.
  destruct (Hfree p st) as (_ & _ & _ & Hkeep).
  clear Hh Hl. induction c as [|r c IH]; [exact I|].
  destruct c as [|up c]; [exact I|].
  destruct Hc as [(m & Hm & Hpar) Hc]. split.
  - destruct (Hapart r) as [Hr Hbelow]; [left|].
    destruct (Hkeep r m Hr (Hbelow _) Hm) as (m' & Hm' & Hpar' & _).
    exists m'. split; [exact Hm'|congruence].
  - apply IH; [exact Hc|]. intros r' Hr'. apply Hapart. right. exact Hr'.
Qed.

Lemma lyd_free_siblings_chain l :
  lyd_free_contract ->
  forall first st fuel,
    NoDup l -> next_chain (heap st) first l -> (length l <= fuel)%nat ->
    exists st',
      lyd_free_siblings fuel first st = Some st'
      /\ (forall p q, p ∈ l -> in_subtree (heap st) p q -> heap st' !! q = None)
      /\ (forall q, heap st !! q = None -> heap st' !! q = None).
Proof.
  intros Hfree. induction l as [|p l IH]; intros first st fuel Hnd Hc Hfuel.
  - simpl in Hc. subst first. exists st. destruct fuel; simpl.
    + split; [reflexivity|]. split; [intros p q Hp; inversion Hp|auto].
    + split; [reflexivity|]. split; [intros p q Hp; inversion Hp|auto].
  - pose proof Hc as (-> & n & Hn & Hpar & Hrest).
    destruct fuel as [|fuel]; [simpl in Hfuel; lia|]. simpl. rewrite Hn.
    apply NoDup_cons in Hnd as [Hp Hnd].
    destruct (IH (next n) (lyd_free p st) fuel Hnd) as (st' & Hrun & Hgone & Hmono).
    { apply next_chain_after_free; assumption. }
    { simpl in Hfuel. lia. }
    destruct (Hfree p st) as (Hp1 & Hp2 & Hp3 & _).
    exists st'. split; [exact Hrun|]. split.
    + intros p0 q [->|Hp0]%elem_of_cons Hq.
      * apply Hmono.
        destruct (in_subtree_below (heap st) p q n Hn Hpar Hq) as [->|Hbelow];
          [exact Hp1|exact (Hp3 q Hbelow)].
      * destruct (next_chain_allocated _ _ _ p0 Hrest Hp0) as (n0 & Hn0 & Hpar0).
        apply (Hgone p0 q Hp0).
        apply (in_subtree_after_free p st n p0 n0 q Hfree Hn Hpar Hn0 Hpar0); [|exact Hq].
        intros ->. contradiction.
    + intros q Hq. apply Hmono. apply Hp2. exact Hq.
Qed.

Lemma lyd_free_siblings_top st result l :
  lyd_free_contract -> NoDup l -> next_chain (heap st) result l ->
  exists st',
    lyd_free_siblings (S (size (heap st))) result st = Some st'
    /\ (forall p q, p ∈ l -> in_subtree (heap st) p q -> heap st' !! q = None).
Proof.
  intros Hfree Hnd Hc.
  destruct (lyd_free_siblings_chain l Hfree result st (S (size (heap st))) Hnd Hc)
    as (st' & Hrun & Hgone & _).
  - pose proof (length_le_size (heap st) l Hnd) as Hlen.
    assert (Hall : forall p, p ∈ l -> is_Some (heap st !! p)).
    { intros p Hp. destruct (next_chain_allocated _ _ _ p Hc Hp) as (n & Hn & _). eauto. }
    specialize (Hlen Hall). lia.
  - eauto.
Qed.

(** C6. When the top-level document is built ([r] is 0 and [result] is
    not NULL) and the resolution of the deferred entries fails,
    [lyd_parse_xml_] returns NULL and no node of the tree is left: with
    [l] the top-level nodes, from [result] along [next], every node of
    the subtree of one of them, that is every node from which the
    [parent] pointers lead to it, is released. The same happens when an
    element fails while the tree is built; a node is only returned when
    neither failed. *)
Theorem failed_resolution_discards_tree
  (ctx : ly_ctx) (parent : option lys_node) (root first : lyxml_elem)
  (options : Z) (st st1 : pstate) (r : Z) (result : option ptr) (l : list ptr) :
  lyd_free_contract ->
  x_child root = Some first ->
  lyd_parse_xml_loop ctx parent first options None None
    (Pstate (heap st) (ly_errno st) (vlog st) []) = Some (r, result, st1) ->
  (r = 0 -> is_Some result /\ (resolve_unres_data st1).1 <> 0) ->
  NoDup l ->
  next_chain (heap (if Z.eqb r 0 then (resolve_unres_data st1).2 else st1)) result l ->
  exists st',
    lyd_parse_xml_ (Some ctx) parent (Some root) options st = Some (None, st')
    /\ forall p q,
         p ∈ l ->
         in_subtree (heap (if Z.eqb r 0 then (resolve_unres_data st1).2 else st1)) p q ->
         heap st' !! q = None.
Proof.
  intros Hfree Hchild Hloop Hfail Hnd Hc.
  unfold lyd_parse_xml_. rewrite Hchild, Hloop. cbn [mbind option_bind].
  destruct (Z.eqb_spec r 0) as [->|Hr]; cbn [negb].
  - destruct (Hfail eq_refl) as [[res ->] Hrr].
    destruct (resolve_unres_data st1) as [rr st2]. cbn [fst snd] in *.
    destruct (Z.eqb_spec rr 0) as [->|_]; [contradiction|]. cbn [negb].
    destruct (lyd_free_siblings_top st2 (Some res) l Hfree Hnd Hc) as (st3 & Hrun & Hgone).
    rewrite Hrun. cbn [mbind option_bind].
    eexists. split; [reflexivity|exact Hgone].
  - destruct (lyd_free_siblings_top st1 result l Hfree Hnd Hc) as (st3 & Hrun & Hgone).
    rewrite Hrun. cbn [mbind option_bind].
    eexists. split; [reflexivity|exact Hgone].
Qed.

(** a node is returned only when every element was built and the
    resolution succeeded *)
Lemma lyd_parse_xml_returns_complete_tree ctx parent root options st p st' :
  lyd_parse_xml_ ctx parent root options st = Some (Some p, st') ->
  exists c rt first st1,
    ctx = Some c /\ root = Some rt /\ x_child rt = Some first
    /\ lyd_parse_xml_loop c parent first options None None
         (Pstate (heap st) (ly_errno st) (vlog st) []) = Some (0, Some p, st1)
    /\ (resolve_unres_data st1).1 = 0.
Proof.
  unfold lyd_parse_xml_. destruct ctx as [c|], root as [rt|]; try discriminate.
  destruct (x_child rt) as [first|] eqn:Hchild; cbn [mbind option_bind];
    [|discriminate].
  destruct (lyd_parse_xml_loop _ _ _ _ _ _ _) as [[[r result] st1]|] eqn:Hloop;
    cbn [mbind option_bind]; [|discriminate].
  destruct (Z.eqb_spec r 0) as [->|_]; cbn [negb].
  - destruct result as [res|]; [|discriminate].
    destruct (resolve_unres_data st1) as [rr st2] eqn:Hres.
    destruct (Z.eqb_spec rr 0) as [->|_]; cbn [negb].
    + intros [= <- <-]. exists c, rt, first, st1. rewrite Hres. repeat split; assumption.
    + destruct (lyd_free_siblings _ _ _); discriminate.
  - destruct (lyd_free_siblings _ _ _); discriminate.
Qed.

End Discard.

(** the stand-in for [lyd_free] meets the contract *)
Lemma unlink_and_release_contract resolve :
  @lyd_free_contract (externals_with resolve).
Proof.
  intros p st. simpl. unfold unlink_and_release.
  set (h2 := match heap st !! p with
             | Some n => _
             | None => heap st
             end).
  assert (F : forall q,
             (heap st !! q = None -> h2 !! q = None)
             /\ (forall nq, heap st !! q = Some nq ->
                   exists nq', h2 !! q = Some nq'
                               /\ parent nq' = parent nq
                               /\ (next nq <> Some p -> next nq' = next nq))).
  { intros q. unfold h2. destruct (heap st !! p) as [n|]; [|eauto].
    set (h1 := match prev n with
               | Some q0 => _
               | None => heap st
               end).
    assert (H1 : (heap st !! q = None -> h1 !! q = None)
                 /\ (forall nq, heap st !! q = Some nq ->
                       exists nq', h1 !! q = Some nq'
                                   /\ parent nq' = parent nq
                                   /\ (next nq <> Some p -> next nq' = next nq))).
    { unfold h1. destruct (prev n) as [q0|]; [|eauto].
      destruct (heap st !! q0) as [qn|] eqn:Hq0; [|eauto].
      destruct (bool_decide_reflect (next qn = Some p)) as [Hnx|_]; [|eauto].
      destruct (decide (q0 = q)) as [->|Hne].
      - rewrite lookup_insert_eq. split; [congruence|].
        intros nq Hq. assert (nq = qn) as -> by congruence.
        eexists. split; [reflexivity|]. split; [reflexivity|]. intros H. contradiction.
      - rewrite lookup_insert_ne by exact Hne. eauto. }
    assert (H2 : forall h0 : gmap positive lyd_node,
               (match next n with
                | Some q0 =>
                    match h1 !! q0 with
                    | Some qn => <[q0 := set_prev (prev n) qn]> h1
                    | None => h1
                    end
                | None => h1
                end = h0) ->
               (h1 !! q = None -> h0 !! q = None)
               /\ (forall nq, h1 !! q = Some nq ->
                     exists nq', h0 !! q = Some nq'
                                 /\ parent nq' = parent nq /\ next nq' = next nq)).
    { intros h0 <-. destruct (next n) as [q0|]; [|eauto].
      destruct (h1 !! q0) as [qn|] eqn:Hq0; [|eauto].
      destruct (decide (q0 = q)) as [->|Hne].
      - rewrite lookup_insert_eq. split; [congruence|].
        intros nq Hnq. assert (nq = qn) as -> by congruence. eauto.
      - rewrite lookup_insert_ne by exact Hne. eauto. }
    destruct (H2 _ eq_refl) as [K1 K2]. destruct H1 as [J1 J2]. split.
    - intros Hq. apply K1, J1, Hq.
    - intros nq Hq. destruct (J2 nq Hq) as (n1 & Hn1 & Hpar1 & Hnx1).
      destruct (K2 n1 Hn1) as (n2 & Hn2 & Hpar2 & Hnx2).
      exists n2. split; [exact Hn2|]. split; [congruence|].
      intros Hnx. rewrite Hnx2. apply Hnx1, Hnx. }
  clearbody h2. cbn [heap set_heap]. split; [|split; [|split]].
  - apply map_lookup_filter_None. left. apply lookup_delete_eq.
  - intros q Hq. apply map_lookup_filter_None. left.
    destruct (decide (p = q)) as [->|Hne]; [apply lookup_delete_eq|].
    rewrite lookup_delete_ne by exact Hne. apply F, Hq.
  - intros q Hq. apply map_lookup_filter_None. right.
    intros x _. simpl. rewrite Hq. discriminate.
  - intros q nq Hqp Hbelow Hq.
    destruct (F q) as [_ K]. destruct (K nq Hq) as (nq' & Hq' & Hpar' & Hnx').
    exists nq'. split; [|split; assumption].
    apply map_lookup_filter_Some. split.
    + rewrite lookup_delete_ne by congruence. exact Hq'.
    + simpl. exact Hbelow.
Qed.

Lemma failed_resolution_discards_tree_witness :
  exists st1,
    lyd_parse_xml_loop (E := resolution_fails) ctx_l None xml_l_1 0 None None
      (Pstate (heap empty_state) (ly_errno empty_state) (vlog empty_state) [])
    = Some (0, Some 1%positive, st1)
    /\ (@resolve_unres_data resolution_fails st1).1 <> 0
    /\ next_chain (heap st1) (Some 1%positive) [1%positive; 3%positive]
    /\ in_subtree (heap st1) 1%positive 2%positive
    /\ in_subtree (heap st1) 3%positive 4%positive
    /\ size (heap st1) = 4%nat
    /\ exists st',
         lyd_parse_xml_ (E := resolution_fails) (Some ctx_l) None (Some xml_root_ls) 0
           empty_state = Some (None, st')
         /\ forall q, q ∈ [1%positive; 2%positive; 3%positive; 4%positive] ->
                      heap st' !! q = None.
Proof.
  destruct (lyd_parse_xml_loop (E := resolution_fails) ctx_l None xml_l_1 0 None None
              (Pstate (heap empty_state) (ly_errno empty_state) (vlog empty_state) []))
    as [[[r result] st1]|] eqn:Hloop; [|vm_compute in Hloop; discriminate].
  assert (Hr : r = 0 /\ result = Some 1%positive).
  { vm_compute in Hloop. injection Hloop as <- <- _. split; reflexivity. }
  destruct Hr as [-> ->].
  assert (Hchain : next_chain (heap st1) (Some 1%positive) [1%positive; 3%positive]).
  { vm_compute in Hloop. injection Hloop as <-.
    simpl. split; [reflexivity|]. eexists. split; [reflexivity|].
    split; [reflexivity|]. split; [reflexivity|]. eexists.
    split; [reflexivity|]. split; reflexivity. }
  assert (Hsub1 : forall q, q = 1%positive \/ q = 2%positive ->
                            in_subtree (heap st1) 1%positive q).
  { vm_compute in Hloop. injection Hloop as <-. intros q [-> | ->].
    - exists [1%positive]. repeat split.
    - exists [2%positive; 1%positive]. split; [reflexivity|]. split; [reflexivity|].
      split; [|exact I]. eexists. split; reflexivity. }
  assert (Hsub3 : forall q, q = 3%positive \/ q = 4%positive ->
                            in_subtree (heap st1) 3%positive q).
  { vm_compute in Hloop. injection Hloop as <-. intros q [-> | ->].
    - exists [3%positive]. repeat split.
    - exists [4%positive; 3%positive]. split; [reflexivity|]. split; [reflexivity|].
      split; [|exact I]. eexists. split; reflexivity. }
  assert (Hsize : size (heap st1) = 4%nat).
  { vm_compute in Hloop. injection Hloop as <-. vm_compute. reflexivity. }
  assert (Hnd : NoDup [1%positive; 3%positive]).
  { apply NoDup_cons. split; [|apply NoDup_singleton].
    intros H%list_elem_of_singleton. discriminate. }
  exists st1. split; [reflexivity|].
  split; [simpl; discriminate|]. split; [exact Hchain|].
  split; [apply Hsub1; right; reflexivity|].
  split; [apply Hsub3; right; reflexivity|]. split; [exact Hsize|].
  destruct (failed_resolution_discards_tree (E := resolution_fails) ctx_l None
              xml_root_ls xml_l_1 0 empty_state st1 0 (Some 1%positive)
              [1%positive; 3%positive]
              (unlink_and_release_contract _) eq_refl Hloop) as (st' & Hrun & Hgone).
  - intros _. split; [eauto|simpl; discriminate].
  - exact Hnd.
  - exact Hchain.
  - exists st'. split; [exact Hrun|]. intros q Hq.
    change (heap (if Z.eqb 0 0 then (@resolve_unres_data resolution_fails st1).2 else st1))
      with (heap st1) in Hgone.
    repeat (apply elem_of_cons in Hq as [->|Hq]).
    + apply (Hgone 1%positive); [left|apply Hsub1; left; reflexivity].
    + apply (Hgone 1%positive); [left|apply Hsub1; right; reflexivity].
    + apply (Hgone 3%positive); [right; left|apply Hsub3; left; reflexivity].
    + apply (Hgone 3%positive); [right; left|apply Hsub3; right; reflexivity].
    + apply elem_of_nil in Hq. contradiction.
Defined.

(** ** Decoding the value of a leaf *)

Section Values.
Context {E : Externals}.
Variable accepts : option lys_node -> option string -> lys_type -> Z -> bool.
Hypothesis decoder : decoder_contract accepts.

(** one decoder call, by cases of its verdict *)
Lemma decoder_call node type resolve line st leaf :
  heap st !! node = Some leaf ->
  exists r st' leaf',
    lyp_parse_value node type resolve line st = (r, st')
    /\ heap st' !! node = Some leaf'
    /\ schema leaf' = schema leaf
    /\ value_str leaf' = value_str leaf
    /\ (Z.eqb r 0 = accepts (schema leaf) (value_str leaf) type resolve)
    /\ (r = 0 -> base type <> LY_TYPE_LEAFREF ->
        Z.land (value_type leaf') LY_DATA_TYPE_MASK
        = Z.land (value_type leaf) LY_DATA_TYPE_MASK).
Proof.
  intros Hleaf.
  destruct (decoder node type resolve line st leaf Hleaf)
    as (leaf' & H1 & H2 & H3 & H4 & H5).
  destruct (lyp_parse_value node type resolve line st) as [r st'] eqn:Hcall.
  simpl in *. exists r, st', leaf'. repeat split; try assumption.
  destruct (Z.eqb_spec r 0) as [Hr|Hr].
  - symmetry. apply H4, Hr.
  - destruct (accepts _ _ _ _) eqn:Ha; [|reflexivity].
    exfalso. apply Hr, H4. reflexivity.
Qed.

(** the two bases that are stored in the JSON form are not LEAFREF *)
Lemma is_path_base_not_leafref b : is_path_base b = true -> b <> LY_TYPE_LEAFREF.
Proof. intros H ->. discriminate H. Qed.

(** the union loop: where it stops and what it leaves in the leaf *)
Lemma xml_get_value_union_spec ctx node xml resolve sch text types :
  forall st leaf,
    heap st !! node = Some leaf -> schema leaf = sch -> value_str leaf = text ->
    exists stop st' leaf',
      xml_get_value_union ctx node xml resolve types st = Some (stop, st')
      /\ heap st' !! node = Some leaf'
      /\ match stop with
         | Some type =>
             exists pre post,
               types = (pre ++ type :: post)%list
               /\ Forall (fun t => subtype_accepts accepts ctx xml sch text resolve t
                                    = false) pre
               /\ subtype_accepts accepts ctx xml sch text resolve type = true
               /\ accepted_by node type resolve UINT_MAX st' leaf'
               /\ subtype_text ctx xml text type = Some (value_str leaf')
         | None =>
             Forall (fun t => subtype_accepts accepts ctx xml sch text resolve t
                              = false) types
         end.
Proof.
  induction types as [|type rest IH]; intros st leaf Hleaf Hsch Htext.
  - simpl. exists None, st, leaf. repeat split; [exact Hleaf|constructor].
  - cbn [xml_get_value_union]. rewrite Hleaf. cbv zeta.
    assert (Hcons : forall st1 leaf1,
              heap st1 !! node = Some leaf1 -> schema leaf1 = sch ->
              value_str leaf1 = text ->
              subtype_accepts accepts ctx xml sch text resolve type = false ->
              exists stop st' leaf',
                xml_get_value_union ctx node xml resolve rest st1 = Some (stop, st')
                /\ heap st' !! node = Some leaf'
                /\ match stop with
                   | Some type0 =>
                       exists pre post,
                         (type :: rest = pre ++ type0 :: post)%list
                         /\ Forall (fun t => subtype_accepts accepts ctx xml sch text
                                              resolve t = false) pre
                         /\ subtype_accepts accepts ctx xml sch text resolve type0 = true
                         /\ accepted_by node type0 resolve UINT_MAX st' leaf'
                         /\ subtype_text ctx xml text type0 = Some (value_str leaf')
                   | None =>
                       Forall (fun t => subtype_accepts accepts ctx xml sch text
                                          resolve t = false) (type :: rest)
                   end).
    { intros st1 leaf1 H1 H2 H3 Hrej.
      destruct (IH st1 leaf1 H1 H2 H3) as (stop & st' & leaf' & Hrun & Hl & Hstop).
      exists stop, st', leaf'. split; [exact Hrun|]. split; [exact Hl|].
      destruct stop as [type0|].
      - destruct Hstop as (pre & post & -> & Hpre & Hrest).
        exists (type :: pre), post. split; [reflexivity|].
        split; [constructor; assumption|exact Hrest].
      - constructor; assumption. }
    destruct (is_path_base (base type)) eqn:Hpath.
    + rewrite Htext. destruct (transform_xml2json ctx text xml 0) as [json|] eqn:Htr.
      * assert (Hacc : subtype_accepts accepts ctx xml sch text resolve type
                       = accepts sch (Some json) type resolve).
        { unfold subtype_accepts, subtype_text. rewrite Hpath, Htr. reflexivity. }
        assert (Htxt : subtype_text ctx xml text type = Some (Some json)).
        { unfold subtype_text. rewrite Hpath, Htr. reflexivity. }
        set (st2 := set_heap _ st).
        destruct (decoder_call node type resolve UINT_MAX st2
                    (set_value_str (Some json) (set_value_type (base type) leaf)))
          as (r & st3 & leaf3 & Hcall & Hl3 & Hs3 & Hv3 & Hr & Hvt).
        { apply lookup_insert_eq. }
        rewrite Hcall.
        cbn [schema value_str value_type set_value_str set_value_type] in Hs3, Hv3, Hr, Hvt.
        rewrite Hsch, <- Hacc in Hr.
        destruct (Z.eqb_spec r 0) as [Hr0|Hr0].
        -- subst r. exists (Some type), st3, leaf3.
           split; [reflexivity|]. split; [exact Hl3|].
           exists [], rest. split; [reflexivity|]. split; [constructor|].
           split; [symmetry; exact Hr|]. split.
           ++ split.
              ** exists st2, (set_value_str (Some json) (set_value_type (base type) leaf)).
                 split; [apply lookup_insert_eq|]. split; [reflexivity|].
                 split; [symmetry; exact Hv3|exact Hcall].
              ** intros Hb. exact (Hvt eq_refl Hb).
           ++ rewrite Htxt, Hv3. reflexivity.
        -- unfold store. rewrite Hl3.
           eapply Hcons; [apply lookup_insert_eq|simpl; congruence|reflexivity|].
           symmetry. exact Hr.
      * eapply Hcons; [apply lookup_insert_eq|exact Hsch|exact Htext|].
        unfold subtype_accepts, subtype_text. rewrite Hpath, Htr. reflexivity.
    + assert (Hacc : subtype_accepts accepts ctx xml sch text resolve type
                     = accepts sch text type resolve).
      { unfold subtype_accepts, subtype_text. rewrite Hpath. reflexivity. }
      assert (Htxt : subtype_text ctx xml text type = Some text).
      { unfold subtype_text. rewrite Hpath. reflexivity. }
      set (st1 := set_heap _ st).
      destruct (decoder_call node type resolve UINT_MAX st1
                  (set_value_type (base type) leaf))
        as (r & st3 & leaf3 & Hcall & Hl3 & Hs3 & Hv3 & Hr & Hvt).
      { apply lookup_insert_eq. }
      rewrite Hcall.
      cbn [schema value_str value_type set_value_str set_value_type] in Hs3, Hv3, Hr, Hvt.
      rewrite Hsch, Htext, <- Hacc in Hr.
      destruct (Z.eqb_spec r 0) as [Hr0|Hr0].
      * subst r. exists (Some type), st3, leaf3.
        split; [reflexivity|]. split; [exact Hl3|].
        exists [], rest. split; [reflexivity|]. split; [constructor|].
        split; [symmetry; exact Hr|]. split.
        -- split.
           ++ exists st1, (set_value_type (base type) leaf).
              split; [apply lookup_insert_eq|]. split; [reflexivity|].
              split; [symmetry; exact Hv3|exact Hcall].
           ++ intros Hb. exact (Hvt eq_refl Hb).
        -- rewrite Htxt, Hv3, Htext. reflexivity.
      * eapply Hcons; [exact Hl3|congruence|congruence|]. symmetry. exact Hr.
Qed.

(** the first accepted element of a list is unique *)
Lemma first_accepted_unique {A} (f : A -> bool) (pre pre' : list A) t t' post post' :
  (pre ++ t :: post = pre' ++ t' :: post')%list ->
  Forall (fun x => f x = false) pre -> f t = true ->
  Forall (fun x => f x = false) pre' -> f t' = true ->
  pre = pre' /\ t = t'.
Proof.
  revert pre'. induction pre as [|a pre IH]; intros [|a' pre'] Heq Hpre Ht Hpre' Ht';
    simpl in Heq.
  - injection Heq as -> _. split; reflexivity.
  - injection Heq as -> _. apply Forall_cons in Hpre' as [Ha _]. congruence.
  - injection Heq as -> _. apply Forall_cons in Hpre as [Ha _]. congruence.
  - injection Heq as -> Heq. apply Forall_cons in Hpre as [_ Hpre].
    apply Forall_cons in Hpre' as [_ Hpre'].
    destruct (IH pre' Heq Hpre Ht Hpre' Ht') as [-> ->]. split; reflexivity.
Qed.

(** [xml_get_value] on a leaf of a union type *)
Lemma xml_get_value_of_union ctx node xml options st leaf0 sch :
  heap st !! node = Some leaf0 -> schema leaf0 = Some sch ->
  base (s_type sch) = LY_TYPE_UNION -> filter_selection options xml = false ->
  exists st1 leaf1,
    heap st1 !! node = Some leaf1 /\ schema leaf1 = Some sch
    /\ value_str leaf1 = x_content xml
    /\ xml_get_value ctx node xml options st
       = match xml_get_value_union ctx node xml (xml_resolve options)
                 (lyp_union_types (s_type sch)) st1 with
         | None => None
         | Some (None, st3) => Some (EXIT_FAILURE, LOGVAL LYE_INVAL st3)
         | Some (Some _, st3) => Some (EXIT_SUCCESS, st3)
         end.
Proof.
  intros Hleaf Hsch Hbase Hfilter. unfold xml_get_value.
  rewrite Hleaf, Hsch, Hbase. cbn [value_str set_value_type set_value_str].
  unfold filter_selection in Hfilter. rewrite Hfilter.
  change (is_path_base LY_TYPE_UNION) with false.
  change (Z.eqb LY_TYPE_UNION LY_TYPE_UNION) with true. cbv iota.
  exists (set_heap (<[node := set_value_type LY_TYPE_UNION
                               (set_value_str (x_content xml) leaf0)]> (heap st)) st),
    (set_value_type LY_TYPE_UNION (set_value_str (x_content xml) leaf0)).
  split; [apply lookup_insert_eq|]. split; [exact Hsch|].
  split; reflexivity.
Qed.

(** the run of [xml_get_value] on a leaf of a union type, by the
    subtypes that accept *)
Lemma xml_get_value_union_outcome ctx node xml options st leaf0 sch :
  heap st !! node = Some leaf0 -> schema leaf0 = Some sch ->
  base (s_type sch) = LY_TYPE_UNION -> filter_selection options xml = false ->
  let tried := subtype_accepts accepts ctx xml (Some sch) (x_content xml)
                 (xml_resolve options) in
  (exists pre type post st' leaf',
      lyp_union_types (s_type sch) = (pre ++ type :: post)%list
      /\ Forall (fun t => tried t = false) pre /\ tried type = true
      /\ xml_get_value ctx node xml options st = Some (EXIT_SUCCESS, st')
      /\ heap st' !! node = Some leaf'
      /\ accepted_by node type (xml_resolve options) UINT_MAX st' leaf'
      /\ subtype_text ctx xml (x_content xml) type = Some (value_str leaf'))
  \/ (Forall (fun t => tried t = false) (lyp_union_types (s_type sch))
      /\ exists st',
           xml_get_value ctx node xml options st = Some (EXIT_FAILURE, st')
           /\ ly_errno st' = LY_EVALID).
Proof.
  intros Hleaf Hsch Hbase Hfilter tried.
  destruct (xml_get_value_of_union ctx node xml options st leaf0 sch
              Hleaf Hsch Hbase Hfilter) as (st1 & leaf1 & Hl1 & Hs1 & Hv1 & ->).
  destruct (xml_get_value_union_spec ctx node xml (xml_resolve options) (Some sch)
              (x_content xml) (lyp_union_types (s_type sch)) st1 leaf1 Hl1 Hs1 Hv1)
    as (stop & st' & leaf' & -> & Hl' & Hstop).
  fold tried in Hstop. destruct stop as [type|].
  - left. destruct Hstop as (pre & post & Heq & Hpre & Htype & Hacc & Htxt).
    exists pre, type, post, st', leaf'. repeat split; try assumption; apply Hacc.
  - right. split; [exact Hstop|]. eexists. split; reflexivity.
Qed.

(** C1. For a leaf or leaf-list whose schema type is a union, unless
    the element is a selection node of a filter (FILTER is set and
    there is no text), the subtypes are tried in declaration order,
    each with [value_type] set to its base, a subtype of base
    IDENTITYREF or INSTANCE-IDENTIFIER on the text translated to the
    JSON form in silent mode, where a failed translation only rejects
    that subtype. If some subtype accepts, [xml_get_value] succeeds and
    the leaf is what the decoder call for the first accepting subtype
    left: that call was made with [value_type] at the base of the
    subtype and [value_str] at the text the subtype was tried on, and
    the bits of [value_type] under the mask are still that base unless
    the subtype is a leafref. If no subtype accepts, [xml_get_value]
    fails with a validation error. *)
Theorem union_takes_first_accepting_subtype
  (ctx : ly_ctx) (node : ptr) (xml : lyxml_elem) (options : Z) (st : pstate)
  (leaf0 : lyd_node) (sch : lys_node) :
  heap st !! node = Some leaf0 -> schema leaf0 = Some sch ->
  base (s_type sch) = LY_TYPE_UNION -> filter_selection options xml = false ->
  let tried := subtype_accepts accepts ctx xml (Some sch) (x_content xml)
                 (xml_resolve options) in
  (forall pre type post,
      lyp_union_types (s_type sch) = (pre ++ type :: post)%list ->
      Forall (fun t => tried t = false) pre -> tried type = true ->
      exists st' leaf',
        xml_get_value ctx node xml options st = Some (EXIT_SUCCESS, st')
        /\ heap st' !! node = Some leaf'
        /\ accepted_by node type (xml_resolve options) UINT_MAX st' leaf'
        /\ subtype_text ctx xml (x_content xml) type = Some (value_str leaf'))
  /\ (Forall (fun t => tried t = false) (lyp_union_types (s_type sch)) ->
      exists st',
        xml_get_value ctx node xml options st = Some (EXIT_FAILURE, st')
        /\ ly_errno st' = LY_EVALID).
Proof.
  intros Hleaf Hsch Hbase Hfilter tried. subst tried.
  destruct (xml_get_value_union_outcome ctx node xml options st leaf0 sch
              Hleaf Hsch Hbase Hfilter)
    as [(pre0 & type0 & post0 & st' & leaf' & Heq & Hpre0 & Htype0 & Hrun & Hl & Hacc
         & Htxt)|[Hnone Hfail]].
  - split.
    + intros pre type post Htypes Hpre Htype. rewrite Htypes in Heq.
      destruct (first_accepted_unique
                    (subtype_accepts accepts ctx xml (Some sch) (x_content xml)
                       (xml_resolve options)) _ _ _ _ _ _ Heq Hpre Htype Hpre0 Htype0)
        as [_ ->].
      exists st', leaf'. repeat split; try assumption; apply Hacc.
    + intros Hall. exfalso. rewrite Heq in Hall.
      apply Forall_app in Hall as [_ Hall].
      apply Forall_cons in Hall as [Hrej _]. congruence.
  - split.
    + intros pre type post Htypes Hpre Htype. exfalso. rewrite Htypes in Hnone.
      apply Forall_app in Hnone as [_ Hnone].
      apply Forall_cons in Hnone as [Hrej _]. congruence.
    + intros _. exact Hfail.
Qed.

(** C3. For a leaf parsed from XML that is not a selection node of a
    filter. If the schema type has base IDENTITYREF or
    INSTANCE-IDENTIFIER, the text of the element is translated to the
    JSON form, in which the prefixes are module names: when the
    translation fails, [xml_get_value] fails and [value_str] is NULL;
    otherwise [value_str] is the translated text, [xml_get_value]
    succeeds exactly when the decoder accepts it, and then the bits of
    [value_type] under the mask are the base of the schema type. If the
    schema type is a union and the first subtype that accepts has one
    of the two bases, [xml_get_value] succeeds, [value_str] is the text
    translated in silent mode and the bits of [value_type] under the
    mask are the base of that subtype; every successful run on a union
    has such a first accepting subtype. *)
Theorem path_values_stored_in_json_form
  (ctx : ly_ctx) (node : ptr) (xml : lyxml_elem) (options : Z) (st : pstate)
  (leaf0 : lyd_node) (sch : lys_node) :
  heap st !! node = Some leaf0 -> schema leaf0 = Some sch ->
  filter_selection options xml = false ->
  let resolve := xml_resolve options in
  let tried := subtype_accepts accepts ctx xml (Some sch) (x_content xml) resolve in
  (is_path_base (base (s_type sch)) = true ->
   match transform_xml2json ctx (x_content xml) xml 1 with
   | Some json =>
       exists st' leaf',
         xml_get_value ctx node xml options st
         = Some (if accepts (Some sch) (Some json) (s_type sch) resolve
                 then EXIT_SUCCESS else EXIT_FAILURE, st')
         /\ heap st' !! node = Some leaf'
         /\ value_str leaf' = Some json
         /\ (accepts (Some sch) (Some json) (s_type sch) resolve = true ->
             Z.land (value_type leaf') LY_DATA_TYPE_MASK
             = Z.land (base (s_type sch)) LY_DATA_TYPE_MASK)
   | None =>
       exists st' leaf',
         xml_get_value ctx node xml options st = Some (EXIT_FAILURE, st')
         /\ heap st' !! node = Some leaf'
         /\ value_str leaf' = None
   end)
  /\ (base (s_type sch) = LY_TYPE_UNION ->
      (forall pre type post,
          lyp_union_types (s_type sch) = (pre ++ type :: post)%list ->
          Forall (fun t => tried t = false) pre -> tried type = true ->
          is_path_base (base type) = true ->
          exists json st' leaf',
            transform_xml2json ctx (x_content xml) xml 0 = Some json
            /\ xml_get_value ctx node xml options st = Some (EXIT_SUCCESS, st')
            /\ heap st' !! node = Some leaf'
            /\ value_str leaf' = Some json
            /\ Z.land (value_type leaf') LY_DATA_TYPE_MASK
               = Z.land (base type) LY_DATA_TYPE_MASK)
      /\ (forall st',
            xml_get_value ctx node xml options st = Some (EXIT_SUCCESS, st') ->
            exists pre type post,
              lyp_union_types (s_type sch) = (pre ++ type :: post)%list
              /\ Forall (fun t => tried t = false) pre /\ tried type = true)).
Proof.
  intros Hleaf Hsch Hfilter resolve tried. subst tried resolve. split.
  - intros Hpath. unfold xml_get_value. rewrite Hleaf, Hsch.
    cbn [value_str set_value_type set_value_str].
    unfold filter_selection in Hfilter. rewrite Hfilter, Hpath.
    destruct (transform_xml2json ctx (x_content xml) xml 1) as [json|].
    + set (st2 := set_heap _ st).
      destruct (decoder_call node (s_type sch) (xml_resolve options) 0 st2
                  (set_value_str (Some json)
                     (set_value_type (base (s_type sch))
                        (set_value_str (x_content xml) leaf0))))
        as (r & st3 & leaf3 & Hcall & Hl3 & _ & Hv3 & Hr & Hvt).
      { apply lookup_insert_eq. }
      rewrite Hcall.
      cbn [schema value_str value_type set_value_str set_value_type] in Hv3, Hr, Hvt.
      rewrite Hsch in Hr. rewrite <- Hr.
      exists st3, leaf3. split; [destruct (Z.eqb r 0); reflexivity|].
      split; [exact Hl3|]. split; [exact Hv3|].
      intros Hr0%Z.eqb_eq. apply (Hvt Hr0), is_path_base_not_leafref, Hpath.
    + eexists _, _. split; [reflexivity|]. split; [apply lookup_insert_eq|reflexivity].
  - intros Hbase.
    destruct (xml_get_value_union_outcome ctx node xml options st leaf0 sch
                Hleaf Hsch Hbase Hfilter)
      as [(pre0 & type0 & post0 & st' & leaf' & Heq & Hpre0 & Htype0 & Hrun & Hl & Hacc
           & Htxt)|[Hnone (st' & Hrun & _)]].
    + split.
      * intros pre type post Htypes Hpre Htype Hpath. rewrite Htypes in Heq.
        destruct (first_accepted_unique
                    (subtype_accepts accepts ctx xml (Some sch) (x_content xml)
                       (xml_resolve options)) _ _ _ _ _ _ Heq Hpre Htype Hpre0 Htype0)
          as [_ ->].
        unfold subtype_text in Htxt. rewrite Hpath in Htxt.
        destruct (transform_xml2json ctx (x_content xml) xml 0) as [json|];
          [|discriminate].
        injection Htxt as Htxt. exists json, st', leaf'.
        split; [reflexivity|]. split; [exact Hrun|]. split; [exact Hl|].
        split; [symmetry; exact Htxt|].
        apply Hacc, is_path_base_not_leafref, Hpath.
      * intros _ _. exists pre0, type0, post0. repeat split; assumption.
    + split.
      * intros pre type post Htypes Hpre Htype. exfalso. rewrite Htypes in Hnone.
        apply Forall_app in Hnone as [_ Hnone].
        apply Forall_cons in Hnone as [Hrej _]. congruence.
      * intros st0 Hrun0. rewrite Hrun in Hrun0. discriminate.
Qed.

End Values.

(** the stand-in for the decoder meets the contract *)
Lemma parse_value_by_base_contract resolve :
  @decoder_contract (externals_with resolve) (fun _ text type _ => base_accepts text type).
Proof.
  intros node type rs line st leaf Hleaf. simpl. unfold parse_value_by_base.
  rewrite Hleaf. destruct (base_accepts (value_str leaf) type); simpl.
  - eexists. rewrite lookup_insert_eq. split; [reflexivity|].
    cbn [schema value_str value_type].
    repeat split; auto.
  - exists leaf. split; [exact Hleaf|]. repeat split; auto; discriminate.
Qed.

(** so does the decoder that leaves instance-identifiers unresolved *)
Lemma parse_value_unresolved_contract :
  @decoder_contract externals_unresolved
    (fun _ text type resolve => unresolved_accepts text type resolve).
Proof.
  intros node type rs line st leaf Hleaf. simpl.
  unfold parse_value_unresolved, unresolved_accepts. rewrite Hleaf.
  destruct (Z.eqb (base type) LY_TYPE_INST && Z.eqb rs 0).
  - destruct (bool_decide (is_Some (value_str leaf))); simpl.
    + eexists. rewrite lookup_insert_eq. split; [reflexivity|].
      cbn [schema value_str value_type set_value_type].
      repeat split; auto. intros _ _.
      rewrite Z.land_lor_distr_l.
      change (Z.land LY_TYPE_INST_UNRES LY_DATA_TYPE_MASK) with 0.
      apply Z.lor_0_r.
    + exists leaf. split; [exact Hleaf|]. repeat split; auto; discriminate.
  - apply (parse_value_by_base_contract (fun st0 => (0, st0)) node type rs line st leaf
             Hleaf).
Qed.

(** C1, as stated, fails for a selection node of a filter: under the
    FILTER option the element [<v/>] has no text; no subtype of the
    union accepts it, yet [xml_get_value] does not fail. *)
Lemma union_filter_selection_is_not_decoded :
  leaf_outcome 1%positive
    (xml_get_value (E := resolution_ok) ctx_m 1%positive xml_v_empty 4 state_leaf_v)
  = Some (EXIT_SUCCESS, Some (LY_TYPE_UNION, None))
  /\ ~ (Forall (fun t =>
                  subtype_accepts (E := resolution_ok)
                    (fun _ text type _ => base_accepts text type)
                    ctx_m xml_v_empty (Some leaf_v) (x_content xml_v_empty)
                    (xml_resolve (E := resolution_ok) 4) t = false)
          (lyp_union_types (s_type leaf_v)) ->
        exists st',
          xml_get_value (E := resolution_ok) ctx_m 1%positive xml_v_empty 4 state_leaf_v
          = Some (EXIT_FAILURE, st')).
Proof.
  split; [vm_compute; reflexivity|].
  intros H. destruct H as (st' & Hrun).
  - repeat constructor.
  - vm_compute in Hrun. discriminate Hrun.
Qed.

Lemma union_takes_first_accepting_subtype_witness :
  (subtype_accepts (E := resolution_ok) (fun _ text type _ => base_accepts text type)
     ctx_m xml_v_prefixed (Some leaf_v) (x_content xml_v_prefixed)
     (xml_resolve (E := resolution_ok) 0) ident_type = true
   /\ exists st' leaf',
        xml_get_value (E := resolution_ok) ctx_m 1%positive xml_v_prefixed 0
          state_leaf_v = Some (EXIT_SUCCESS, st')
        /\ heap st' !! 1%positive = Some leaf'
        /\ accepted_by (E := resolution_ok) 1%positive ident_type
             (xml_resolve (E := resolution_ok) 0) UINT_MAX st' leaf'
        /\ Z.land (value_type leaf') LY_DATA_TYPE_MASK = LY_TYPE_IDENT
        /\ value_str leaf' = Some "m:id1"%string)
  /\ (subtype_accepts (E := externals_unresolved)
        (fun _ text type resolve => unresolved_accepts text type resolve)
        ctx_m xml_t_prefixed (Some leaf_t) (x_content xml_t_prefixed)
        (xml_resolve (E := externals_unresolved) 8) inst_type = true
      /\ exists st' leaf',
           xml_get_value (E := externals_unresolved) ctx_m 1%positive xml_t_prefixed 8
             state_leaf_t = Some (EXIT_SUCCESS, st')
           /\ heap st' !! 1%positive = Some leaf'
           /\ value_type leaf' = Z.lor LY_TYPE_INST LY_TYPE_INST_UNRES
           /\ Z.land (value_type leaf') LY_DATA_TYPE_MASK = LY_TYPE_INST
           /\ value_str leaf' = Some "m:id1"%string).
Proof.
  split.
  - set (st := state_leaf_v). split; [vm_compute; reflexivity|].
    destruct (union_takes_first_accepting_subtype (E := resolution_ok) _
                (parse_value_by_base_contract _) ctx_m 1%positive xml_v_prefixed 0 st
                (set_schema (Some leaf_v) zero_node) leaf_v)
      as [Hfirst _]; try reflexivity.
    destruct (Hfirst [] ident_type [string_type])
      as (st' & leaf' & Hrun & Hl & Hacc & Htxt).
    + reflexivity.
    + constructor.
    + vm_compute. reflexivity.
    + exists st', leaf'. split; [exact Hrun|]. split; [exact Hl|].
      split; [exact Hacc|]. split.
      * destruct Hacc as [_ Hvt]. apply Hvt. discriminate.
      * assert (Hjson : subtype_text (E := resolution_ok) ctx_m xml_v_prefixed
                          (x_content xml_v_prefixed) ident_type
                        = Some (Some "m:id1"%string)).
        { vm_compute. reflexivity. }
        rewrite Hjson in Htxt. injection Htxt as <-. reflexivity.
  - set (st := state_leaf_t). split; [vm_compute; reflexivity|].
    destruct (union_takes_first_accepting_subtype (E := externals_unresolved) _
                parse_value_unresolved_contract ctx_m 1%positive xml_t_prefixed 8 st
                (set_schema (Some leaf_t) zero_node) leaf_t)
      as [Hfirst _]; try reflexivity.
    destruct (Hfirst [] inst_type [string_type])
      as (st' & leaf' & Hrun & Hl & Hacc & Htxt).
    + reflexivity.
    + constructor.
    + vm_compute. reflexivity.
    + exists st', leaf'. split; [exact Hrun|]. split; [exact Hl|].
      split; [|split].
      * assert (Hv : (fun n => value_type n) <$> heap st' !! 1%positive
                     = Some (Z.lor LY_TYPE_INST LY_TYPE_INST_UNRES)).
        { vm_compute in Hrun. injection Hrun as <-. vm_compute. reflexivity. }
        rewrite Hl in Hv. injection Hv as Hv. exact Hv.
      * destruct Hacc as [_ Hvt]. apply Hvt. discriminate.
      * assert (Hjson : subtype_text (E := externals_unresolved) ctx_m xml_t_prefixed
                          (x_content xml_t_prefixed) inst_type
                        = Some (Some "m:id1"%string)).
        { vm_compute. reflexivity. }
        rewrite Hjson in Htxt. injection Htxt as <-. reflexivity.
Defined.

(** C3, as stated, fails for a selection node of a filter: under the
    FILTER option the element [<i/>] of an identityref leaf has no
    text; the leaf is parsed with success, its [value_type] is
    IDENTITYREF and its [value_str] is NULL. *)
Lemma identityref_filter_selection_has_no_value :
  leaf_outcome 1%positive
    (xml_get_value (E := resolution_ok) ctx_m 1%positive xml_i_empty 4 state_leaf_i)
  = Some (EXIT_SUCCESS, Some (LY_TYPE_IDENT, None))
  /\ ~ (forall st' leaf',
          xml_get_value (E := resolution_ok) ctx_m 1%positive xml_i_empty 4 state_leaf_i
          = Some (EXIT_SUCCESS, st') ->
          heap st' !! 1%positive = Some leaf' ->
          value_type leaf' = LY_TYPE_IDENT ->
          exists json, value_str leaf' = Some json).
Proof.
  split; [vm_compute; reflexivity|].
  intros H.
  destruct (xml_get_value (E := resolution_ok) ctx_m 1%positive xml_i_empty 4
              state_leaf_i) as [[r st']|] eqn:Hrun; [|vm_compute in Hrun; discriminate].
  destruct (heap st' !! 1%positive) as [leaf'|] eqn:Hl;
    [|vm_compute in Hrun; injection Hrun as _ <-; vm_compute in Hl; discriminate].
  assert (Hr : r = EXIT_SUCCESS /\ value_type leaf' = LY_TYPE_IDENT
               /\ value_str leaf' = None).
  { vm_compute in Hrun. injection Hrun as <- <-. vm_compute in Hl.
    injection Hl as <-. repeat split. }
  destruct Hr as (-> & Hvt & Hvs).
  destruct (H st' leaf' eq_refl Hl Hvt) as (json & Hjson). congruence.
Qed.

Lemma path_values_stored_in_json_form_witness :
  (exists st' leaf',
      xml_get_value (E := resolution_ok) ctx_m 1%positive xml_i_prefixed 0 state_leaf_i
      = Some (EXIT_SUCCESS, st')
      /\ heap st' !! 1%positive = Some leaf'
      /\ value_str leaf' = Some "m:id1"
      /\ Z.land (value_type leaf') LY_DATA_TYPE_MASK = LY_TYPE_IDENT)
  /\ (exists st' leaf',
        xml_get_value (E := resolution_ok) ctx_m 1%positive xml_v_prefixed 0 state_leaf_v
        = Some (EXIT_SUCCESS, st')
        /\ heap st' !! 1%positive = Some leaf'
        /\ value_str leaf' = Some "m:id1"
        /\ Z.land (value_type leaf') LY_DATA_TYPE_MASK = LY_TYPE_IDENT).
Proof.
  split.
  - destruct (path_values_stored_in_json_form (E := resolution_ok) _
                (parse_value_by_base_contract _) ctx_m 1%positive xml_i_prefixed 0
                state_leaf_i (set_schema (Some leaf_i) zero_node) leaf_i
                eq_refl eq_refl eq_refl) as [Hdirect _].
    specialize (Hdirect eq_refl).
    change (transform_xml2json (Externals := resolution_ok) ctx_m
              (x_content xml_i_prefixed) xml_i_prefixed 1)
      with (Some "m:id1"%string) in Hdirect.
    destruct Hdirect as (st' & leaf' & Hrun & Hl & Hv & Hvt).
    exists st', leaf'. split; [exact Hrun|]. split; [exact Hl|].
    split; [exact Hv|]. exact (Hvt eq_refl).
  - destruct (path_values_stored_in_json_form (E := resolution_ok) _
                (parse_value_by_base_contract _) ctx_m 1%positive xml_v_prefixed 0
                state_leaf_v (set_schema (Some leaf_v) zero_node) leaf_v
                eq_refl eq_refl eq_refl) as [_ Hunion].
    destruct (Hunion eq_refl) as [Hfirst _].
    destruct (Hfirst [] ident_type [string_type])
      as (json & st' & leaf' & Htr & Hrun & Hl & Hv & Hvt).
    + reflexivity.
    + constructor.
    + vm_compute. reflexivity.
    + reflexivity.
    + exists st', leaf'. split; [exact Hrun|]. split; [exact Hl|].
      split; [|exact Hvt].
      assert (Hm : transform_xml2json (Externals := resolution_ok) ctx_m
                     (x_content xml_v_prefixed) xml_v_prefixed 0 = Some "m:id1"%string).
      { vm_compute. reflexivity. }
      rewrite Hm in Htr. injection Htr as <-. exact Hv.
Defined.



Lemma parse_entry_points_validate_arguments_witness :
  (exists st',
     lyd_parse_output_xml (E := resolution_ok) ctx_m (Some leaf_v) (Some xml_root_xs) 0
       empty_state = Some (None, st')
     /\ ly_errno st' = LY_EINVAL /\ heap st' = heap empty_state)
  /\ (exists st',
        lyd_parse_xml (E := resolution_ok) (Some ctx_m) None 0 empty_state
        = Some (None, st')
        /\ ly_errno st' = LY_EINVAL /\ heap st' = heap empty_state).
Proof.
  destruct (parse_entry_points_validate_arguments (E := resolution_ok) ctx_m
              (Some ctx_m) (Some leaf_v) None 0 empty_state) as [_ Hxml].
  destruct (parse_entry_points_validate_arguments (E := resolution_ok) ctx_m
              (Some ctx_m) (Some leaf_v) (Some xml_root_xs) 0 empty_state) as [Hout _].
  split.
  - apply Hout. right. exists leaf_v. split; [reflexivity|]. vm_compute. discriminate.
  - apply Hxml. right. reflexivity.
Defined.

(** ** The JSON arrays of lists and leaf-lists *)

(** induction along the [next] pointer of a data node *)
Lemma lyd_next_ind (P : lyd_tree -> Prop) :
  (forall n, (forall nx, t_next n = Some nx -> P nx) -> P n) ->
  forall n, P n.
Proof.
  intros step. fix IH 1.
  intros [sc at' nx ch vs lr vt]. apply step; simpl.
  intros m Hm. destruct nx as [m'|]; [|discriminate].
  injection Hm as <-. apply IH.
Qed.

Lemma string_app_assoc (a b c : string) : ((a ++ b) ++ c = a ++ (b ++ c))%string.
Proof.
  induction a as [|ch a IH]; [reflexivity|].
  change (String ch ((a ++ b) ++ c) = String ch (a ++ (b ++ c)))%string.
  rewrite IH. reflexivity.
Qed.

Lemma string_app_nil_r (a : string) : (a ++ "" = a)%string.
Proof.
  induction a as [|ch a IH]; [reflexivity|].
  change (String ch (a ++ "") = String ch a)%string.
  rewrite IH. reflexivity.
Qed.

Lemma concat_empty_cons (a : string) (l : list string) :
  String.concat "" (a :: l) = (a ++ String.concat "" l)%string.
Proof.
  destruct l as [|b l]; simpl; [rewrite string_app_nil_r|]; reflexivity.
Qed.

(** a separated list is its head followed by the separator in front
    of each later element *)
Lemma concat_separated sep x (l : list string) :
  String.concat sep (x :: l)
  = (x ++ String.concat "" (List.map (fun y => sep ++ y) l))%string.
Proof.
  revert x. induction l as [|y l IH]; intros x.
  - simpl. rewrite string_app_nil_r. reflexivity.
  - change (String.concat sep (x :: y :: l))
      with (x ++ sep ++ String.concat sep (y :: l))%string.
    rewrite IH. cbn [List.map]. rewrite concat_empty_cons, string_app_assoc.
    reflexivity.
Qed.

Section JsonArrays.
Variable nodes : nat -> option lyd_tree -> option lyd_tree -> string.

Lemma json_list_printed_exists node before :
  json_list_printed node before = existsb (fun it => same_schema it node) before.
Proof.
  induction before as [|it before IH]; simpl; [reflexivity|].
  destruct (same_schema it node); [reflexivity|exact IH].
Qed.

(** the turns after the first print the later instances, in order *)
Lemma json_print_instances_filter level parent node is_list list :
  json_print_instances nodes level parent node is_list list
  = String.concat ""
      (List.map (fun y => ("," ++ nl) ++ y)
         (List.map (json_print_instance nodes level parent node is_list)
            (List.filter (fun s => same_schema s node) (lyd_siblings_from list))))%string.
Proof.
  induction list as [n IH] using lyd_next_ind.
  destruct n as [sc at' nx ch vs lr vt]. cbn [json_print_instances lyd_siblings_from t_next].
  set (n := Lyd_tree sc at' nx ch vs lr vt) in *.
  assert (Hrest : match nx with
                  | Some nx0 => json_print_instances nodes level parent node is_list nx0
                  | None => ""
                  end
                  = String.concat ""
                      (List.map (fun y => ("," ++ nl) ++ y)
                         (List.map (json_print_instance nodes level parent node is_list)
                            (List.filter (fun s => same_schema s node)
                               match nx with
                               | Some nx0 => lyd_siblings_from nx0
                               | None => []
                               end)))%string).
  { destruct nx as [nx0|]; [apply IH; reflexivity|reflexivity]. }
  rewrite Hrest. cbn [List.filter].
  destruct (same_schema n node); [|reflexivity].
  cbn [List.map]. rewrite concat_empty_cons, string_app_assoc. reflexivity.
Qed.

Lemma json_flag_attrs_exists node list :
  json_flag_attrs node list
  = existsb has_attr (List.filter (fun s => same_schema s node) (lyd_siblings_from list)).
Proof.
  induction list as [n IH] using lyd_next_ind.
  destruct n as [sc at' nx ch vs lr vt]. cbn [json_flag_attrs lyd_siblings_from t_next].
  set (n := Lyd_tree sc at' nx ch vs lr vt) in *.
  assert (Hrest : match nx with
                  | Some nx0 => json_flag_attrs node nx0
                  | None => false
                  end
                  = existsb has_attr
                      (List.filter (fun s => same_schema s node)
                         match nx with
                         | Some nx0 => lyd_siblings_from nx0
                         | None => []
                         end)).
  { destruct nx as [nx0|]; [apply IH; reflexivity|reflexivity]. }
  rewrite Hrest. cbn [List.filter].
  destruct (same_schema n node); reflexivity.
Qed.

Lemma json_print_instances_attrs_filter level node list :
  json_print_instances_attrs level node list
  = String.concat ""
      (List.map (fun y => ("," ++ nl) ++ y)
         (List.map (json_print_instance_attrs level)
            (List.filter (fun s => same_schema s node) (lyd_siblings_from list))))%string.
Proof.
  induction list as [n IH] using lyd_next_ind.
  destruct n as [sc at' nx ch vs lr vt].
  cbn [json_print_instances_attrs lyd_siblings_from t_next].
  set (n := Lyd_tree sc at' nx ch vs lr vt) in *.
  assert (Hrest : match nx with
                  | Some nx0 => json_print_instances_attrs level node nx0
                  | None => ""
                  end
                  = String.concat ""
                      (List.map (fun y => ("," ++ nl) ++ y)
                         (List.map (json_print_instance_attrs level)
                            (List.filter (fun s => same_schema s node)
                               match nx with
                               | Some nx0 => lyd_siblings_from nx0
                               | None => []
                               end)))%string).
  { destruct nx as [nx0|]; [apply IH; reflexivity|reflexivity]. }
  rewrite Hrest. cbn [List.filter].
  destruct (same_schema n node); [|reflexivity].
  cbn [List.map]. rewrite concat_empty_cons, string_app_assoc. reflexivity.
Qed.

(** what [json_print_leaf_list] prints for a first instance that is
    not empty *)
Lemma json_print_leaf_list_array level parent node is_list :
  json_flag_empty node is_list = false ->
  json_print_leaf_list nodes level parent node is_list
  = (json_array_head level parent node
     ++ json_instance_array nodes level parent node is_list
     ++ (if negb is_list && existsb has_attr (json_array_instances node)
         then json_attrs_array level parent node else ""))%string.
Proof.
  intros Hempty. unfold json_print_leaf_list. rewrite Hempty.
  unfold json_array_head, json_instance_array, json_attrs_array,
    json_array_instances, lyd_siblings_after.
  cbn [List.map existsb]. rewrite !concat_separated.
  assert (Hi : match t_next node with
               | Some nx => json_print_instances nodes level parent node is_list nx
               | None => ""
               end
               = String.concat ""
                   (List.map (fun y => ("," ++ nl) ++ y)
                      (List.map (json_print_instance nodes level parent node is_list)
                         (List.filter (fun s => same_schema s node)
                            match t_next node with
                            | Some nx => lyd_siblings_from nx
                            | None => []
                            end)))%string).
  { destruct (t_next node); [apply json_print_instances_filter|reflexivity]. }
  assert (Ha : match t_next node with
               | Some nx => json_print_instances_attrs level node nx
               | None => ""
               end
               = String.concat ""
                   (List.map (fun y => ("," ++ nl) ++ y)
                      (List.map (json_print_instance_attrs level)
                         (List.filter (fun s => same_schema s node)
                            match t_next node with
                            | Some nx => lyd_siblings_from nx
                            | None => []
                            end)))%string).
  { destruct (t_next node); [apply json_print_instances_attrs_filter|reflexivity]. }
  assert (Hf : match t_next node with
               | Some nx => json_flag_attrs node nx
               | None => false
               end
               = existsb has_attr
                   (List.filter (fun s => same_schema s node)
                      match t_next node with
                      | Some nx => lyd_siblings_from nx
                      | None => []
                      end)).
  { destruct (t_next node); [apply json_flag_attrs_exists|reflexivity]. }
  rewrite Hi, Ha, Hf. rewrite !string_app_assoc. reflexivity.
Qed.

End JsonArrays.

(** one turn of the walk, and the siblings it leaves in front of the
    next turn *)
Lemma json_print_nodes_from_step level parent before node :
  json_print_nodes_from level parent before node
  = (json_print_node json_print_nodes level parent before node
     ++ match t_next node with
        | Some nx => json_print_nodes_from level parent (node :: before) nx
        | None => nl
        end)%string.
Proof. destruct node; reflexivity. Qed.

Lemma json_print_node_list_like nodes level parent before node :
  is_list_like node = true ->
  json_print_node nodes level parent before node
  = if json_list_printed node before then ""%string
    else ((if json_prev_has_next before then "," ++ nl else "")
          ++ json_print_leaf_list nodes level parent node
               (Z.eqb (s_nodetype (t_schema node)) LYS_LIST))%string.
Proof.
  unfold is_list_like, json_print_node. intros Hl.
  destruct (Z.eqb_spec (s_nodetype (t_schema node)) LYS_LEAFLIST) as [->|_];
    [reflexivity|].
  destruct (Z.eqb_spec (s_nodetype (t_schema node)) LYS_LIST) as [->|_];
    [reflexivity|discriminate].
Qed.

(** C8 (amended). In the walk over a sibling list, a list or leaf-list
    node whose schema occurred among the earlier siblings prints
    nothing; the first node of its schema prints the member, and when
    that first instance is not empty (a list instance with a child, a
    leaf-list instance with a value) the member is one array that holds
    this instance and every later sibling of the same schema, in order;
    an empty first instance is printed as the member with the value
    null in place of the array. *)
Theorem json_list_instances_in_one_array
  (nodes : nat -> option lyd_tree -> option lyd_tree -> string)
  (level : nat) (parent : option lyd_tree) (before : list lyd_tree) (node : lyd_tree) :
  is_list_like node = true ->
  let is_list := Z.eqb (s_nodetype (t_schema node)) LYS_LIST in
  ((exists it, In it before /\ same_schema it node = true) ->
     json_print_node nodes level parent before node = ""%string)
  /\ ((forall it, In it before -> same_schema it node = false) ->
        json_print_node nodes level parent before node
        = ((if json_prev_has_next before then "," ++ nl else "")
           ++ json_print_leaf_list nodes level parent node is_list)%string)
  /\ (json_flag_empty node is_list = false ->
        exists rest,
          json_print_leaf_list nodes level parent node is_list
          = (json_array_head level parent node
             ++ json_instance_array nodes level parent node is_list ++ rest)%string)
  /\ (json_flag_empty node is_list = true ->
        json_print_leaf_list nodes level parent node is_list
        = (json_array_head level parent node ++ " null")%string).
Proof.
  intros Hl is_list.
  rewrite (json_print_node_list_like nodes level parent before node Hl).
  rewrite json_list_printed_exists. fold is_list.
  split; [|split; [|split]].
  - intros (it & Hin & Hsame).
    assert (existsb (fun it => same_schema it node) before = true) as ->; [|reflexivity].
    apply existsb_exists. exists it. split; assumption.
  - intros Hnone.
    assert (existsb (fun it => same_schema it node) before = false) as ->; [|reflexivity].
    destruct (existsb _ before) eqn:Hex; [|reflexivity].
    apply existsb_exists in Hex as (it & Hin & Hsame).
    rewrite (Hnone it Hin) in Hsame. discriminate.
  - intros Hempty. eexists.
    apply (json_print_leaf_list_array nodes level parent node is_list Hempty).
  - intros Hempty. unfold json_print_leaf_list, json_array_head. rewrite Hempty.
    rewrite !string_app_assoc. reflexivity.
Qed.

(** C9 (amended). For a leaf-list whose first instance has a value,
    when at least one instance has attributes the attributes are
    printed as a parallel array after the instance array, holding for
    each instance in order an object of that instance's own attributes
    or null, and when no instance has attributes there is no such
    array; for a list there is no parallel array: an instance with
    attributes carries an ["@"] member inside its own object. *)
Theorem json_leaflist_attributes_in_parallel_array
  (nodes : nat -> option lyd_tree -> option lyd_tree -> string)
  (level : nat) (parent : option lyd_tree) (node : lyd_tree) (is_list : bool) :
  json_flag_empty node is_list = false ->
  (is_list = false -> existsb has_attr (json_array_instances node) = true ->
     json_print_leaf_list nodes level parent node is_list
     = (json_array_head level parent node
        ++ json_instance_array nodes level parent node is_list
        ++ json_attrs_array level parent node)%string)
  /\ (is_list = false -> existsb has_attr (json_array_instances node) = false ->
        json_print_leaf_list nodes level parent node is_list
        = (json_array_head level parent node
           ++ json_instance_array nodes level parent node is_list)%string)
  /\ (is_list = true ->
        json_print_leaf_list nodes level parent node is_list
        = (json_array_head level parent node
           ++ json_instance_array nodes level parent node is_list)%string
        /\ forall list, has_attr list = true ->
             exists members rest,
               json_print_instance nodes level parent node is_list list
               = (INDENT (level + 1) ++ "{" ++ nl
                  ++ INDENT (level + 2) ++ dq ++ "@" ++ dq ++ ": {" ++ nl
                  ++ members ++ INDENT (level + 2) ++ "}" ++ rest)%string).
Proof.
  intros Hempty.
  rewrite (json_print_leaf_list_array nodes level parent node is_list Hempty).
  split; [|split].
  - intros -> ->. reflexivity.
  - intros -> ->. simpl. rewrite string_app_nil_r. reflexivity.
  - intros ->. split.
    + simpl. rewrite string_app_nil_r. reflexivity.
    + intros list Hattr. unfold json_print_instance. rewrite Hattr.
      exists (json_print_attrs (level + 3) node),
        ((match t_child list with Some _ => "," ++ nl | None => "" end)
         ++ nodes (level + 2)%nat (Some list) (t_child list)
         ++ INDENT (level + 1) ++ "}")%string.
      rewrite !string_app_assoc. reflexivity.
Qed.

(** C8, as stated, fails: when the first instance of a list has no
    child the member is printed as null and no array collects the
    later instance. *)
Lemma json_empty_first_instance_has_no_array :
  ~ (exists rest,
        json_print_leaf_list json_print_nodes 1 None tree_l_empty_first true
        = (json_array_head 1 None tree_l_empty_first
           ++ json_instance_array json_print_nodes 1 None tree_l_empty_first true
           ++ rest)%string).
Proof. intros [rest H]. vm_compute in H. discriminate H. Qed.

(** C9, as stated, fails: the attributes of a list instance are not
    printed as a parallel array after the instance array. *)
Lemma json_list_attributes_have_no_parallel_array :
  json_print_leaf_list json_print_nodes 1 None tree_l_with_attr true
  <> (json_array_head 1 None tree_l_with_attr
      ++ json_instance_array json_print_nodes 1 None tree_l_with_attr true
      ++ json_attrs_array 1 None tree_l_with_attr)%string.
Proof. vm_compute. discriminate. Qed.

Lemma json_list_instances_in_one_array_witness :
  is_list_like tree_x_b = true
  /\ (exists it, In it [tree_x_a] /\ same_schema it tree_x_b = true)
  /\ json_print_node json_print_nodes 1 None [tree_x_a] tree_x_b = ""%string
  /\ json_flag_empty tree_x_a false = false
  /\ exists rest,
       json_print_leaf_list json_print_nodes 1 None tree_x_a false
       = (json_array_head 1 None tree_x_a
          ++ json_instance_array json_print_nodes 1 None tree_x_a false ++ rest)%string.
Proof.
  assert (Hex : exists it, In it [tree_x_a] /\ same_schema it tree_x_b = true).
  { exists tree_x_a. split; [left; reflexivity|reflexivity]. }
  destruct (json_list_instances_in_one_array json_print_nodes 1 None [tree_x_a]
              tree_x_b eq_refl) as (Hskip & _).
  destruct (json_list_instances_in_one_array json_print_nodes 1 None []
              tree_x_a eq_refl) as (_ & _ & Harr & _).
  split; [reflexivity|]. split; [exact Hex|]. split; [exact (Hskip Hex)|].
  split; [reflexivity|]. exact (Harr eq_refl).
Defined.

Lemma json_leaflist_attributes_in_parallel_array_witness :
  json_flag_empty tree_x_a false = false
  /\ existsb has_attr (json_array_instances tree_x_a) = true
  /\ json_print_leaf_list json_print_nodes 1 None tree_x_a false
     = (json_array_head 1 None tree_x_a
        ++ json_instance_array json_print_nodes 1 None tree_x_a false
        ++ json_attrs_array 1 None tree_x_a)%string.
Proof.
  destruct (json_leaflist_attributes_in_parallel_array json_print_nodes 1 None
              tree_x_a false eq_refl) as (Hattrs & _).
  split; [reflexivity|]. split; [reflexivity|]. exact (Hattrs eq_refl eq_refl).
Defined.

(** ** The resolver and the scenarios of the specification, run *)


(** scenario 2: union of identityref and string, prefix in scope *)
Example scenario_union_identityref :
  leaf_outcome 1%positive
    (xml_get_value (E := resolution_ok) ctx_m 1%positive xml_v_prefixed 0 state_leaf_v)
  = Some (EXIT_SUCCESS, Some (LY_TYPE_IDENT, Some "m:id1")).
Proof. vm_compute. reflexivity. Qed.

(** scenario 2: the same text with no such prefix in scope *)
Example scenario_union_string :
  leaf_outcome 1%positive
    (xml_get_value (E := resolution_ok) ctx_m 1%positive xml_v_plain 0 state_leaf_v)
  = Some (EXIT_SUCCESS, Some (LY_TYPE_STRING, Some "p:id1")).
Proof. vm_compute. reflexivity. Qed.

(** scenario 4: the unknown element in strict mode *)
Example scenario_strict_unknown_element :
  (fun r : option ptr * pstate => (r.1, ly_errno r.2, vlog r.2))
    <$> lyd_parse_xml (E := resolution_ok) (Some ctx_m) (Some xml_root_unknown)
          (@LYD_OPT_STRICT resolution_ok) empty_state
  = Some (None, LY_EVALID, [LYE_INELEM]).
Proof. vm_compute. reflexivity. Qed.

(** two [x] elements are built as a ring of two siblings *)
Example scenario_two_siblings :
  (fun r : option ptr * pstate =>
     (r.1, links (heap r.2) 1%positive, links (heap r.2) 2%positive))
    <$> lyd_parse_xml (E := resolution_ok) (Some ctx_m) (Some xml_root_xs) 0 empty_state
  = Some (Some 1%positive,
          Some (Some 2%positive, Some 2%positive),
          Some (None, Some 1%positive)).
Proof. vm_compute. reflexivity. Qed.

(** ** Further properties of the parser *)

Lemma data_candidates_from_concrete n r :
  In r (data_candidates_from n) ->
  s_nodetype r <> LYS_GROUPING /\ nodetype_in r LYS_TRANSPARENT = false.
Proof.
  revert r. induction n as [n IHc IHn] using lys_node_chain_ind. intros r.
  destruct n as [a nm fl md nt ty ch nx]; simpl in *.
  assert (Hrest : In r match nx with
                       | Some m => data_candidates_from m
                       | None => []
                       end ->
                  s_nodetype r <> LYS_GROUPING
                  /\ nodetype_in r LYS_TRANSPARENT = false).
  { destruct nx as [m|]; [apply (IHn m eq_refl)|intros []]. }
  destruct (Z.eqb_spec nt LYS_GROUPING) as [Hg|Hg]; [exact Hrest|].
  destruct (nodetype_in (Lys_node a nm fl md nt ty ch nx) LYS_TRANSPARENT) eqn:Ht.
  - intros Hin. apply in_app_or in Hin as [Hin|Hin]; [|exact (Hrest Hin)].
    destruct ch as [c|]; [exact (IHc c eq_refl r Hin)|destruct Hin].
  - intros [<-|Hin]; [|exact (Hrest Hin)]. split; [exact Hg|exact Ht].
Qed.

(** X1. The resolver never returns a grouping, a choice, a case, a uses
    or an input or output node: the schema node of a data node found
    below a parent is a node that data can instantiate or an rpc or
    notification. *)
Theorem xml_data_search_schemanode_skips_structure
  (xml : lyxml_elem) (start : option lys_node) (r : lys_node) :
  xml_data_search_schemanode xml start = Some r ->
  s_nodetype r <> LYS_GROUPING
  /\ Z.land (s_nodetype r) LYS_CHOICE = 0
  /\ Z.land (s_nodetype r) LYS_CASE = 0
  /\ Z.land (s_nodetype r) LYS_USES = 0
  /\ Z.land (s_nodetype r) LYS_INPUT = 0
  /\ Z.land (s_nodetype r) LYS_OUTPUT = 0.
Proof.
  destruct start as [s|]; [|discriminate]. simpl.
  rewrite search_from_is_find. intros Hf.
  apply List.find_some in Hf as [Hin _].
  apply data_candidates_from_concrete in Hin as [Hg Ht].
  split; [exact Hg|].
  unfold nodetype_in, LYS_TRANSPARENT in Ht.
  apply negb_false_iff, Z.eqb_eq in Ht.
  rewrite !Z.land_lor_distr_r in Ht.
  repeat (apply Z.lor_eq_0_iff in Ht as [? Ht]).
  repeat split; assumption.
Qed.

Lemma xml_data_search_schemanode_skips_structure_witness :
  xml_data_search_schemanode xml_x_b (Some grouping_g) = Some leaflist_x
  /\ s_nodetype leaflist_x <> LYS_GROUPING
  /\ Z.land (s_nodetype leaflist_x) LYS_CHOICE = 0.
Proof.
  assert (H : xml_data_search_schemanode xml_x_b (Some grouping_g) = Some leaflist_x)
    by reflexivity.
  split; [exact H|].
  destruct (xml_data_search_schemanode_skips_structure _ _ _ H) as (Hg & Hc & _).
  split; assumption.
Defined.

(** X2. At the top level the schema node is looked up in the data of
    the first module of the context that has the namespace of the
    element, and there by the name alone, among the top-level nodes
    only: a later module of the same namespace is never consulted, and
    nothing is skipped or entered. *)
Theorem xml_root_schemanode_first_module
  (xml : lyxml_elem) (list : list (lys_module * option lys_node)) :
  xml_root_schemanode xml list
  = match List.find (fun md => ptr_eqb_opt (m_ns (fst md)) (x_ns_value xml)) list with
    | Some (_, Some d) =>
        List.find (fun s => ptr_eqb (s_name s) (x_name xml)) (lys_siblings_from d)
    | _ => None
    end.
Proof.
  assert (Hfrom : forall d,
             xml_root_schemanode_from xml d
             = List.find (fun s => ptr_eqb (s_name s) (x_name xml))
                 (lys_siblings_from d)).
  { induction d as [d _ IHn] using lys_node_chain_ind.
    destruct d as [a nm fl md nt ty ch nx]; simpl in *.
    destruct (ptr_eqb nm (x_name xml)); [reflexivity|].
    destruct nx as [m|]; [apply IHn; reflexivity|reflexivity]. }
  induction list as [|[m data] rest IH]; simpl; [reflexivity|].
  destruct (ptr_eqb_opt (m_ns m) (x_ns_value xml)); [|exact IH].
  destruct data as [d|]; [apply Hfrom|reflexivity].
Qed.

Section ParserErrors.
Context {E : Externals}.

(** X3. The value [xml_parse_data] returns is 0 or -1; with -1 no node
    is left in the result, and a node that is left is the one this
    call allocated, never a node that was in the store. *)
Theorem xml_parse_data_status
  (ctx : ly_ctx) (xml : lyxml_elem) (schema_parent : option lys_node)
  (parent prv : option ptr) (options : Z) (st st' : pstate) (r : Z)
  (result : option ptr) :
  xml_parse_data ctx xml schema_parent parent prv options st = Some (r, result, st') ->
  (r = 0 \/ r = -1)
  /\ (r = -1 -> result = None)
  /\ (forall p, result = Some p -> p = fresh (dom (heap st)) /\ heap st !! p = None).
Proof.
  assert (Hfresh : forall sch p hc st1,
             xml_alloc_node sch st = Some (p, hc, st1) ->
             p = fresh (dom (heap st)) /\ heap st !! p = None).
  { unfold xml_alloc_node. intros sch p hc st1 Ha.
    assert (p = fresh (dom (heap st))) as ->
      by (repeat case_match; simplify_eq; reflexivity).
    split; [reflexivity|]. apply not_elem_of_dom, is_fresh. }
  intros H. destruct xml as [nm ns ct at' ch nx].
  cbn [xml_parse_data] in H.
  unfold xml_parse_data_error, xml_parse_data_clear, mbind, option_bind in H.
  repeat (case_match; simplify_eq);
    (split; [auto|split; [auto; discriminate|intros ? ?; simplify_eq]]).
  all: eauto.
Qed.

(** X4. An element found below a data node whose schema offers no
    candidate that accepts it is an error (unknown element, -1) in
    strict mode and whenever a module of the context has its
    namespace; otherwise it is skipped: 0, no node, and the state as
    it was. *)
Theorem xml_parse_data_unknown_child
  (ctx : ly_ctx) (xml : lyxml_elem) (p : ptr) (pn : lyd_node) (ps : lys_node)
  (prv : option ptr) (options : Z) (st : pstate) :
  heap st !! p = Some pn -> schema pn = Some ps ->
  is_Some (x_ns_value xml) ->
  (forall n, In n (data_candidates (s_child ps)) -> schema_accepts xml n = false) ->
  xml_parse_data ctx xml None (Some p) prv options st
  = if has_flag options LYD_OPT_STRICT
       || bool_decide (is_Some (ly_ctx_get_module_by_ns ctx (x_ns_value xml)))
    then Some (-1, None, LOGVAL LYE_INELEM st)
    else Some (0, None, st).
Proof.
  intros Hp Hs Hns Hnone.
  assert (Hfind : xml_find_schema ctx xml None (Some p) st = Some None).
  { unfold xml_find_schema. rewrite Hp, Hs. f_equal.
    destruct (s_child ps) as [c|]; [|reflexivity]. simpl.
    rewrite search_from_is_find.
    destruct (List.find _ _) as [r|] eqn:Hf; [|reflexivity].
    apply List.find_some in Hf as [Hin Hacc].
    rewrite (Hnone r Hin) in Hacc. discriminate. }
  destruct xml as [nm ns ct at' ch nx]. cbn [xml_parse_data].
  rewrite (bool_decide_eq_true_2 _ Hns). cbn [negb].
  rewrite Hfind. cbn [mbind option_bind].
  destruct (_ || _); reflexivity.
Qed.

(** X5. A schema node that is found but is of a type that data cannot
    instantiate (at the top level, where the lookup goes by name only,
    a choice or a grouping for instance) ends the call with the
    internal error: -1, no node, [ly_errno] set to [LY_EINT], nothing
    logged as a validation error and nothing allocated. *)
Theorem xml_parse_data_uninstantiable
  (ctx : ly_ctx) (xml : lyxml_elem) (schema_parent : option lys_node)
  (parent prv : option ptr) (options : Z) (st : pstate) (sch : lys_node) :
  is_Some (x_ns_value xml) ->
  xml_find_schema ctx xml schema_parent parent st = Some (Some sch) ->
  xml_instantiable sch = false ->
  (has_flag options LYD_OPT_EDIT = true -> xml_check_edit_attrs sch xml = None) ->
  xml_parse_data ctx xml schema_parent parent prv options st
  = Some (-1, None, Pstate (heap st) LY_EINT (vlog st) (unres st)).
Proof.
  intros Hns Hfind Hinst Hedit.
  destruct xml as [nm ns ct at' ch nx]. cbn [xml_parse_data].
  rewrite (bool_decide_eq_true_2 _ Hns). cbn [negb].
  rewrite Hfind. cbn [mbind option_bind].
  assert (Hcheck : (if has_flag options LYD_OPT_EDIT
                    then xml_check_edit_attrs sch (Lyxml_elem nm ns ct at' ch nx)
                    else None) = None).
  { destruct (has_flag options LYD_OPT_EDIT); [apply Hedit|]; reflexivity. }
  rewrite Hcheck.
  assert (Halloc : xml_alloc_node sch st = None).
  { unfold xml_instantiable, type_in in Hinst. cbn [existsb] in Hinst.
    unfold xml_alloc_node.
    repeat (apply orb_false_elim in Hinst as [? Hinst]).
    repeat match goal with H : Z.eqb _ _ = false |- _ => rewrite H; clear H end.
    reflexivity. }
  rewrite Halloc. reflexivity.
Qed.

(** X6. The attributes of a new node are, behind those it had, the
    standard attributes of the element whose namespace a module of the
    context has, in the order of the element, each with that module,
    its name and its value; namespace declarations, attributes without
    a namespace and attributes of an unknown namespace are dropped. *)
Theorem xml_copy_attrs_keeps_known_in_order
  (ctx : ly_ctx) (attrs : list lyxml_attr) (acc : list lyd_attr) :
  xml_copy_attrs ctx attrs acc = (acc ++ omap (xml_data_attr ctx) attrs)%list.
Proof.
  revert acc. induction attrs as [|a rest IH]; intros acc.
  - simpl. rewrite app_nil_r. reflexivity.
  - cbn [xml_copy_attrs omap list_omap]. unfold xml_data_attr at 1.
    destruct (a_type a); [|apply IH].
    destruct (a_ns a) as [ns|]; [|apply IH].
    destruct (ly_ctx_get_module_by_ns ctx (ns_value ns)) as [m|]; simpl.
    + rewrite IH, <- app_assoc. reflexivity.
    + apply IH.
Qed.

(** X7. References are resolved while a value is decoded exactly when
    none of the options filter, edit, get and get-config is given. *)
Theorem xml_resolve_only_for_complete_data (options : Z) :
  (xml_resolve options = 1 <->
     has_flag options LYD_OPT_FILTER = false /\ has_flag options LYD_OPT_EDIT = false
     /\ has_flag options LYD_OPT_GET = false /\ has_flag options LYD_OPT_GETCONFIG = false)
  /\ (xml_resolve options = 1 \/ xml_resolve options = 0).
Proof.
  unfold xml_resolve, has_flag.
  rewrite !Z.land_lor_distr_r.
  split.
  - rewrite !negb_false_iff, !Z.eqb_eq.
    destruct (Z.eqb_spec (Z.lor (Z.land options LYD_OPT_FILTER)
                (Z.lor (Z.land options LYD_OPT_EDIT)
                   (Z.lor (Z.land options LYD_OPT_GET)
                      (Z.land options LYD_OPT_GETCONFIG)))) 0) as [H0|H0]; cbn [negb].
    + split; [intros _|reflexivity].
      repeat (apply Z.lor_eq_0_iff in H0 as [? H0]). repeat split; assumption.
    + split; [discriminate|]. intros (H1 & H2 & H3 & H4). exfalso. apply H0.
      rewrite H1, H2, H3, H4. reflexivity.
  - destruct (negb _); [right|left]; reflexivity.
Qed.

(** X8. A leaf or leaf-list of a filter that has no text is a selection
    node: the call succeeds at once, whatever the type of the leaf, a
    union included; the decoder and the translation are not called,
    and the node is left with no text and with the base of the schema
    type as its value type. *)
Theorem xml_get_value_filter_selection
  (ctx : ly_ctx) (node : ptr) (xml : lyxml_elem) (options : Z) (st : pstate)
  (leaf0 : lyd_node) (sch : lys_node) :
  heap st !! node = Some leaf0 -> schema leaf0 = Some sch ->
  has_flag options LYD_OPT_FILTER = true -> x_content xml = None ->
  xml_get_value ctx node xml options st
  = Some (EXIT_SUCCESS,
          set_heap (<[node := set_value_type (base (s_type sch))
                                (set_value_str None leaf0)]> (heap st)) st).
Proof.
  intros Hl Hs Hf Hc. unfold xml_get_value. rewrite Hl, Hs, Hf, Hc. reflexivity.
Qed.

(** X9. A root element without children gives no tree: the result is
    NULL with [ly_errno] set to [LY_EVALID], for every option set,
    without a validation message and with the store as it was. *)
Theorem lyd_parse_xml_empty_document
  (ctx : ly_ctx) (parent : option lys_node) (root : lyxml_elem) (options : Z)
  (st : pstate) :
  x_child root = None ->
  lyd_parse_xml_ (Some ctx) parent (Some root) options st
  = Some (None, Pstate (heap st) LY_EVALID (vlog st) []).
Proof.
  intros Hc. unfold lyd_parse_xml_. rewrite Hc. reflexivity.
Qed.

(** X10. A document whose first top-level element has no namespace is
    refused for every option set: the result is NULL, [ly_errno] is
    [LY_EVALID], the missing namespace is the one message logged, and
    the store is as it was. *)
Theorem lyd_parse_xml_missing_namespace
  (ctx : ly_ctx) (parent : option lys_node) (root first : lyxml_elem) (options : Z)
  (st : pstate) :
  x_child root = Some first -> x_ns_value first = None ->
  lyd_parse_xml_ (Some ctx) parent (Some root) options st
  = Some (None, Pstate (heap st) LY_EVALID (LYE_XML_MISS :: vlog st) []).
Proof.
  intros Hc Hns. unfold lyd_parse_xml_. rewrite Hc.
  destruct first as [nm ns ct at' ch nx].
  cbn [lyd_parse_xml_loop xml_parse_data]. rewrite Hns. reflexivity.
Qed.

End ParserErrors.

(** ** The link-in and the members it leaves alone *)

Lemma same_payloads_refl h : same_payloads h h.
Proof.
  split; [reflexivity|]. intros q n Hq. exists n. split; [exact Hq|].
  repeat split.
Qed.

Lemma same_payloads_trans h1 h2 h3 :
  same_payloads h1 h2 -> same_payloads h2 h3 -> same_payloads h1 h3.
Proof.
  intros [Hd1 H1] [Hd2 H2]. split; [congruence|].
  intros q n Hq. destruct (H1 q n Hq) as (n' & Hq' & Hp).
  destruct (H2 q n' Hq') as (n'' & Hq'' & Hp'). exists n''. split; [exact Hq''|].
  destruct Hp as (Ha & Hb & Hc & Hd & He & Hf).
  destruct Hp' as (Ha' & Hb' & Hc' & Hd' & He' & Hf').
  repeat split; congruence.
Qed.

Lemma same_payloads_insert h p n f :
  h !! p = Some n -> same_payload n (f n) -> same_payloads h (<[p := f n]> h).
Proof.
  intros Hp Hf. split.
  - rewrite dom_insert_L. apply elem_of_dom_2 in Hp.
    apply subseteq_union_1_L, singleton_subseteq_l. exact Hp.
  - intros q m Hq. destruct (decide (q = p)) as [->|Hne].
    + rewrite lookup_insert_eq. exists (f n). split; [reflexivity|]. congruence.
    + rewrite lookup_insert_ne by congruence. exists m. split; [exact Hq|].
      repeat split.
Qed.

Lemma heap_store_payload p f h h' :
  (forall n, same_payload n (f n)) ->
  heap_store p f h = Some h' -> same_payloads h h'.
Proof.
  unfold heap_store. intros Hf Hs. destruct (h !! p) as [n|] eqn:Hp; [|discriminate].
  injection Hs as <-. apply same_payloads_insert; [exact Hp|apply Hf].
Qed.

(** X11. Linking a new node in changes pointers only: no node is
    allocated or released, and every node of the store keeps its
    schema, its attributes and its value. *)
Theorem link_in_changes_pointers_only
  (parent prv : option ptr) (result : ptr) (h h' : gmap positive lyd_node) :
  link_in parent prv result h = Some h' ->
  dom h' = dom h
  /\ forall q n, h !! q = Some n ->
       exists n', h' !! q = Some n' /\ same_payload n n'.
Proof.
  assert (Hset : forall v n, same_payload n (set_parent v n)
                             /\ same_payload n (set_prev v n)
                             /\ same_payload n (set_next v n)
                             /\ same_payload n (set_child v n)).
  { intros v n. repeat split. }
  intros Hl. change (same_payloads h h').
  unfold link_in in Hl.
  destruct (link_parent parent result h) as [h2|] eqn:Hp; [|discriminate].
  cbn [mbind option_bind] in Hl.
  apply (same_payloads_trans _ h2).
  - unfold link_parent in Hp.
    destruct (heap_store result (set_parent parent) h) as [h1|] eqn:H1; [|discriminate].
    cbn [mbind option_bind] in Hp.
    apply (same_payloads_trans _ h1).
    + apply (heap_store_payload _ _ _ _ (fun n => proj1 (Hset parent n)) H1).
    + destruct parent as [p|]; [|injection Hp as <-; apply same_payloads_refl].
      destruct (h1 !! p) as [pn|] eqn:Hpn; [|discriminate].
      cbn [mbind option_bind] in Hp.
      destruct (child pn); injection Hp as <-; [apply same_payloads_refl|].
      apply (same_payloads_insert h1 p pn (set_child (Some result)) Hpn).
      apply Hset.
  - unfold link_sibling in Hl. destruct prv as [pv|].
    + destruct (heap_store result (set_prev (Some pv)) h2) as [h3|] eqn:H3;
        [|discriminate].
      cbn [mbind option_bind] in Hl.
      destruct (heap_store pv (set_next (Some result)) h3) as [h4|] eqn:H4;
        [|discriminate].
      cbn [mbind option_bind] in Hl.
      destruct (first_sibling (size h4) h4 pv pv) as [diter|]; [|discriminate].
      cbn [mbind option_bind] in Hl.
      apply (same_payloads_trans _ h3);
        [apply (heap_store_payload _ _ _ _ (fun n => proj1 (proj2 (Hset _ n))) H3)|].
      apply (same_payloads_trans _ h4);
        [apply (heap_store_payload _ _ _ _
                  (fun n => proj1 (proj2 (proj2 (Hset _ n)))) H4)|].
      apply (heap_store_payload _ _ _ _ (fun n => proj1 (proj2 (Hset _ n))) Hl).
    + apply (heap_store_payload _ _ _ _ (fun n => proj1 (proj2 (Hset _ n))) Hl).
Qed.

Lemma link_in_changes_pointers_only_witness :
  exists h',
    link_in None (Some 1%positive) 2%positive heap_two_nodes = Some h'
    /\ dom h' = dom heap_two_nodes
    /\ forall q n, heap_two_nodes !! q = Some n ->
         exists n', h' !! q = Some n' /\ same_payload n n'.
Proof.
  destruct (link_in None (Some 1%positive) 2%positive heap_two_nodes) as [h'|] eqn:Hl;
    [|vm_compute in Hl; discriminate].
  exists h'. split; [reflexivity|].
  exact (link_in_changes_pointers_only None (Some 1%positive) 2%positive
           heap_two_nodes h' Hl).
Defined.

(** ** The further properties of the parser, on small inputs *)

Lemma xml_parse_data_status_witness :
  exists r result st',
    xml_parse_data (E := resolution_ok) ctx_m xml_x_b None None None 0 empty_state
    = Some (r, result, st')
    /\ (r = 0 \/ r = -1)
    /\ (r = -1 -> result = None)
    /\ (forall p, result = Some p ->
          p = fresh (dom (heap empty_state)) /\ heap empty_state !! p = None).
Proof.
  destruct (xml_parse_data (E := resolution_ok) ctx_m xml_x_b None None None 0
              empty_state) as [[[r result] st']|] eqn:Hrun;
    [|vm_compute in Hrun; discriminate].
  exists r, result, st'. split; [reflexivity|].
  exact (xml_parse_data_status (E := resolution_ok) ctx_m xml_x_b None None None 0
           empty_state st' r result Hrun).
Defined.

Lemma xml_parse_data_unknown_child_witness :
  xml_parse_data (E := resolution_ok) ctx_m xml_x_b None (Some 1%positive) None 0
    state_list_l
  = Some (-1, None, LOGVAL LYE_INELEM state_list_l).
Proof.
  assert (Hns : is_Some (x_ns_value xml_x_b)) by (eexists; reflexivity).
  assert (Hnone : forall n, In n (data_candidates (s_child list_l)) ->
                    schema_accepts xml_x_b n = false).
  { intros n [<-|[]]. reflexivity. }
  exact (xml_parse_data_unknown_child (E := resolution_ok) ctx_m xml_x_b 1%positive
           (set_schema (Some list_l) zero_node) list_l None 0 state_list_l
           eq_refl eq_refl Hns Hnone).
Defined.

Lemma xml_parse_data_uninstantiable_witness :
  xml_find_schema ctx_choice xml_c None None empty_state = Some (Some choice_c)
  /\ xml_parse_data (E := resolution_ok) ctx_choice xml_c None None None 0 empty_state
     = Some (-1, None, Pstate (heap empty_state) LY_EINT (vlog empty_state)
                         (unres empty_state)).
Proof.
  assert (Hns : is_Some (x_ns_value xml_c)) by (eexists; reflexivity).
  assert (Hedit : has_flag 0 (@LYD_OPT_EDIT resolution_ok) = true ->
                  xml_check_edit_attrs (E := resolution_ok) choice_c xml_c = None).
  { intros _. reflexivity. }
  split; [reflexivity|].
  exact (xml_parse_data_uninstantiable (E := resolution_ok) ctx_choice xml_c None None
           None 0 empty_state choice_c Hns eq_refl eq_refl Hedit).
Defined.

Lemma xml_get_value_filter_selection_witness :
  xml_get_value (E := resolution_ok) ctx_m 1%positive xml_c 4 state_leaf_v
  = Some (EXIT_SUCCESS,
          set_heap (<[1%positive := set_value_type LY_TYPE_UNION
                                      (set_value_str None
                                         (set_schema (Some leaf_v) zero_node))]>
                      (heap state_leaf_v)) state_leaf_v).
Proof.
  exact (xml_get_value_filter_selection (E := resolution_ok) ctx_m 1%positive xml_c 4
           state_leaf_v (set_schema (Some leaf_v) zero_node) leaf_v
           eq_refl eq_refl eq_refl eq_refl).
Defined.

Lemma lyd_parse_xml_empty_document_witness :
  lyd_parse_xml_ (E := resolution_ok) (Some ctx_m) None (Some xml_root_empty) 0
    empty_state
  = Some (None, Pstate (heap empty_state) LY_EVALID (vlog empty_state) []).
Proof.
  exact (lyd_parse_xml_empty_document (E := resolution_ok) ctx_m None xml_root_empty 0
           empty_state eq_refl).
Defined.

Lemma lyd_parse_xml_missing_namespace_witness :
  lyd_parse_xml_ (E := resolution_ok) (Some ctx_m) None (Some xml_root_no_ns) 0
    empty_state
  = Some (None, Pstate (heap empty_state) LY_EVALID
                  (LYE_XML_MISS :: vlog empty_state) []).
Proof.
  exact (lyd_parse_xml_missing_namespace (E := resolution_ok) ctx_m None
           xml_root_no_ns xml_no_ns 0 empty_state eq_refl eq_refl).
Defined.

(** ** Further properties of the JSON printer *)

(** X12. The text of a value does not depend on the two flag bits of
    [value_type] above the mask: a leaf with an unresolved leafref or
    instance-identifier is printed by the base that the other bits
    hold. *)
Theorem json_print_value_ignores_unresolved_flags
  (sch : lys_node) (attrs : list lyd_attr) (nx ch : option lyd_tree)
  (vs : option string) (lr : option lyd_tree) (vt flags : Z) :
  Z.land flags LY_DATA_TYPE_MASK = 0 ->
  json_print_value (Lyd_tree sch attrs nx ch vs lr (Z.lor vt flags))
  = json_print_value (Lyd_tree sch attrs nx ch vs lr vt).
Proof.
  intros Hflags.
  assert (Hm : Z.land (Z.lor vt flags) LY_DATA_TYPE_MASK = Z.land vt LY_DATA_TYPE_MASK).
  { rewrite Z.land_lor_distr_l, Hflags, Z.lor_0_r. reflexivity. }
  cbn [json_print_value t_value_type t_value_str t_leafref].
  rewrite Hm. reflexivity.
Qed.

Lemma json_print_value_ignores_unresolved_flags_witness :
  json_print_value tree_unresolved
  = json_print_value (Lyd_tree leaf_k [] None None (Some "1") None LY_TYPE_STRING).
Proof.
  exact (json_print_value_ignores_unresolved_flags leaf_k [] None None (Some "1") None
           LY_TYPE_STRING LY_TYPE_LEAFREF_UNRES eq_refl).
Defined.

(** X13. The attributes of a node are printed as members separated by a
    comma and a newline, in their order, with a newline and no comma
    behind the last; a node without attributes prints nothing. *)
Theorem json_print_attrs_separated (level : nat) (node : lyd_tree) :
  json_print_attrs level node
  = match t_attr node with
    | [] => ""
    | _ => String.concat ("," ++ nl) (List.map (json_attr_text level node) (t_attr node))
           ++ nl
    end.
Proof.
  unfold json_print_attrs. destruct (t_attr node) as [|a rest]; [reflexivity|].
  revert a. induction rest as [|b rest IH]; intros a.
  - cbn [json_print_attrs_from List.map String.concat]. unfold json_attr_text.
    rewrite !string_app_assoc, string_app_nil_r. reflexivity.
  - change (json_print_attrs_from level node (a :: b :: rest))
      with (INDENT level
            ++ (if negb (N.eqb (m_addr (da_module a)) (m_addr (s_module (t_schema node))))
                then dq ++ c_chars (m_name (da_module a)) ++ ":" ++ da_name a ++ dq
                else dq ++ da_name a ++ dq)
            ++ ":" ++ dq ++ da_value a ++ dq ++ ("," ++ nl)
            ++ json_print_attrs_from level node (b :: rest)).
    rewrite IH.
    change (String.concat ("," ++ nl)
              (List.map (json_attr_text level node) (a :: b :: rest)))
      with (json_attr_text level node a ++ ("," ++ nl)
            ++ String.concat ("," ++ nl)
                 (List.map (json_attr_text level node) (b :: rest))).
    unfold json_attr_text at 2. rewrite !string_app_assoc. reflexivity.
Qed.

(** one turn of the walk in terms of the member it prints *)
Lemma json_print_node_member nodes level parent before node :
  json_printable node = true ->
  json_print_node nodes level parent before node
  = if is_list_like node && json_list_printed node before then ""
    else (if json_prev_has_next before then "," ++ nl else "")
         ++ json_print_member nodes level parent node.
Proof.
  unfold json_printable, type_in, json_print_node, json_print_member, is_list_like.
  cbn [existsb]. remember (s_nodetype (t_schema node)) as t eqn:Ht. clear Ht.
  intros Hp.
  destruct (Z.eqb_spec t LYS_RPC) as [Et|_]; [subst t; reflexivity|].
  destruct (Z.eqb_spec t LYS_NOTIF) as [Et|_]; [subst t; reflexivity|].
  destruct (Z.eqb_spec t LYS_CONTAINER) as [Et|_]; [subst t; reflexivity|].
  destruct (Z.eqb_spec t LYS_LEAF) as [Et|_]; [subst t; reflexivity|].
  destruct (Z.eqb_spec t LYS_LEAFLIST) as [Et|_];
    [subst t; cbn [orb andb]; destruct (json_list_printed node before); reflexivity|].
  destruct (Z.eqb_spec t LYS_LIST) as [Et|_];
    [subst t; cbn [orb andb]; destruct (json_list_printed node before); reflexivity|].
  destruct (Z.eqb_spec t LYS_ANYXML) as [Et|_]; [subst t; reflexivity|discriminate].
Qed.

Lemma json_print_nodes_from_members level parent before node :
  before <> [] ->
  (forall n, In n (lyd_siblings_from node) -> json_printable n = true) ->
  json_print_nodes_from level parent before node
  = String.concat ""
      (List.map (fun n => ("," ++ nl) ++ json_print_member json_print_nodes level parent n)
         (json_first_instances before (lyd_siblings_from node)))
    ++ nl.
Proof.
  revert before. induction node as [node IH] using lyd_next_ind.
  intros before Hne Hall.
  rewrite json_print_nodes_from_step.
  rewrite json_print_node_member
    by (apply Hall; destruct node; left; reflexivity).
  assert (Hcomma : json_prev_has_next before = true)
    by (destruct before; [contradiction|reflexivity]).
  rewrite Hcomma.
  assert (Hsib : lyd_siblings_from node
                 = node :: match t_next node with
                           | Some nx => lyd_siblings_from nx
                           | None => []
                           end) by (destruct node; reflexivity).
  rewrite Hsib in Hall |- *. cbn [json_first_instances].
  rewrite List.map_app.
  assert (Hrest : match t_next node with
                  | Some nx => json_print_nodes_from level parent (node :: before) nx
                  | None => nl
                  end
                  = String.concat ""
                      (List.map
                         (fun n => ("," ++ nl)
                                   ++ json_print_member json_print_nodes level parent n)
                         (json_first_instances (node :: before)
                            match t_next node with
                            | Some nx => lyd_siblings_from nx
                            | None => []
                            end))
                    ++ nl).
  { destruct (t_next node) as [nx|] eqn:Hnx; [|reflexivity].
    apply (IH nx eq_refl); [discriminate|].
    intros n Hn. apply Hall. right. exact Hn. }
  rewrite Hrest.
  destruct (is_list_like node && json_list_printed node before).
  - reflexivity.
  - cbn [List.map app]. rewrite concat_empty_cons, !string_app_assoc. reflexivity.
Qed.

(** X14. Over siblings of the node types the printer has a case for,
    [json_print_nodes] prints one member for every container, leaf and
    anyxml node and one for the first instance of every list and
    leaf-list, in the order of the siblings, separated by a comma and a
    newline, with a newline and no comma behind the last. *)
Theorem json_print_nodes_members_separated
  (level : nat) (parent : option lyd_tree) (first : lyd_tree) :
  (forall n, In n (lyd_siblings_from first) -> json_printable n = true) ->
  json_print_nodes level parent (Some first)
  = String.concat ("," ++ nl)
      (List.map (json_print_member json_print_nodes level parent)
         (json_first_instances [] (lyd_siblings_from first)))
    ++ nl.
Proof.
  intros Hall. cbn [json_print_nodes].
  rewrite json_print_nodes_from_step.
  rewrite json_print_node_member
    by (apply Hall; destruct first; left; reflexivity).
  assert (Hsib : lyd_siblings_from first
                 = first :: match t_next first with
                            | Some nx => lyd_siblings_from nx
                            | None => []
                            end) by (destruct first; reflexivity).
  rewrite Hsib in Hall |- *. cbn [json_first_instances json_list_printed].
  rewrite andb_false_r. cbn [app List.map json_prev_has_next].
  rewrite concat_separated, List.map_map.
  destruct (t_next first) as [nx|] eqn:Hnx.
  - rewrite json_print_nodes_from_members;
      [|discriminate|intros n Hn; apply Hall; right; exact Hn].
    rewrite !string_app_assoc. reflexivity.
  - cbn [json_first_instances List.map String.concat].
    rewrite !string_app_assoc. reflexivity.
Qed.

Lemma json_print_nodes_members_separated_witness :
  json_print_nodes 1 None (Some tree_k_then_xs)
  = String.concat ("," ++ nl)
      (List.map (json_print_member json_print_nodes 1 None) [tree_k_then_xs; tree_x_a])
    ++ nl.
Proof.
  assert (Hall : forall n, In n (lyd_siblings_from tree_k_then_xs) ->
                   json_printable n = true).
  { intros n [<-|[<-|[<-|[]]]]; reflexivity. }
  exact (json_print_nodes_members_separated 1 None tree_k_then_xs Hall).
Defined.







(** ** The traversal and the namespace declarations of the XML printer *)

(** induction along the [child] and [next] pointers of a data node *)
Lemma lyd_child_next_ind (P : lyd_tree -> Prop) :
  (forall n,
      (forall c, t_child n = Some c -> P c) ->
      (forall nx, t_next n = Some nx -> P nx) -> P n) ->
  forall n, P n.
Proof.
  intros step. fix IH 1.
  intros [sc at' nx ch vs lr vt]. apply step; simpl.
  - intros c Hc. destruct ch as [c'|]; [|discriminate].
    injection Hc as <-. apply IH.
  - intros m Hm. destruct nx as [m'|]; [|discriminate].
    injection Hm as <-. apply IH.
Qed.

Lemma lyd_preorder_eq n :
  lyd_preorder n
  = (n :: match LY_TREE_DFS_child n with
          | Some c => lyd_preorder c
          | None => []
          end
       ++ match t_next n with
          | Some nx => lyd_preorder nx
          | None => []
          end)%list.
Proof.
  destruct n as [sc at' nx ch vs lr vt]. unfold LY_TREE_DFS_child.
  cbn [lyd_preorder t_schema t_child t_next].
  destruct (nodetype_in sc _); reflexivity.
Qed.

Lemma LY_TREE_DFS_parents_spec above :
  match LY_TREE_DFS_parents above with
  | Some (nx, above') =>
      lyd_preorder_above above = (lyd_preorder nx ++ lyd_preorder_above above')%list
  | None => lyd_preorder_above above = []
  end.
Proof.
  induction above as [|p above IH]; [reflexivity|].
  cbn [LY_TREE_DFS_parents lyd_preorder_above].
  destruct (t_next p) as [nx|]; [reflexivity|exact IH].
Qed.

Lemma LY_TREE_DFS_spec {A : Type} (body : A -> lyd_tree -> A) (fuel : nat) :
  forall elem above acc,
    (length (lyd_preorder elem ++ lyd_preorder_above above) <= fuel)%nat ->
    LY_TREE_DFS fuel body elem above acc
    = Some (fold_left body (lyd_preorder elem ++ lyd_preorder_above above)%list acc).
Proof.
  induction fuel as [|fuel IH]; intros elem above acc Hlen.
  - rewrite lyd_preorder_eq in Hlen. simpl in Hlen. lia.
  - cbn [LY_TREE_DFS]. unfold LY_TREE_DFS_END.
    rewrite (lyd_preorder_eq elem) in Hlen |- *.
    destruct (LY_TREE_DFS_child elem) as [c|].
    + rewrite IH.
      * cbn [lyd_preorder_above app fold_left]. rewrite <- !app_assoc. reflexivity.
      * cbn [lyd_preorder_above]. simpl in Hlen. rewrite <- !app_assoc in Hlen. lia.
    + destruct (t_next elem) as [nx|].
      * rewrite IH; [reflexivity|]. simpl in Hlen. lia.
      * pose proof (LY_TREE_DFS_parents_spec above) as Hp.
        destruct (LY_TREE_DFS_parents above) as [[nx above']|].
        -- rewrite IH; rewrite Hp in *; [reflexivity|]. simpl in Hlen. lia.
        -- rewrite Hp. reflexivity.
Qed.

(** X16. The traversal [LY_TREE_DFS] of data nodes ends and runs its
    block once on every node that is to be visited from the start
    node on, in preorder: the start node, the nodes below it (nothing
    below a leaf, a leaf-list or an anyxml), then its later siblings
    with the nodes below them. *)
Theorem LY_TREE_DFS_visits_in_preorder {A : Type}
  (body : A -> lyd_tree -> A) (start : lyd_tree) (acc : A) (more : nat) :
  LY_TREE_DFS (length (lyd_preorder start) + more) body start [] acc
  = Some (fold_left body (lyd_preorder start) acc).
Proof.
  rewrite (LY_TREE_DFS_spec body _ start [] acc).
  - cbn [lyd_preorder_above]. rewrite app_nil_r. reflexivity.
  - cbn [lyd_preorder_above]. rewrite app_nil_r. lia.
Qed.

Lemma lyd_preorder_length n : (length (lyd_preorder n) <= lyd_nodes n)%nat.
Proof.
  induction n as [n IHc IHn] using lyd_child_next_ind.
  destruct n as [sc at' nx ch vs lr vt].
  cbn [lyd_preorder lyd_nodes t_schema t_child t_next] in *.
  cbn [length]. rewrite length_app.
  assert (Hc : (length (if nodetype_in sc (Z.lor LYS_LEAF (Z.lor LYS_LEAFLIST LYS_ANYXML))
                        then []
                        else match ch with
                             | Some c => lyd_preorder c
                             | None => []
                             end)
                <= match ch with Some c => lyd_nodes c | None => O end)%nat).
  { destruct (nodetype_in sc _); [simpl; lia|].
    destruct ch as [c|]; [apply IHc; reflexivity|simpl; lia]. }
  assert (Hn : (length match nx with
                       | Some m => lyd_preorder m
                       | None => []
                       end
                <= match nx with Some m => lyd_nodes m | None => O end)%nat).
  { destruct nx as [m|]; [apply IHn; reflexivity|simpl; lia]. }
  lia.
Qed.

(** the list of modules after one more attribute *)
Lemma xml_print_ns_attr_spec mlist a :
  NoDup (List.map m_addr mlist) ->
  NoDup (List.map m_addr (xml_print_ns_attr mlist a))
  /\ forall x, In x (List.map m_addr (xml_print_ns_attr mlist a))
               <-> In x (List.map m_addr mlist) \/ m_addr (da_module a) = x.
Proof.
  intros Hnd. unfold xml_print_ns_attr.
  destruct (existsb _ mlist) eqn:Hex.
  - split; [exact Hnd|]. intros x. split; [left; assumption|].
    intros [Hin|<-]; [exact Hin|].
    apply List.existsb_exists in Hex as (m & Hm & Heq).
    apply N.eqb_eq in Heq. rewrite Heq. apply List.in_map. exact Hm.
  - cbn [List.map]. split.
    + constructor; [|exact Hnd]. rewrite list_elem_of_In. intros Hin.
      apply List.in_map_iff in Hin as (m & Hm & Hin).
      assert (Ht : existsb (fun m => N.eqb (m_addr (da_module a)) (m_addr m)) mlist
                   = true).
      { apply List.existsb_exists. exists m. split; [exact Hin|].
        apply N.eqb_eq. congruence. }
      congruence.
    + intros x. cbn [In]. tauto.
Qed.

Lemma xml_print_ns_attrs_spec attrs : forall mlist,
  NoDup (List.map m_addr mlist) ->
  NoDup (List.map m_addr (fold_left xml_print_ns_attr attrs mlist))
  /\ forall x, In x (List.map m_addr (fold_left xml_print_ns_attr attrs mlist))
               <-> In x (List.map m_addr mlist)
                   \/ exists a, In a attrs /\ m_addr (da_module a) = x.
Proof.
  induction attrs as [|a attrs IH]; intros mlist Hnd.
  - split; [exact Hnd|]. intros x. cbn [fold_left].
    split; [left; assumption|]. intros [H|(a & [] & _)]. exact H.
  - cbn [fold_left].
    destruct (xml_print_ns_attr_spec mlist a Hnd) as [Hnd1 Hin1].
    destruct (IH _ Hnd1) as [Hnd2 Hin2]. split; [exact Hnd2|].
    intros x. rewrite Hin2, Hin1. split.
    + intros [[H|H]|(b & Hb & H)]; [left; exact H|right..].
      * exists a. split; [left; reflexivity|exact H].
      * exists b. split; [right; exact Hb|exact H].
    + intros [H|(b & [<-|Hb] & H)]; [left; left; exact H|left; right; exact H|].
      right. exists b. split; assumption.
Qed.

Lemma xml_print_ns_nodes_spec nodes : forall mlist,
  NoDup (List.map m_addr mlist) ->
  NoDup (List.map m_addr (fold_left xml_print_ns_attrs nodes mlist))
  /\ forall x, In x (List.map m_addr (fold_left xml_print_ns_attrs nodes mlist))
               <-> In x (List.map m_addr mlist)
                   \/ exists n a, In n nodes /\ In a (t_attr n)
                                  /\ m_addr (da_module a) = x.
Proof.
  induction nodes as [|n nodes IH]; intros mlist Hnd.
  - split; [exact Hnd|]. intros x. cbn [fold_left].
    split; [left; assumption|]. intros [H|(n & a & [] & _)]. exact H.
  - cbn [fold_left]. unfold xml_print_ns_attrs at 2 4.
    destruct (xml_print_ns_attrs_spec (t_attr n) mlist Hnd) as [Hnd1 Hin1].
    destruct (IH _ Hnd1) as [Hnd2 Hin2]. split; [exact Hnd2|].
    intros x. rewrite Hin2, Hin1. split.
    + intros [[H|(a & Ha & H)]|(m & a & Hm & Ha & H)]; [left; exact H|right..].
      * exists n, a. split; [left; reflexivity|split; assumption].
      * exists m, a. split; [right; exact Hm|split; assumption].
    + intros [H|(m & a & [<-|Hm] & Ha & H)]; [left; left; exact H| |].
      * left. right. exists a. split; assumption.
      * right. exists m, a. repeat split; assumption.
Qed.

(** X17. [xml_print_ns] declares the module of every attribute of the
    node and, unless the node is a leaf or a leaf-list, of every node
    below it, each module once and no other module. *)
Theorem xml_print_ns_declares_used_modules_once (node : lyd_tree) :
  xml_print_ns_modelled node = true ->
  exists mlist,
    xml_print_ns_mlist node = Some mlist
    /\ (forall xmlns_text,
          xml_print_ns xmlns_text node
          = Some (String.concat "" (List.map xmlns_text mlist)))
    /\ NoDup (List.map m_addr mlist)
    /\ forall x, In x (List.map m_addr mlist)
                 <-> exists n a, In n (xml_print_ns_scope node) /\ In a (t_attr n)
                                 /\ m_addr (da_module a) = x.
Proof.
  intros Hmod.
  assert (Hrun : xml_print_ns_mlist node
                 = Some (fold_left xml_print_ns_attrs (xml_print_ns_scope node) [])).
  { unfold xml_print_ns_mlist, xml_print_ns_scope, xml_print_ns_modelled in *.
    cbn [fold_left].
    destruct (nodetype_in (t_schema node) (Z.lor LYS_LEAF LYS_LEAFLIST));
      [reflexivity|].
    destruct (t_child node) as [c|]; [|reflexivity].
    destruct (Z.eqb (s_nodetype (t_schema node)) LYS_ANYXML); [discriminate|].
    pose proof (lyd_preorder_length c) as Hlen.
    rewrite (LY_TREE_DFS_spec xml_print_ns_attrs _ c []).
    - cbn [lyd_preorder_above]. rewrite app_nil_r. reflexivity.
    - cbn [lyd_preorder_above]. rewrite app_nil_r. exact Hlen. }
  exists (fold_left xml_print_ns_attrs (xml_print_ns_scope node) []).
  split; [exact Hrun|]. split.
  - intros xmlns_text. unfold xml_print_ns. rewrite Hrun. reflexivity.
  - destruct (xml_print_ns_nodes_spec (xml_print_ns_scope node) [])
      as [Hnd Hin]; [constructor|].
    split; [exact Hnd|]. intros x. rewrite Hin. cbn [List.map In]. tauto.
Qed.

Lemma xml_print_ns_declares_used_modules_once_witness :
  xml_print_ns_mlist tree_top = Some [mod_m; mod_n]
  /\ exists mlist,
       xml_print_ns_mlist tree_top = Some mlist
       /\ (forall xmlns_text,
             xml_print_ns xmlns_text tree_top
             = Some (String.concat "" (List.map xmlns_text mlist)))
       /\ NoDup (List.map m_addr mlist)
       /\ forall x, In x (List.map m_addr mlist)
                    <-> exists n a, In n (xml_print_ns_scope tree_top)
                                    /\ In a (t_attr n)
                                    /\ m_addr (da_module a) = x.
Proof.
  split; [reflexivity|].
  exact (xml_print_ns_declares_used_modules_once tree_top eq_refl).
Defined.

(** ** When a tree is returned *)

Section ParserResult.
Context {E : Externals}.

(** X18. [lyd_parse_xml_] returns a node exactly when the root has
    children, the loop over them ended with 0 and with a node, and the
    resolution of the deferred references returned 0; the node is the
    one the loop left in [result], and the state is the one the
    resolution left, with the deferrals released. In every other case
    the result is NULL. *)
Theorem lyd_parse_xml_returns_node_iff
  (ctx : ly_ctx) (parent : option lys_node) (root : lyxml_elem) (options : Z)
  (st st' : pstate) (p : ptr) :
  lyd_parse_xml_ (Some ctx) parent (Some root) options st = Some (Some p, st')
  <-> exists first st1,
        x_child root = Some first
        /\ lyd_parse_xml_loop ctx parent first options None None
             (Pstate (heap st) (ly_errno st) (vlog st) []) = Some (0, Some p, st1)
        /\ (resolve_unres_data st1).1 = 0
        /\ st' = lyd_parse_cleanup (resolve_unres_data st1).2.
Proof.
  unfold lyd_parse_xml_. split.
  - destruct (x_child root) as [first|]; cbn [mbind option_bind]; [|discriminate].
    destruct (lyd_parse_xml_loop _ _ _ _ _ _ _) as [[[r result] st1]|] eqn:Hloop;
      cbn [mbind option_bind]; [|discriminate].
    destruct (Z.eqb_spec r 0) as [->|_]; cbn [negb].
    + destruct result as [res|]; [|discriminate].
      destruct (resolve_unres_data st1) as [rr st2] eqn:Hres.
      destruct (Z.eqb_spec rr 0) as [->|_]; cbn [negb].
      * intros [= <- <-]. exists first, st1. rewrite Hres.
        repeat split. exact Hloop.
      * destruct (lyd_free_siblings _ _ _); discriminate.
    + destruct (lyd_free_siblings _ _ _); discriminate.
  - intros (first & st1 & -> & Hloop & Hres & ->). rewrite Hloop.
    cbn [mbind option_bind Z.eqb negb].
    destruct (resolve_unres_data st1) as [rr st2]. cbn [fst snd] in *. subst rr.
    reflexivity.
Qed.

End ParserResult.

(** ** The pointers between a parent and its children *)

Lemma heap_store_family p f h h' :
  (forall n, same_family n (f n)) ->
  heap_store p f h = Some h' ->
  forall q n, h !! q = Some n -> exists n', h' !! q = Some n' /\ same_family n n'.
Proof.
  unfold heap_store. intros Hf Hs q n Hq.
  destruct (h !! p) as [m|] eqn:Hp; [|discriminate]. injection Hs as <-.
  destruct (decide (q = p)) as [->|Hne].
  - rewrite lookup_insert_eq. exists (f m). split; [reflexivity|].
    rewrite Hp in Hq. injection Hq as <-. apply Hf.
  - rewrite lookup_insert_ne by congruence. exists n. split; [exact Hq|].
    split; reflexivity.
Qed.

Lemma link_sibling_family prv result h h' :
  link_sibling prv result h = Some h' ->
  forall q n, h !! q = Some n -> exists n', h' !! q = Some n' /\ same_family n n'.
Proof.
  assert (Hp : forall v n, same_family n (set_prev v n)) by (intros; split; reflexivity).
  assert (Hn : forall v n, same_family n (set_next v n)) by (intros; split; reflexivity).
  unfold link_sibling. intros Hl q n Hq. destruct prv as [pv|].
  - destruct (heap_store result (set_prev (Some pv)) h) as [h3|] eqn:H3; [|discriminate].
    cbn [mbind option_bind] in Hl.
    destruct (heap_store pv (set_next (Some result)) h3) as [h4|] eqn:H4;
      [|discriminate].
    cbn [mbind option_bind] in Hl.
    destruct (first_sibling (size h4) h4 pv pv) as [diter|]; [|discriminate].
    cbn [mbind option_bind] in Hl.
    destruct (heap_store_family _ _ _ _ (Hp _) H3 q n Hq) as (n3 & Hq3 & [Ha3 Hb3]).
    destruct (heap_store_family _ _ _ _ (Hn _) H4 q n3 Hq3) as (n4 & Hq4 & [Ha4 Hb4]).
    destruct (heap_store_family _ _ _ _ (Hp _) Hl q n4 Hq4) as (n5 & Hq5 & [Ha5 Hb5]).
    exists n5. split; [exact Hq5|]. split; congruence.
  - exact (heap_store_family _ _ _ _ (Hp _) Hl q n Hq).
Qed.

(** X19. After a new node is linked in below a parent, its [parent]
    pointer is the parent, and the [child] pointer of the parent is
    the new node if the parent had no child and is unchanged
    otherwise: it stays on the first child. *)
Theorem link_in_parent_points_to_first_child
  (p : ptr) (prv : option ptr) (result : ptr) (h h' : gmap positive lyd_node)
  (pn : lyd_node) :
  p <> result -> h !! p = Some pn ->
  link_in (Some p) prv result h = Some h' ->
  (exists nr', h' !! result = Some nr' /\ parent nr' = Some p)
  /\ (exists pn', h' !! p = Some pn'
                  /\ child pn' = match child pn with
                                 | Some c => Some c
                                 | None => Some result
                                 end).
Proof.
  intros Hne Hp Hl. unfold link_in in Hl.
  destruct (link_parent (Some p) result h) as [h2|] eqn:Hpar; [|discriminate].
  cbn [mbind option_bind] in Hl.
  assert (H2 : (exists nr, h2 !! result = Some nr /\ parent nr = Some p)
               /\ (exists pn2, h2 !! p = Some pn2
                               /\ child pn2 = match child pn with
                                              | Some c => Some c
                                              | None => Some result
                                              end)).
  { unfold link_parent, heap_store in Hpar.
    destruct (h !! result) as [nr|] eqn:Hr; [|discriminate].
    cbn [mbind option_bind] in Hpar.
    rewrite lookup_insert_ne in Hpar by congruence. rewrite Hp in Hpar.
    cbn [mbind option_bind] in Hpar.
    destruct (child pn) as [c|] eqn:Hc; injection Hpar as <-.
    - split.
      + exists (set_parent (Some p) nr). rewrite lookup_insert_eq. split; reflexivity.
      + exists pn. rewrite lookup_insert_ne by congruence. split; assumption.
    - split.
      + exists (set_parent (Some p) nr).
        rewrite lookup_insert_ne by congruence. rewrite lookup_insert_eq.
        split; reflexivity.
      + exists (set_child (Some result) pn). rewrite lookup_insert_eq.
        split; reflexivity. }
  destruct H2 as [(nr & Hr & Hrp) (pn2 & Hp2 & Hpc)].
  destruct (link_sibling_family _ _ _ _ Hl result nr Hr) as (nr' & Hr' & [Ha _]).
  destruct (link_sibling_family _ _ _ _ Hl p pn2 Hp2) as (pn' & Hp' & [_ Hb]).
  split.
  - exists nr'. split; [exact Hr'|congruence].
  - exists pn'. split; [exact Hp'|congruence].
Qed.

Lemma link_in_parent_points_to_first_child_witness :
  exists h',
    link_in (Some 1%positive) None 2%positive heap_parent_and_new = Some h'
    /\ (exists nr', h' !! 2%positive = Some nr' /\ parent nr' = Some 1%positive)
    /\ (exists pn', h' !! 1%positive = Some pn' /\ child pn' = Some 2%positive).
Proof.
  destruct (link_in (Some 1%positive) None 2%positive heap_parent_and_new)
    as [h'|] eqn:Hl; [|vm_compute in Hl; discriminate].
  exists h'. split; [reflexivity|].
  assert (Hne : 1%positive <> 2%positive) by discriminate.
  exact (link_in_parent_points_to_first_child 1%positive None 2%positive
           heap_parent_and_new h' (set_prev (Some 1%positive) zero_node)
           Hne eq_refl Hl).
Defined.

(** ** The name column of the schema tree printer *)

Section TreeNamesProperties.
Variable prefix_len : lys_module -> Z.

Lemma tree_name_len_nonneg module sub : 0 <= tree_name_len prefix_len module sub.
Proof.
  unfold tree_name_len. apply Z.mod_pos_bound. reflexivity.
Qed.

Lemma get_max_name_len_from_spec module n : forall acc,
  0 <= acc ->
  acc <= get_max_name_len_from prefix_len module n acc
  /\ (forall m, In m (tree_column_from n) ->
        tree_name_len prefix_len module m
        <= get_max_name_len_from prefix_len module n acc)
  /\ (get_max_name_len_from prefix_len module n acc = acc
      \/ exists m, In m (tree_column_from n)
                   /\ get_max_name_len_from prefix_len module n acc
                      = tree_name_len prefix_len module m).
Proof.
  induction n as [n IHc IHn] using lys_node_chain_ind. intros acc Hacc.
  destruct n as [a nm fl md nt ty ch nx].
  cbn [get_max_name_len_from tree_column_from s_nodetype s_child s_next] in *.
  set (mask := Z.lor LYS_CHOICE _) in *.
  set (here := if Z.eqb nt LYS_USES
               then match ch with
                    | Some c => tree_column_from c
                    | None => []
                    end
               else if nodetype_in (Lys_node a nm fl md nt ty ch nx) mask
                    then [Lys_node a nm fl md nt ty ch nx] else []).
  set (max' := if Z.eqb nt LYS_USES then _ else _).
  assert (Hhere : acc <= max'
                  /\ (forall m, In m here -> tree_name_len prefix_len module m <= max')
                  /\ (max' = acc
                      \/ exists m, In m here
                                   /\ max' = tree_name_len prefix_len module m)).
  { subst max' here. destruct (Z.eqb nt LYS_USES).
    - destruct ch as [c|].
      + destruct (IHc c eq_refl 0 (Z.le_refl 0)) as (H0 & Hle & Hat).
        destruct (Z.gtb_spec (get_max_name_len_from prefix_len module c 0) acc)
          as [Hgt|Hngt].
        * split; [lia|]. split; [exact Hle|]. right.
          destruct Hat as [Hz|Hat]; [lia|exact Hat].
        * split; [lia|]. split; [|left; reflexivity].
          intros m Hm. specialize (Hle m Hm). lia.
      + cbn [Z.gtb]. destruct (Z.gtb_spec 0 acc); [lia|].
        split; [lia|]. split; [intros m []|left; reflexivity].
    - destruct (nodetype_in _ mask).
      + set (len := tree_name_len prefix_len module _).
        destruct (Z.gtb_spec len acc) as [Hgt|Hngt].
        * split; [lia|]. split.
          -- intros m [<-|[]]. subst len. lia.
          -- right. eexists. split; [left; reflexivity|reflexivity].
        * split; [lia|]. split; [|left; reflexivity].
          intros m [<-|[]]. subst len. lia.
      + split; [lia|]. split; [intros m []|left; reflexivity]. }
  clearbody max' here. destruct Hhere as (Hge & Hle & Hat).
  destruct nx as [m'|].
  - destruct (IHn m' eq_refl max' ltac:(lia)) as (Hge' & Hle' & Hat').
    split; [lia|]. split.
    + intros m Hm. apply in_app_or in Hm as [Hm|Hm].
      * specialize (Hle m Hm). lia.
      * exact (Hle' m Hm).
    + destruct Hat' as [Heq|(m & Hm & Heq)].
      * rewrite Heq. destruct Hat as [Hz|(m & Hm & Hz)]; [left; exact Hz|].
        right. exists m. split; [apply in_or_app; left; exact Hm|exact Hz].
      * right. exists m. split; [apply in_or_app; right; exact Hm|exact Heq].
  - rewrite app_nil_r. split; [exact Hge|]. split; [exact Hle|exact Hat].
Qed.

(** X20. [get_max_name_len] returns the length of the longest name in
    the column: the value is at least the length (name, with prefix
    and colon for a node of another module) of every choice, container,
    leaf, leaf-list, list, anyxml and case of the sibling list, the
    nodes below a uses included, and it is 0 or the length of one of
    them. *)
Theorem get_max_name_len_is_longest (module : lys_module) (node : option lys_node) :
  (forall m, In m (tree_column node) ->
     tree_name_len prefix_len module m <= get_max_name_len prefix_len module node)
  /\ (get_max_name_len prefix_len module node = 0
      \/ exists m, In m (tree_column node)
                   /\ get_max_name_len prefix_len module node
                      = tree_name_len prefix_len module m).
Proof.
  destruct node as [n|]; cbn [get_max_name_len tree_column].
  - destruct (get_max_name_len_from_spec module n 0 (Z.le_refl 0)) as (_ & Hle & Hat).
    split; [exact Hle|exact Hat].
  - split; [intros m []|left; reflexivity].
Qed.

End TreeNamesProperties.

(** ** Sibling rings over a whole parse *)

Lemma xml_siblings_from_eq e :
  xml_siblings_from e
  = e :: match x_next e with
         | Some nx => xml_siblings_from nx
         | None => []
         end.
Proof. destruct e; reflexivity. Qed.

(** induction over an XML element and the elements below it *)
Lemma lyxml_tree_ind (P : lyxml_elem -> Prop) :
  (forall e,
      (forall c, x_child e = Some c -> forall d, In d (xml_siblings_from c) -> P d) ->
      P e) ->
  forall e, P e.
Proof.
  intros step. fix IH 1.
  intros [nm ns ct at' ch nx]. apply step. cbn [x_child].
  destruct ch as [c'|]; [|intros c Hc; discriminate Hc].
  assert (Hs : forall d, In d (xml_siblings_from c') -> P d).
  { revert c'. fix IHs 1. intros s d Hd.
    rewrite xml_siblings_from_eq in Hd. destruct Hd as [<-|Hd]; [apply IH|].
    destruct s as [nm' ns' ct' at'' ch' nx']. cbn [x_next] in Hd.
    destruct nx' as [m|]; [exact (IHs m d Hd)|destruct Hd]. }
  intros c Hc. injection Hc as <-. exact Hs.
Qed.

(** linking a new node in, on the store *)
Lemma link_in_ring (h : gmap positive lyd_node) parent prv result l :
  h !! result = None ->
  match parent with Some p => is_Some (h !! p) | None => True end ->
  ring_behind h prv l ->
  exists h',
    link_in parent prv result (<[result := zero_node]> h) = Some h'
    /\ sibling_ring h' (l ++ [result])
    /\ (forall q, q ∉ l -> q <> result -> links h' q = links h q).
Proof.
  intros Hfresh Hpar Hprv. set (h0 := <[result := zero_node]> h).
  assert (L0 : forall q, q <> result -> links h0 q = links h q).
  { intros q Hq. apply links_insert_ne. congruence. }
  assert (Hnotin : forall l', sibling_ring h l' -> result ∉ l').
  { intros l' Hl' Hin. apply (sibling_ring_allocated _ _ _ Hl') in Hin as [n Hn].
    congruence. }
  destruct (link_parent_spec h0 parent result zero_node) as (h2 & Hh2 & L2 & _).
  { apply lookup_insert_eq. }
  { destruct parent as [p|]; [|exact I]. destruct Hpar as [pn Hpn]. split.
    - intros ->. congruence.
    - unfold h0. rewrite lookup_insert_ne by congruence. eauto. }
  assert (Hr2 : links h2 result = Some (None, None)).
  { rewrite L2. unfold h0. rewrite links_insert_eq. reflexivity. }
  unfold link_in. rewrite Hh2. cbn [mbind option_bind].
  destruct prv as [pv|]; cbn [ring_behind] in Hprv.
  - destruct Hprv as [Hring Hlast].
    destruct (link_sibling_last h2 l pv result) as (h' & H1 & H2 & H3);
      [|exact Hlast|exact Hr2|apply Hnotin, Hring|].
    { apply (sibling_ring_links h); [|exact Hring].
      intros p Hp. rewrite L2. apply L0. intros ->. exact (Hnotin l Hring Hp). }
    exists h'. split; [exact H1|]. split; [exact H2|].
    intros q Hq Hqr. rewrite H3 by assumption. rewrite L2. apply L0, Hqr.
  - subst l. destruct (link_sibling_first h2 result Hr2) as (h' & H1 & H2 & H3).
    exists h'. split; [exact H1|]. split; [exact H2|].
    intros q _ Hqr. rewrite H3 by exact Hqr. rewrite L2. apply L0, Hqr.
Qed.

Lemma links_allocated (h : gmap positive lyd_node) q :
  is_Some (h !! q) <-> is_Some (links h q).
Proof. unfold links. rewrite fmap_is_Some. reflexivity. Qed.

Section Rings.
Context {E : Externals}.
Hypothesis Hkeep : externals_keep_links.

Lemma store_links p f st st' :
  store p f st = Some st' ->
  (forall n, next (f n) = next n /\ prev (f n) = prev n) ->
  forall q, links (heap st') q = links (heap st) q.
Proof.
  unfold store. intros Hs Hf q.
  destruct (heap st !! p) as [n|] eqn:Hp; [|discriminate].
  injection Hs as <-. cbn [heap set_heap].
  apply (links_insert_same _ p n); [exact Hp|apply Hf|apply Hf].
Qed.

Lemma decoder_links node type resolve line st r st3 :
  lyp_parse_value node type resolve line st = (r, st3) ->
  forall q, links (heap st3) q = links (heap st) q.
Proof.
  intros H q. destruct Hkeep as (Hd & _).
  specialize (Hd node type resolve line st q). rewrite H in Hd. exact Hd.
Qed.

Lemma xml_get_value_union_links ctx node xml resolve types :
  forall st stop st',
    xml_get_value_union ctx node xml resolve types st = Some (stop, st') ->
    forall q, links (heap st') q = links (heap st) q.
Proof.
  induction types as [|type rest IH]; intros st stop st' H q.
  - cbn [xml_get_value_union] in H. injection H as _ <-. reflexivity.
  - cbn [xml_get_value_union] in H.
    destruct (heap st !! node) as [leaf|] eqn:Hl; [|discriminate].
    assert (L1 : forall leaf', next leaf' = next leaf -> prev leaf' = prev leaf ->
                 forall q', links (<[node := leaf']> (heap st)) q' = links (heap st) q').
    { intros leaf' Hn Hp q'. apply (links_insert_same _ node leaf); assumption. }
    destruct (is_path_base (base type)).
    + destruct (transform_xml2json ctx (value_str leaf) xml 0) as [json|].
      * destruct (lyp_parse_value _ _ _ _ _) as [r st3] eqn:Hd.
        pose proof (decoder_links _ _ _ _ _ _ _ Hd) as L3. cbn [heap set_heap] in L3.
        destruct (Z.eqb r 0).
        -- injection H as _ <-. rewrite L3. apply L1; reflexivity.
        -- destruct (store node (set_value_str (value_str leaf)) st3) as [st4|] eqn:Hs;
             [|discriminate].
           pose proof (store_links _ _ _ _ Hs (fun n => conj eq_refl eq_refl)) as L4.
           rewrite (IH _ _ _ H), L4, L3. apply L1; reflexivity.
      * rewrite (IH _ _ _ H). cbn [heap set_heap]. apply L1; reflexivity.
    + destruct (lyp_parse_value _ _ _ _ _) as [r st3] eqn:Hd.
      pose proof (decoder_links _ _ _ _ _ _ _ Hd) as L3. cbn [heap set_heap] in L3.
      destruct (Z.eqb r 0).
      * injection H as _ <-. rewrite L3. apply L1; reflexivity.
      * rewrite (IH _ _ _ H). rewrite L3. apply L1; reflexivity.
Qed.

Lemma xml_get_value_links ctx node xml options st rv st' :
  xml_get_value ctx node xml options st = Some (rv, st') ->
  forall q, links (heap st') q = links (heap st) q.
Proof.
  unfold xml_get_value. intros H q.
  destruct (heap st !! node) as [leaf0|] eqn:Hl; [|discriminate].
  destruct (schema leaf0) as [sch|]; [|discriminate].
  assert (L1 : forall leaf', next leaf' = next leaf0 -> prev leaf' = prev leaf0 ->
               forall q', links (<[node := leaf']> (heap st)) q' = links (heap st) q').
  { intros leaf' Hn Hp q'. apply (links_insert_same _ node leaf0); assumption. }
  destruct (_ && _).
  { injection H as _ <-. cbn [heap set_heap]. apply L1; reflexivity. }
  destruct (is_path_base (base (s_type sch))).
  - destruct (transform_xml2json _ _ _ _) as [json|].
    + destruct (lyp_parse_value _ _ _ _ _) as [r st3] eqn:Hd.
      pose proof (decoder_links _ _ _ _ _ _ _ Hd) as L3. cbn [heap set_heap] in L3.
      destruct (Z.eqb r 0); injection H as _ <-; rewrite L3; apply L1; reflexivity.
    + injection H as _ <-. cbn [heap set_heap]. apply L1; reflexivity.
  - destruct (Z.eqb (base (s_type sch)) LY_TYPE_UNION).
    + destruct (xml_get_value_union _ _ _ _ _ _) as [[stop st3]|] eqn:Hu; [|discriminate].
      pose proof (xml_get_value_union_links _ _ _ _ _ _ _ _ Hu) as L3.
      cbn [heap set_heap] in L3.
      destruct stop; injection H as _ <-; cbn [heap LOGVAL]; rewrite L3;
        apply L1; reflexivity.
    + destruct (lyp_parse_value _ _ _ _ _) as [r st3] eqn:Hd.
      pose proof (decoder_links _ _ _ _ _ _ _ Hd) as L3. cbn [heap set_heap] in L3.
      destruct (Z.eqb r 0); injection H as _ <-; rewrite L3; apply L1; reflexivity.
Qed.

End Rings.

Lemma xml_parse_children_eq parse child dlast st :
  xml_parse_children parse child dlast st
  = (res ← parse child dlast st;
     let '(r, diter, st') := res in
     if negb (Z.eqb r 0) then Some (r, st')
     else
       match x_next child with
       | Some nx =>
           xml_parse_children parse nx
             (match diter with Some d => Some d | None => dlast end) st'
       | None => Some (0, st')
       end).
Proof. destruct child; reflexivity. Qed.

Lemma ring_step_skip (h : gmap positive lyd_node) l : ring_step h l None h.
Proof. split; [auto|]. split; reflexivity. Qed.

(** the loop over the children, given what each call does *)
Lemma xml_parse_children_ring
  (parse : lyxml_elem -> option ptr -> pstate -> option (Z * option ptr * pstate))
  (result : ptr) (child : lyxml_elem) :
  (forall d, In d (xml_siblings_from child) ->
     forall dlast st res st' l,
       parse d dlast st = Some (0, res, st') ->
       ring_behind (heap st) dlast l ->
       is_Some (heap st !! result) ->
       ring_step (heap st) l res (heap st')) ->
  forall dlast st st' l,
    xml_parse_children parse child dlast st = Some (0, st') ->
    ring_behind (heap st) dlast l ->
    is_Some (heap st !! result) ->
    (forall q, is_Some (heap st !! q) -> is_Some (heap st' !! q))
    /\ (forall q, is_Some (heap st !! q) -> q ∉ l ->
          links (heap st') q = links (heap st) q).
Proof.
  induction child as [child IH] using lyxml_next_ind.
  intros HP dlast st st' l Hrun Hring Hpar.
  rewrite xml_parse_children_eq in Hrun.
  destruct (parse child dlast st) as [[[r diter] st1]|] eqn:Hp; [|discriminate].
  cbn [mbind option_bind] in Hrun.
  destruct (Z.eqb_spec r 0) as [->|Hr]; cbn [negb] in Hrun;
    [|injection Hrun as Hr0 _; contradiction].
  assert (Hhead : In child (xml_siblings_from child)).
  { rewrite xml_siblings_from_eq. left. reflexivity. }
  destruct (HP child Hhead dlast st diter st1 l Hp Hring Hpar)
    as (Halloc & Hframe & Hres).
  assert (Hrest : forall nx, x_next child = Some nx ->
            forall d, In d (xml_siblings_from nx) ->
            forall dlast st res st' l,
              parse d dlast st = Some (0, res, st') ->
              ring_behind (heap st) dlast l ->
              is_Some (heap st !! result) ->
              ring_step (heap st) l res (heap st')).
  { intros nx Hnx d Hd. apply HP. rewrite xml_siblings_from_eq, Hnx. right. exact Hd. }
  destruct (x_next child) as [nx|] eqn:Hnx.
  - destruct diter as [p|].
    + destruct Hres as [Hfresh Hnew].
      destruct (IH nx eq_refl (Hrest nx eq_refl) (Some p) st1 st' (l ++ [p])%list Hrun)
        as [Halloc' Hframe'].
      { split; [exact Hnew|apply last_snoc]. }
      { apply Halloc, Hpar. }
      split; [auto|].
      intros q Hq Hnl. rewrite Hframe'; [apply Hframe; assumption|auto|].
      intros [Hin| ->%list_elem_of_singleton]%elem_of_app; [contradiction|].
      rewrite Hfresh in Hq. destruct Hq; discriminate.
    + destruct (IH nx eq_refl (Hrest nx eq_refl) dlast st1 st' l Hrun)
        as [Halloc' Hframe'].
      { destruct dlast as [pv|]; [|exact Hring]. destruct Hring as [Hr Hl].
        split; [|exact Hl]. apply (sibling_ring_links (heap st)); [|exact Hr].
        intros q _. apply Hres. }
      { apply Halloc, Hpar. }
      split; [auto|].
      intros q Hq Hnl. rewrite Hframe' by auto. apply Hres.
  - injection Hrun as <-. split; assumption.
Qed.

Section RingsOfTheParser.
Context {E : Externals}.
Hypothesis Hkeep : externals_keep_links.

Lemma xml_parse_data_ring (ctx : ly_ctx) (xml : lyxml_elem) :
  forall schema_parent parent prv options st res st' l,
    xml_parse_data ctx xml schema_parent parent prv options st = Some (0, res, st') ->
    ring_behind (heap st) prv l ->
    match parent with Some p => is_Some (heap st !! p) | None => True end ->
    ring_step (heap st) l res (heap st').
Proof.
  induction xml as [xml IH] using lyxml_tree_ind.
  intros sp parent prv options st res st' l Hrun Hring Hpar.
  destruct xml as [nm ns ct at' ch nx]. cbn [xml_parse_data] in Hrun.
  unfold xml_parse_data_error, xml_parse_data_clear in Hrun.
  cbn [x_child] in IH, Hrun.
  destruct (negb _); [discriminate|].
  destruct (xml_find_schema _ _ _ _ _) as [[sch|]|]; cbn [mbind option_bind] in Hrun;
    [| |discriminate].
  2: { destruct (_ || _); [discriminate|]. injection Hrun as <- <-.
       apply ring_step_skip. }
  destruct (if has_flag options LYD_OPT_EDIT then _ else None) as [code|];
    [discriminate|].
  destruct (xml_alloc_node sch st) as [[[result hc] st1]|] eqn:Ha; [|discriminate].
  apply xml_alloc_node_fresh in Ha as [Hfresh Hst1].
  destruct (link_in_ring (heap st) parent prv result l Hfresh Hpar Hring)
    as (h' & Hl & Hring' & Hframe').
  rewrite Hst1, Hl in Hrun. cbn [mbind option_bind] in Hrun.
  destruct (store result (set_schema (Some sch)) (set_heap h' st1)) as [st2|] eqn:Hs2;
    [|discriminate].
  cbn [mbind option_bind] in Hrun.
  pose proof (store_links _ _ _ _ Hs2 (fun n => conj eq_refl eq_refl)) as L2.
  cbn [heap set_heap] in L2.
  destruct (lyv_data_context result options st2) as [rc st3] eqn:Hc.
  assert (L3 : forall q, links (heap st3) q = links (heap st2) q).
  { intros q. destruct Hkeep as (_ & Hk & _).
    specialize (Hk result options st2 q). rewrite Hc in Hk. exact Hk. }
  destruct (negb (Z.eqb rc 0)); [discriminate|].
  match type of Hrun with
  | mbind _ ?X = _ => destruct X as [[rv st4]|] eqn:Ht; [|discriminate]
  end.
  cbn [mbind option_bind] in Hrun.
  assert (L4 : forall q, links (heap st4) q = links (heap st3) q).
  { destruct (nodetype_in sch (Z.lor LYS_LEAF LYS_LEAFLIST)).
    - exact (xml_get_value_links Hkeep _ _ _ _ _ _ _ Ht).
    - destruct (_ && _).
      + destruct (store result _ st3) as [st4'|] eqn:Hs4; [|discriminate].
        cbn [mbind option_bind] in Ht. injection Ht as _ <-.
        exact (store_links _ _ _ _ Hs4 (fun n => conj eq_refl eq_refl)).
      + injection Ht as _ <-. reflexivity. }
  destruct (negb (Z.eqb rv 0)); [discriminate|].
  destruct (store result _ st4) as [st5|] eqn:Hs5; [|discriminate].
  cbn [mbind option_bind] in Hrun.
  pose proof (store_links _ _ _ _ Hs5 (fun n => conj eq_refl eq_refl)) as L5.
  assert (L25 : forall q, links (heap st5) q = links h' q).
  { intros q. rewrite L5, L4, L3, L2. reflexivity. }
  match type of Hrun with
  | mbind _ ?X = _ => destruct X as [[r st6]|] eqn:Hk; [|discriminate]
  end.
  cbn [mbind option_bind] in Hrun.
  destruct (Z.eqb_spec r 0) as [->|_]; cbn [negb] in Hrun; [|discriminate].
  assert (Hres5 : is_Some (heap st5 !! result)).
  { apply links_allocated. rewrite L25. apply links_allocated.
    apply (sibling_ring_allocated _ _ _ Hring'), elem_of_app. right.
    apply list_elem_of_singleton. reflexivity. }
  assert (L6 : (forall q, is_Some (heap st5 !! q) -> is_Some (heap st6 !! q))
               /\ (forall q, is_Some (heap st5 !! q) ->
                     links (heap st6) q = links (heap st5) q)).
  { destruct ch as [c|]; [|injection Hk as <-; split; auto].
    destruct hc; [|injection Hk as <-; split; auto].
    set (parse := fun child dlast st0 =>
                    xml_parse_data ctx child None (Some result) dlast
                      (if nodetype_in sch (Z.lor LYS_RPC LYS_NOTIF) then 0 else options)
                      st0).
    change (xml_parse_children parse c None st5 = Some (0, st6)) in Hk.
    assert (HP : forall d, In d (xml_siblings_from c) ->
              forall dlast st0 res0 st0' l0,
                parse d dlast st0 = Some (0, res0, st0') ->
                ring_behind (heap st0) dlast l0 ->
                is_Some (heap st0 !! result) ->
                ring_step (heap st0) l0 res0 (heap st0')).
    { intros d Hd dlast st0 res0 st0' l0 Hrun0 Hring0 Hpar0.
      exact (IH c eq_refl d Hd None (Some result) dlast _ st0 res0 st0' l0
               Hrun0 Hring0 Hpar0). }
    destruct (xml_parse_children_ring parse result c HP None st5 st6 [] Hk eq_refl Hres5)
      as [Ha6 Hf6].
    split; [exact Ha6|]. intros q Hq. apply Hf6; [exact Hq|].
    apply not_elem_of_nil. }
  destruct L6 as [A6 L6].
  destruct (lyv_data_content result options (set_errno LY_SUCCESS st6))
    as [rc' st7] eqn:Hv.
  assert (L7 : forall q, links (heap st7) q = links (heap st6) q).
  { intros q. destruct Hkeep as (_ & _ & Hk7 & _).
    specialize (Hk7 result options (set_errno LY_SUCCESS st6) q).
    rewrite Hv in Hk7. exact Hk7. }
  assert (Hdone : st' = st7 /\ res = Some result).
  { destruct (Z.eqb_spec rc' 0) as [->|Hrc]; cbn [negb] in Hrun.
    - injection Hrun as <- <-. split; reflexivity.
    - exfalso. destruct Hkeep as (_ & _ & _ & _ & Hnc).
      specialize (Hnc result options (set_errno LY_SUCCESS st6)).
      rewrite Hv in Hnc. cbn [fst snd] in Hnc. specialize (Hnc Hrc).
      destruct (ly_errno st7); [contradiction|discriminate..]. }
  destruct Hdone as [-> ->].
  assert (Lall : forall q, is_Some (h' !! q) -> links (heap st7) q = links h' q).
  { intros q Hq. rewrite L7, L6, L25; [reflexivity|].
    apply links_allocated. rewrite L25. apply links_allocated. exact Hq. }
  assert (Hold : forall q, is_Some (heap st !! q) -> is_Some (h' !! q)).
  { intros q Hq. destruct (decide (q ∈ l)) as [Hin|Hnin].
    - apply (sibling_ring_allocated _ _ _ Hring'), elem_of_app. left. exact Hin.
    - apply links_allocated. rewrite Hframe'; [apply links_allocated; exact Hq|exact Hnin|].
      intros ->. rewrite Hfresh in Hq. destruct Hq; discriminate. }
  split; [|split; [|split]].
  - intros q Hq. apply links_allocated. rewrite Lall by auto.
    apply links_allocated. auto.
  - intros q Hq Hnl. rewrite Lall by auto. apply Hframe'; [exact Hnl|].
    intros ->. rewrite Hfresh in Hq. destruct Hq; discriminate.
  - exact Hfresh.
  - apply (sibling_ring_links h'); [|exact Hring'].
    intros p Hp. apply Lall. exact (sibling_ring_allocated _ _ _ Hring' Hp).
Qed.

End RingsOfTheParser.

Section RingTheorems.
Context {E : Externals}.

(** X21. With a decoder, validators and a resolution pass that leave
    the sibling links alone, every call of [xml_parse_data] that
    returns 0, at the top level or below a parent, with or without
    children of its own, keeps the sibling rings valid: a node it
    leaves in the result is a new node placed at the end of the
    sibling list behind [prev], which is a valid ring again; a call
    that leaves no node changes no link; every node that was allocated
    stays allocated, and every other valid ring of the store is still
    a valid ring. *)
Theorem xml_parse_data_extends_sibling_ring
  (ctx : ly_ctx) (xml : lyxml_elem) (schema_parent : option lys_node)
  (parent prv : option ptr) (options : Z) (st st' : pstate) (res : option ptr)
  (l : list ptr) :
  externals_keep_links ->
  xml_parse_data ctx xml schema_parent parent prv options st = Some (0, res, st') ->
  ring_behind (heap st) prv l ->
  match parent with Some p => is_Some (heap st !! p) | None => True end ->
  ring_step (heap st) l res (heap st')
  /\ (forall l', sibling_ring (heap st) l' -> (forall p, p ∈ l' -> p ∉ l) ->
        sibling_ring (heap st') l').
Proof.
  intros Hkeep Hrun Hring Hpar.
  pose proof (xml_parse_data_ring Hkeep ctx xml schema_parent parent prv options
                st res st' l Hrun Hring Hpar) as Hstep.
  split; [exact Hstep|].
  destruct Hstep as (_ & Hframe & _).
  intros l' Hl' Hdisj. apply (sibling_ring_links (heap st)); [|exact Hl'].
  intros p Hp. apply Hframe; [|apply Hdisj, Hp].
  exact (sibling_ring_allocated _ _ _ Hl' Hp).
Qed.

Hypothesis Hkeep : externals_keep_links.

(** the loop over the top-level elements *)
Lemma lyd_parse_xml_loop_ring ctx parent options xmlelem :
  forall result last st res st' l,
    lyd_parse_xml_loop ctx parent xmlelem options result last st = Some (0, res, st') ->
    ring_behind (heap st) last l -> result = head l ->
    exists l',
      res = head (l ++ l')%list
      /\ (l ++ l' <> [] -> sibling_ring (heap st') (l ++ l'))%list
      /\ (forall q, q ∈ l' -> heap st !! q = None)
      /\ (forall q, is_Some (heap st !! q) -> q ∉ l ->
            links (heap st') q = links (heap st) q).
Proof.
  induction xmlelem as [e IH] using lyxml_next_ind.
  intros result last st res st' l Hrun Hring Hhead.
  assert (Heq : lyd_parse_xml_loop ctx parent e options result last st
                = (r ← xml_parse_data ctx e parent None last options st;
                   let '(r, iter, st1) := r in
                   if negb (Z.eqb r 0) then Some (r, result, st1)
                   else
                     match x_next e with
                     | Some nx =>
                         lyd_parse_xml_loop ctx parent nx options
                           (match result with Some r0 => Some r0 | None => iter end)
                           (match iter with Some i => Some i | None => last end) st1
                     | None =>
                         Some (0, match result with Some r0 => Some r0 | None => iter end,
                               st1)
                     end)) by (destruct e; reflexivity).
  rewrite Heq in Hrun. clear Heq.
  destruct (xml_parse_data ctx e parent None last options st)
    as [[[r iter] st1]|] eqn:Hp; [|discriminate].
  cbn [mbind option_bind] in Hrun.
  destruct (Z.eqb_spec r 0) as [->|Hr]; cbn [negb] in Hrun;
    [|injection Hrun as Hr0 _ _; contradiction].
  destruct (xml_parse_data_ring Hkeep ctx e parent None last options st iter st1 l
              Hp Hring I) as (Halloc & Hframe & Hres).
  destruct iter as [p|].
  - destruct Hres as [Hfresh Hnew].
    assert (Hhead' : match result with Some r0 => Some r0 | None => Some p end
                     = head (l ++ [p])%list).
    { subst result. destruct l; reflexivity. }
    destruct (x_next e) as [nx|] eqn:Hnx.
    + destruct (IH nx eq_refl _ _ st1 res st' (l ++ [p])%list Hrun)
        as (l' & Hr' & Hring' & Hnew' & Hframe'); [|exact Hhead'|].
      { split; [exact Hnew|apply last_snoc]. }
      exists (p :: l'). rewrite <- app_assoc in Hr', Hring'. cbn [app] in Hr', Hring'.
      split; [exact Hr'|]. split; [exact Hring'|]. split.
      * intros q [->|Hq]%elem_of_cons; [exact Hfresh|].
        destruct (heap st !! q) as [n|] eqn:Hq0; [|reflexivity].
        assert (Hq1 : is_Some (heap st1 !! q)) by (apply Halloc; eauto).
        rewrite (Hnew' q Hq) in Hq1. destruct Hq1; discriminate.
      * intros q Hq Hnl. rewrite Hframe'; [apply Hframe; assumption|auto|].
        intros [Hin| ->%list_elem_of_singleton]%elem_of_app; [contradiction|].
        rewrite Hfresh in Hq. destruct Hq; discriminate.
    + injection Hrun as <- <-. exists [p].
      split; [exact Hhead'|]. split; [intros _; exact Hnew|]. split.
      * intros q ->%list_elem_of_singleton. exact Hfresh.
      * exact Hframe.
  - assert (Hhead' : match result with Some r0 => Some r0 | None => None end = head l).
    { subst result. destruct (head l); reflexivity. }
    assert (Hring1 : ring_behind (heap st1) last l).
    { destruct last as [pv|]; [|exact Hring]. destruct Hring as [Hr Hl].
      split; [|exact Hl]. apply (sibling_ring_links (heap st)); [|exact Hr].
      intros q _. apply Hres. }
    destruct (x_next e) as [nx|] eqn:Hnx.
    + destruct (IH nx eq_refl _ _ st1 res st' l Hrun Hring1 Hhead')
        as (l' & Hr' & Hring' & Hnew' & Hframe').
      exists l'. split; [exact Hr'|]. split; [exact Hring'|]. split.
      * intros q Hq. destruct (heap st !! q) as [n|] eqn:Hq0; [|reflexivity].
        assert (Hq1 : is_Some (heap st1 !! q)) by (apply Halloc; eauto).
        rewrite (Hnew' q Hq) in Hq1. destruct Hq1; discriminate.
      * intros q Hq Hnl. rewrite Hframe' by auto. apply Hres.
    + injection Hrun as <- <-. exists []. rewrite app_nil_r.
      split; [exact Hhead'|]. split.
      * intros Hne. destruct last as [pv|]; [|contradiction].
        destruct Hring1 as [Hr _]. exact Hr.
      * split; [intros q Hq; inversion Hq|]. intros q _ _. apply Hres.
Qed.

End RingTheorems.

Section TopLevelRing.
Context {E : Externals}.

(** X22. With a decoder, validators and a resolution pass that leave
    the sibling links alone, the node [lyd_parse_xml_] returns is the
    first node of a valid sibling ring: the ring consists of nodes
    that the call allocated, so the [prev] of the returned node is the
    last top-level node and [next] leads from each node to the one
    behind it; the nodes that were in the store before keep their
    links. *)
Theorem lyd_parse_xml_returns_valid_ring
  (ctx : ly_ctx) (parent : option lys_node) (root : lyxml_elem) (options : Z)
  (st st' : pstate) (p : ptr) :
  externals_keep_links ->
  lyd_parse_xml_ (Some ctx) parent (Some root) options st = Some (Some p, st') ->
  exists l,
    head l = Some p
    /\ sibling_ring (heap st') l
    /\ (forall q, q ∈ l -> heap st !! q = None)
    /\ (forall q, is_Some (heap st !! q) -> links (heap st') q = links (heap st) q)
    /\ (exists n, heap st' !! p = Some n /\ prev n = last l).
Proof.
  intros Hkeep Hrun. unfold lyd_parse_xml_ in Hrun.
  destruct (x_child root) as [first|]; cbn [mbind option_bind] in Hrun;
    [|discriminate].
  destruct (lyd_parse_xml_loop _ _ _ _ _ _ _) as [[[r result] st1]|] eqn:Hloop;
    cbn [mbind option_bind] in Hrun; [|discriminate].
  destruct (Z.eqb_spec r 0) as [->|_]; cbn [negb] in Hrun;
    [|destruct (lyd_free_siblings _ _ _); discriminate].
  destruct result as [res|]; [|discriminate].
  destruct (resolve_unres_data st1) as [rr st2] eqn:Hres.
  destruct (Z.eqb_spec rr 0) as [->|_]; cbn [negb] in Hrun;
    [|destruct (lyd_free_siblings _ _ _); discriminate].
  injection Hrun as <- <-.
  destruct (lyd_parse_xml_loop_ring Hkeep ctx parent options first None None _
              (Some res) st1 [] Hloop eq_refl eq_refl)
    as (l & Hhead & Hring & Hnew & Hframe).
  cbn [app heap] in Hhead, Hring, Hnew, Hframe.
  assert (L2 : forall q, links (heap st2) q = links (heap st1) q).
  { intros q. destruct Hkeep as (_ & _ & _ & Hk & _).
    specialize (Hk st1 q). rewrite Hres in Hk. exact Hk. }
  assert (Hl : l <> []) by (intros ->; discriminate).
  assert (Hring2 : sibling_ring (heap st2) l).
  { apply (sibling_ring_links (heap st1)); [|exact (Hring Hl)].
    intros q _. apply L2. }
  exists l. cbn [heap lyd_parse_cleanup].
  split; [symmetry; exact Hhead|]. split; [exact Hring2|].
  split; [exact Hnew|]. split.
  - intros q Hq. rewrite L2. apply Hframe; [exact Hq|apply not_elem_of_nil].
  - destruct (sibling_ring_spec _ _ Hring2) as (S1 & _).
    apply S1. symmetry. exact Hhead.
Qed.

End TopLevelRing.

(** the stand-ins leave the links alone *)
Lemma externals_with_keep_links resolve :
  (forall st, heap (resolve st).2 = heap st) ->
  @externals_keep_links (externals_with resolve).
Proof.
  intros Hres. split; [|split; [|split; [|split]]].
  - intros node type rs line st q. cbn [lyp_parse_value externals_with].
    unfold parse_value_by_base.
    destruct (heap st !! node) as [leaf|] eqn:Hl; [|reflexivity].
    destruct (base_accepts (value_str leaf) type); [|reflexivity].
    cbn [snd heap set_heap].
    apply (links_insert_same _ node leaf); [exact Hl|reflexivity|reflexivity].
  - reflexivity.
  - reflexivity.
  - intros st q. cbn [resolve_unres_data externals_with]. rewrite Hres. reflexivity.
  - intros node options st Hne. exfalso. apply Hne. reflexivity.
Qed.

Lemma xml_parse_data_extends_sibling_ring_witness :
  exists st',
    xml_parse_data (E := resolution_ok) ctx_m xml_x_b None None (Some 1%positive) 0
      state_one_sibling = Some (0, Some 2%positive, st')
    /\ ring_step (heap state_one_sibling) [1%positive] (Some 2%positive) (heap st')
    /\ (forall l', sibling_ring (heap state_one_sibling) l' ->
          (forall p, p ∈ l' -> p ∉ [1%positive]) -> sibling_ring (heap st') l').
Proof.
  destruct (xml_parse_data (E := resolution_ok) ctx_m xml_x_b None None
              (Some 1%positive) 0 state_one_sibling)
    as [[[r res] st']|] eqn:Hrun; [|vm_compute in Hrun; discriminate].
  assert (Hr : r = 0 /\ res = Some 2%positive).
  { vm_compute in Hrun. injection Hrun as <- <- _. split; reflexivity. }
  destruct Hr as [-> ->]. exists st'. split; [reflexivity|].
  assert (Hring : ring_behind (heap state_one_sibling) (Some 1%positive) [1%positive]).
  { split; [|reflexivity]. split; [apply NoDup_singleton|].
    intros [|i] p Hi; [|discriminate]. injection Hi as <-. reflexivity. }
  exact (xml_parse_data_extends_sibling_ring (E := resolution_ok) ctx_m xml_x_b None
           None (Some 1%positive) 0 state_one_sibling st' (Some 2%positive)
           [1%positive]
           (externals_with_keep_links (fun st0 => (0, st0)) (fun _ => eq_refl))
           Hrun Hring I).
Defined.

Lemma lyd_parse_xml_returns_valid_ring_witness :
  exists st',
    lyd_parse_xml_ (E := resolution_ok) (Some ctx_m) None (Some xml_root_xs) 0
      empty_state = Some (Some 1%positive, st')
    /\ exists l,
         head l = Some 1%positive
         /\ sibling_ring (heap st') l
         /\ (forall q, q ∈ l -> heap empty_state !! q = None)
         /\ (forall q, is_Some (heap empty_state !! q) ->
               links (heap st') q = links (heap empty_state) q)
         /\ (exists n, heap st' !! 1%positive = Some n /\ prev n = last l).
Proof.
  destruct (lyd_parse_xml_ (E := resolution_ok) (Some ctx_m) None (Some xml_root_xs) 0
              empty_state) as [[res st']|] eqn:Hrun; [|vm_compute in Hrun; discriminate].
  assert (Hr : res = Some 1%positive).
  { vm_compute in Hrun. injection Hrun as <- _. reflexivity. }
  subst res. exists st'. split; [reflexivity|].
  exact (lyd_parse_xml_returns_valid_ring (E := resolution_ok) ctx_m None xml_root_xs 0
           empty_state st' 1%positive
           (externals_with_keep_links (fun st0 => (0, st0)) (fun _ => eq_refl))
           Hrun).
Defined.
